(** * CSV.mjs: a shallow embedding of [CSV.parse] and [CSV.stringify]

    The development follows src/CSV.mjs top to bottom: option validation
    ([toCharArray], [validQuotesAndSeparators]), the class reducer, the
    transition table, the per-character tokenizer with its aggregator, the
    cell normalizer ([parseString]), the row mapper ([toHashMap]) and the
    stringifier.

    Modelling conventions.
    - A JavaScript string is a list of characters ([jsstring]); a character
      is one [ascii] value, so the text handled here is text whose
      characters are single code units.
    - Code that can fail in JavaScript runs in the [Result] monad.  The
      model is conservative: it stops with a fault wherever the source would
      throw, and also wherever the source would silently go on with
      [undefined] (an unknown class, a missing row or cell).
    - Arrays that the caller can observe after [stringify] returns live in a
      store ([heap]) and are passed by reference. *)

From Stdlib Require Import Ascii String.
From Stdlib Require Import List Bool Arith ZArith Lia.
Import ListNotations.

Set Implicit Arguments.
Set Warnings "-register-all".

(** ** Strings *)

Abbreviation jsstring := (list ascii) (only parsing).

Definition str (s : string) : jsstring := list_ascii_of_string s.

Definition LF : ascii := "010"%char.
Definition CR : ascii := "013"%char.
Definition NUL : ascii := "000"%char.
Definition SP : ascii := " "%char.
Definition DQUOTE : ascii := "034"%char.

Fixpoint str_eqb (a b : jsstring) : bool :=
  match a, b with
  | [], [] => true
  | x :: a', y :: b' => Ascii.eqb x y && str_eqb a' b'
  | _, _ => false
  end.

(** [s.startsWith(p)] *)
Fixpoint startsWith (p s : jsstring) : bool :=
  match p, s with
  | [], _ => true
  | x :: p', y :: s' => Ascii.eqb x y && startsWith p' s'
  | _ :: _, [] => false
  end.

(** [s.includes(p)] for a string [s] *)
Fixpoint includes (s p : jsstring) : bool :=
  startsWith p s ||
  match s with
  | [] => false
  | _ :: t => includes t p
  end.

(** [s.endsWith(p)] *)
Definition endsWith (s p : jsstring) : bool := startsWith (rev p) (rev s).

(** Left-to-right replacement of the non-overlapping occurrences of a
    non-empty pattern; [skip] counts the characters of a match still to be
    dropped. *)
Fixpoint replaceEach_from (skip : nat) (s pat rep : jsstring) : jsstring :=
  match s with
  | [] => []
  | c :: t =>
      match skip with
      | S k => replaceEach_from k t pat rep
      | O =>
          if startsWith pat s
          then rep ++ replaceEach_from (length pat - 1) t pat rep
          else c :: replaceEach_from 0 t pat rep
      end
  end.

(** Every occurrence of [pat] replaced by the text [rep], which is inserted
    as it stands: the replacement of a regular-expression [replace] whose
    template is the captured group.  The empty pattern matches before every
    character and at the end. *)
Definition replaceEach (s pat rep : jsstring) : jsstring :=
  match pat with
  | [] => rep ++ flat_map (fun c => c :: rep) s
  | _ :: _ => replaceEach_from 0 s pat rep
  end.

(** The replacement text of one match of [String.prototype.replaceAll] with
    a string pattern (GetSubstitution without captures).  In the template a
    dollar sign followed by a dollar sign gives one dollar sign, followed by
    an ampersand the matched text, followed by a backtick the text before
    the match, followed by an apostrophe the text after it; every other
    character, a dollar sign included, stands for itself. *)
Fixpoint getSubstitution (matched before after template : jsstring)
  : jsstring :=
  match template with
  | [] => []
  | c :: t =>
      if Ascii.eqb c "$"
      then
        match t with
        | [] => [c]
        | d :: t' =>
            if Ascii.eqb d "$"
            then "$"%char :: getSubstitution matched before after t'
            else if Ascii.eqb d "&"
            then matched ++ getSubstitution matched before after t'
            else if Ascii.eqb d "`"
            then before ++ getSubstitution matched before after t'
            else if Ascii.eqb d "'"
            then after ++ getSubstitution matched before after t'
            else c :: getSubstitution matched before after t
        end
      else c :: getSubstitution matched before after t
  end.

(** The matches of a non-empty string pattern from left to right, without
    overlap; [before] is the text already passed and [skip] counts the
    characters of a match still to be dropped. *)
Fixpoint replaceAll_from (skip : nat) (before s pat template : jsstring)
  : jsstring :=
  match s with
  | [] => []
  | c :: t =>
      match skip with
      | S k => replaceAll_from k (before ++ [c]) t pat template
      | O =>
          if startsWith pat s
          then getSubstitution pat before (skipn (length pat) s) template
               ++ replaceAll_from (length pat - 1) (before ++ [c]) t
                    pat template
          else c :: replaceAll_from 0 (before ++ [c]) t pat template
      end
  end.

(** The empty pattern matches before every character and at the end. *)
Fixpoint replaceAll_empty (before s template : jsstring) : jsstring :=
  getSubstitution [] before s template
  ++ match s with
     | [] => []
     | c :: t => c :: replaceAll_empty (before ++ [c]) t template
     end.

(** [s.replaceAll(pat, template)] for a string [pat]: the template is
    expanded anew at every match. *)
Definition replaceAll (s pat template : jsstring) : jsstring :=
  match pat with
  | [] => replaceAll_empty [] s template
  | _ :: _ => replaceAll_from 0 [] s pat template
  end.

(** [cells.join(sep)] *)
Fixpoint join (sep : jsstring) (cells : list jsstring) : jsstring :=
  match cells with
  | [] => []
  | [c] => c
  | c :: rest => c ++ sep ++ join sep rest
  end.

(** ** Faults *)

Inductive Fault : Type :=
| UndefinedClass   (* [reduceClass] fell through and returned [undefined] *)
| UndefinedState   (* [states[parserState]] is [undefined] *)
| OutOfBounds      (* a row or cell that is not there *)
| TypeError.       (* a property read on [undefined] *)

Inductive Result (A : Type) : Type :=
| Ok (a : A)
| Err (f : Fault).

Arguments Ok {A} a.
Arguments Err {A} f.

Definition bind {A B : Type} (m : Result A) (k : A -> Result B) : Result B :=
  match m with
  | Ok a => k a
  | Err f => Err f
  end.

Notation "x <- m ;; k" := (bind m (fun x => k))
  (at level 61, m at next level, right associativity).

(** ** Option values *)

(** The JavaScript values an option can hold, as far as [toCharArray] tells
    them apart. *)
Inductive JSValue : Type :=
| JUndefined
| JString (s : jsstring)
| JArray (elements : list JSValue)
| JOther.

(** Default parameter values apply to [undefined] only. *)
Definition orDefault (d v : JSValue) : JSValue :=
  match v with
  | JUndefined => d
  | _ => v
  end.

Definition maxSingleChar (element : JSValue) : bool :=
  match element with
  | JString s => length s <=? 1
  | _ => false
  end.

Definition stringsOf (elements : list JSValue) : list jsstring :=
  flat_map (fun e => match e with JString s => [s] | _ => [] end) elements.

Definition toCharArray (object : JSValue) : list jsstring :=
  match object with
  | JString s => map (fun c => [c]) s
  | JArray elements => stringsOf (filter maxSingleChar elements)
  | _ => []
  end.

Definition validQuotesAndSeparators (character : jsstring) : bool :=
  negb (str_eqb character []) && negb (str_eqb character [LF])
  && negb (str_eqb character [CR]).

(** ** Character classes and parser states *)

Module Cls.
Inductive t : Type :=
| linefeed | other | quote | separator | space | quoteSeparator.

Definition eqb (a b : t) : bool :=
  match a, b with
  | linefeed, linefeed | other, other | quote, quote
  | separator, separator | space, space
  | quoteSeparator, quoteSeparator => true
  | _, _ => false
  end.

Definition includes (l : list t) (c : t) : bool := existsb (eqb c) l.
End Cls.

Module State.
Inductive t : Type :=
| empty | unsettled | unquoted | open | waiting | closed
| finished | discarded.

Definition eqb (a b : t) : bool :=
  match a, b with
  | empty, empty | unsettled, unsettled | unquoted, unquoted
  | open, open | waiting, waiting | closed, closed
  | finished, finished | discarded, discarded => true
  | _, _ => false
  end.
End State.

Module Taint.
Inductive t : Type := none | inactive | active.

Definition eqb (a b : t) : bool :=
  match a, b with
  | none, none | inactive, inactive | active, active => true
  | _, _ => false
  end.
End Taint.

Definition reduceClass (characterClasses : list Cls.t) : Result Cls.t :=
  match characterClasses with
  | [c] => Ok c
  | _ =>
      let has := Cls.includes characterClasses in
      if has Cls.space && (has Cls.quote && negb (has Cls.separator))
      then Ok Cls.quote
      else if has Cls.space && (negb (has Cls.quote) && has Cls.separator)
      then Ok Cls.separator
      else if has Cls.quote && has Cls.separator
      then Ok Cls.quoteSeparator
      else Err UndefinedClass
  end.

(** The rows of the [states] object; [empty], [finished] and [discarded]
    are not keys of it. *)
Definition states (parserState : State.t) : option (Cls.t -> State.t) :=
  match parserState with
  | State.closed => Some (fun reducedClass =>
      match reducedClass with
      | Cls.linefeed => State.finished
      | Cls.other => State.open
      | Cls.quote => State.closed
      | Cls.quoteSeparator => State.finished
      | Cls.separator => State.finished
      | Cls.space => State.closed
      end)
  | State.open => Some (fun reducedClass =>
      match reducedClass with
      | Cls.linefeed => State.open
      | Cls.other => State.open
      | Cls.quote => State.waiting
      | Cls.quoteSeparator => State.waiting
      | Cls.separator => State.open
      | Cls.space => State.open
      end)
  | State.unquoted => Some (fun reducedClass =>
      match reducedClass with
      | Cls.linefeed => State.finished
      | Cls.other => State.unquoted
      | Cls.quote => State.unquoted
      | Cls.quoteSeparator => State.finished
      | Cls.separator => State.finished
      | Cls.space => State.unquoted
      end)
  | State.unsettled => Some (fun reducedClass =>
      match reducedClass with
      | Cls.linefeed => State.finished
      | Cls.other => State.unquoted
      | Cls.quote => State.open
      | Cls.quoteSeparator => State.open
      | Cls.separator => State.finished
      | Cls.space => State.unsettled
      end)
  | State.waiting => Some (fun reducedClass =>
      match reducedClass with
      | Cls.linefeed => State.finished
      | Cls.other => State.open
      | Cls.quote => State.open
      | Cls.quoteSeparator => State.open
      | Cls.separator => State.finished
      | Cls.space => State.closed
      end)
  | _ => None
  end.

Definition transition (parserState : State.t) (reducedClass : Cls.t)
  : Result State.t :=
  if State.eqb parserState State.empty && Cls.eqb reducedClass Cls.linefeed
  then Ok State.discarded
  else
    let parserState :=
      if State.eqb parserState State.empty then State.unsettled
      else parserState in
    match states parserState with
    | Some row => Ok (row reducedClass)
    | None => Err UndefinedState
    end.

(** The transition table as section 4.3 of the specification prints it,
    one line per row, columns in the order
    lineFeed, other, quote, separator, space, quoteSeparator. *)
Definition spec_row (s : State.t) : option (list State.t) :=
  match s with
  | State.empty =>
      Some [State.discarded; State.unquoted; State.open; State.finished;
            State.unsettled; State.open]
  | State.unsettled =>
      Some [State.finished; State.unquoted; State.open; State.finished;
            State.unsettled; State.open]
  | State.unquoted =>
      Some [State.finished; State.unquoted; State.unquoted; State.finished;
            State.unquoted; State.finished]
  | State.open =>
      Some [State.open; State.open; State.waiting; State.open;
            State.open; State.waiting]
  | State.waiting =>
      Some [State.finished; State.open; State.open; State.finished;
            State.closed; State.open]
  | State.closed =>
      Some [State.finished; State.open; State.closed; State.finished;
            State.closed; State.finished]
  | _ => None
  end.

Definition spec_column (c : Cls.t) : nat :=
  match c with
  | Cls.linefeed => 0
  | Cls.other => 1
  | Cls.quote => 2
  | Cls.separator => 3
  | Cls.space => 4
  | Cls.quoteSeparator => 5
  end.

Definition spec_table (s : State.t) (c : Cls.t) : option State.t :=
  match spec_row s with
  | Some row => nth_error row (spec_column c)
  | None => None
  end.

(** The six states a cell under construction can be in. *)
Definition table_state (s : State.t) : bool :=
  match s with
  | State.finished | State.discarded => false
  | _ => true
  end.

(** ** The tokenizer *)

Definition classifyCharacter (character : ascii) (quote : jsstring)
    (separators : list jsstring) : list Cls.t :=
  let characterClasses :=
    if Ascii.eqb character LF then [Cls.linefeed]
    else
      (if str_eqb [character] quote then [Cls.quote] else [])
      ++ (if existsb (str_eqb [character]) separators
          then [Cls.separator] else [])
      ++ (if Ascii.eqb character SP then [Cls.space] else []) in
  match characterClasses with
  | [] => [Cls.other]
  | _ => characterClasses
  end.

Module Agg.
Record t : Type := mk {
  array : list (list jsstring);
  parserState : State.t;
  quote : jsstring;
  separators : list jsstring;
  ignoreLinefeedBeforeEOF : bool;
  taintQuoteSeparatorLines : bool;
  lineTaint : Taint.t
}.

Definition set_array (a : t) (v : list (list jsstring)) : t :=
  mk v (parserState a) (quote a) (separators a)
     (ignoreLinefeedBeforeEOF a) (taintQuoteSeparatorLines a) (lineTaint a).

Definition set_parserState (a : t) (v : State.t) : t :=
  mk (array a) v (quote a) (separators a)
     (ignoreLinefeedBeforeEOF a) (taintQuoteSeparatorLines a) (lineTaint a).

Definition set_lineTaint (a : t) (v : Taint.t) : t :=
  mk (array a) (parserState a) (quote a) (separators a)
     (ignoreLinefeedBeforeEOF a) (taintQuoteSeparatorLines a) v.
End Agg.

(** [l[l.length - 1] = f(l[l.length - 1])], a fault when [l] is empty. *)
Fixpoint update_last {A : Type} (f : A -> Result A) (l : list A)
  : Result (list A) :=
  match l with
  | [] => Err OutOfBounds
  | [x] => y <- f x ;; Ok [y]
  | x :: rest => rest' <- update_last f rest ;; Ok (x :: rest')
  end.

Definition consume (aggregator : Agg.t) (character : jsstring)
  : Result Agg.t :=
  array' <- update_last
              (update_last (fun cell => Ok (cell ++ character)))
              (Agg.array aggregator) ;;
  Ok (Agg.set_array aggregator array').

Definition discardCell (aggregator : Agg.t) : Result Agg.t :=
  array' <- update_last
              (fun lastLine =>
                 Ok (if 1 <? length lastLine
                     then removelast lastLine else lastLine))
              (Agg.array aggregator) ;;
  Ok (Agg.set_lineTaint
        (Agg.set_parserState (Agg.set_array aggregator array')
           State.finished)
        Taint.none).

Definition endCell (aggregator : Agg.t) (characterClasses : list Cls.t)
  : Result Agg.t :=
  aggregator' <-
    (if Cls.includes characterClasses Cls.separator then
       array' <- update_last (fun lastLine => Ok (lastLine ++ [[]]))
                   (Agg.array aggregator) ;;
       Ok (Agg.set_array aggregator array')
     else if Cls.includes characterClasses Cls.linefeed then
       Ok (Agg.set_lineTaint
             (Agg.set_array aggregator (Agg.array aggregator ++ [[[]]]))
             Taint.none)
     else Ok aggregator) ;;
  Ok (Agg.set_parserState aggregator' State.empty).

Definition lineTaintActivation (aggregator : Agg.t) (reducedClass : Cls.t)
  : Agg.t :=
  match reducedClass with
  | Cls.quoteSeparator => Agg.set_lineTaint aggregator Taint.active
  | Cls.separator => Agg.set_lineTaint aggregator Taint.inactive
  | _ => aggregator
  end.

(** The first conditional of the taint block of [tokenizeCells]. *)
Definition taintUpdate (aggregator : Agg.t) (reducedClass : Cls.t)
    (nextState : State.t) : Agg.t :=
  let isLinefeed := Cls.eqb reducedClass Cls.linefeed in
  let pre := Agg.parserState aggregator in
  if State.eqb nextState State.finished && negb isLinefeed
     && (State.eqb pre State.closed || State.eqb pre State.waiting)
  then lineTaintActivation aggregator reducedClass
  else if State.eqb nextState State.finished
          || State.eqb nextState State.discarded
  then
    if isLinefeed then Agg.set_lineTaint aggregator Taint.none
    else if negb (Taint.eqb (Agg.lineTaint aggregator) Taint.none)
    then lineTaintActivation aggregator reducedClass
    else aggregator
  else aggregator.

(** The taint block of [tokenizeCells]: it returns the aggregator and the
    possibly overridden [nextState]. *)
Definition taintAdjust (aggregator : Agg.t) (reducedClass : Cls.t)
    (nextState : State.t) : Result (Agg.t * State.t) :=
  let aggregator := taintUpdate aggregator reducedClass nextState in
  if Cls.eqb reducedClass Cls.linefeed && State.eqb nextState State.open
     && Taint.eqb (Agg.lineTaint aggregator) Taint.active
  then
    aggregator <- consume aggregator (Agg.quote aggregator) ;;
    Ok (Agg.set_lineTaint aggregator Taint.none, State.finished)
  else Ok (aggregator, nextState).

(** [index] is the position of [character] and [len] the length of the
    array being reduced. *)
Definition tokenizeCells (aggregator : Agg.t) (character : ascii)
    (index len : nat) : Result Agg.t :=
  let characterClasses :=
    classifyCharacter character (Agg.quote aggregator)
      (Agg.separators aggregator) in
  reducedClass <- reduceClass characterClasses ;;
  nextState <- transition (Agg.parserState aggregator) reducedClass ;;
  adjusted <-
    (if Agg.taintQuoteSeparatorLines aggregator
     then taintAdjust aggregator reducedClass nextState
     else Ok (aggregator, nextState)) ;;
  let aggregator := Agg.set_parserState (fst adjusted) (snd adjusted) in
  aggregator <-
    (if State.eqb (Agg.parserState aggregator) State.discarded
     then discardCell aggregator else Ok aggregator) ;;
  if negb (index =? len - 1) then
    if State.eqb (Agg.parserState aggregator) State.finished
    then endCell aggregator characterClasses
    else consume aggregator [character]
  else if State.eqb (Agg.parserState aggregator) State.open then
    aggregator <-
      (if negb (Agg.ignoreLinefeedBeforeEOF aggregator)
       then consume aggregator [character] else Ok aggregator) ;;
    consume aggregator (Agg.quote aggregator)
  else Ok aggregator.

(** [chars.reduce(tokenizeCells, aggregator)], where [chars] is the part of
    the array that starts at position [index]. *)
Fixpoint reduce_from (aggregator : Agg.t) (index len : nat)
    (chars : list ascii) : Result Agg.t :=
  match chars with
  | [] => Ok aggregator
  | character :: rest =>
      aggregator' <- tokenizeCells aggregator character index len ;;
      reduce_from aggregator' (S index) len rest
  end.

Definition reduce (chars : list ascii) (initial : Agg.t) : Result Agg.t :=
  reduce_from initial 0 (length chars) chars.

(** ** Quoted-value normalization *)

Definition all_spaces (s : jsstring) : bool := forallb (Ascii.eqb SP) s.

(** The tail of [surroundedQuotes] (any content, the quote, spaces, end of
    input): the greedy group takes the longest content that still leaves
    the quote and spaces only. *)
Fixpoint match_tail (quote rest : jsstring) : option (jsstring * jsstring) :=
  let longer :=
    match rest with
    | [] => None
    | c :: t =>
        match match_tail quote t with
        | Some (content, spaces) => Some (c :: content, spaces)
        | None => None
        end
    end in
  match longer with
  | Some m => Some m
  | None =>
      if startsWith quote rest
         && all_spaces (skipn (length quote) rest)
      then Some ([], skipn (length quote) rest)
      else None
  end.

(** The regular expression [surroundedQuotes] (spaces, the quote, any
    content, the quote, spaces, anchored at both ends) applied to a cell,
    with the groups $1 and $2 of the match the backtracking search finds
    first; the leading run of spaces is greedy too.  The quote stands for
    itself: [RegExp.escape] makes it literal. *)
Fixpoint surroundedQuotes (quote string : jsstring)
  : option (jsstring * jsstring) :=
  let more_spaces :=
    match string with
    | c :: t => if Ascii.eqb c SP then surroundedQuotes quote t else None
    | [] => None
    end in
  match more_spaces with
  | Some m => Some m
  | None =>
      if startsWith quote string
      then match_tail quote (skipn (length quote) string)
      else None
  end.

(** The regular expression [spaceQuotes] (one space, any content, one
    space, anchored at both ends) with its group $1. *)
Definition spaceQuotes (string : jsstring) : option jsstring :=
  match string with
  | c :: t =>
      if Ascii.eqb c SP then
        match rev t with
        | d :: m => if Ascii.eqb d SP then Some (rev m) else None
        | [] => None
        end
      else None
  | [] => None
  end.

(** [.replace(escapedQuotes, "$1")]: every doubled quote becomes one. *)
Definition escapedQuotes (string quote : jsstring) : jsstring :=
  replaceEach string (quote ++ quote) quote.

Definition parseString (quote : jsstring)
    (ignoreSpacesAfterQuotedString : bool) (string : jsstring) : jsstring :=
  match (if negb (str_eqb quote [SP])
         then surroundedQuotes quote string else None) with
  | Some (content, spaces) =>
      escapedQuotes
        (content ++ (if ignoreSpacesAfterQuotedString then [] else spaces))
        quote
  | None =>
      match (if str_eqb quote [SP] then spaceQuotes string else None) with
      | Some content => escapedQuotes content quote
      | None => string
      end
  end.

Definition parseSubArrays (quote : jsstring)
    (ignoreSpacesAfterQuotedString : bool) (subArray : list jsstring)
  : list jsstring :=
  map (parseString quote ignoreSpacesAfterQuotedString) subArray.

(** ** Mapped rows *)

(** A plain object with string values, as far as property reads and writes
    observe it: own properties in the order they were created. *)
Abbreviation JSObject := (list (list ascii * list ascii)) (only parsing).

Fixpoint own_get (o : JSObject) (key : jsstring) : option jsstring :=
  match o with
  | [] => None
  | (k, v) :: rest => if str_eqb k key then Some v else own_get rest key
  end.

Fixpoint own_set (o : JSObject) (key value : jsstring) : JSObject :=
  match o with
  | [] => [(key, value)]
  | (k, v) :: rest =>
      if str_eqb k key then (k, value) :: rest
      else (k, v) :: own_set rest key value
  end.

(** [o[key] = value] for a string [value]: the inherited [__proto__] setter
    ignores a value that is not an object, every other key becomes an own
    property. *)
Definition prop_set (o : JSObject) (key value : jsstring) : JSObject :=
  if str_eqb key (str "__proto__") then o else own_set o key value.

(** The property key [header[index]] is turned into: a missing entry is
    [undefined], which as a key reads "undefined". *)
Definition header_key (header : list jsstring) (index : nat) : jsstring :=
  match nth_error header index with
  | Some key => key
  | None => str "undefined"
  end.

Fixpoint toHashMap_from (header : list jsstring) (hashMap : JSObject)
    (index : nat) (row : list jsstring) : JSObject :=
  match row with
  | [] => hashMap
  | cell :: rest =>
      toHashMap_from header (prop_set hashMap (header_key header index) cell)
        (S index) rest
  end.

(** [toHashMap.call(header, row)] *)
Definition toHashMap (header row : list jsstring) : JSObject :=
  toHashMap_from header [] 0 row.

(** ** parse *)

Fixpoint strictLinebreakGroups (csv : jsstring) : jsstring :=
  match csv with
  | [] => []
  | c :: t =>
      if Ascii.eqb c CR then
        match t with
        | d :: t' =>
            if Ascii.eqb d LF then LF :: strictLinebreakGroups t'
            else LF :: strictLinebreakGroups t
        | [] => [LF]
        end
      else c :: strictLinebreakGroups t
  end.

Fixpoint looseLinebreakGroups (csv : jsstring) : jsstring :=
  match csv with
  | [] => []
  | c :: t =>
      match t with
      | d :: t' =>
          if (Ascii.eqb c CR && Ascii.eqb d LF)
             || (Ascii.eqb c LF && Ascii.eqb d CR)
          then LF :: looseLinebreakGroups t'
          else (if Ascii.eqb c CR then LF else c) :: looseLinebreakGroups t
      | [] => [if Ascii.eqb c CR then LF else c]
      end
  end.

Module ParseOptions.
Record t : Type := mk {
  quote : JSValue;
  separators : JSValue;
  forceLineFeedAfterCarriageReturn : bool;
  ignoreLinefeedBeforeEOF : bool;
  ignoreSpacesAfterQuotedString : bool;
  taintQuoteSeparatorLines : bool
}.

(** The call [parse(csv)] and [parse(csv, {})]. *)
Definition default : t := mk JUndefined JUndefined true true true false.
End ParseOptions.

Module Table.
Record t : Type := mk {
  header : list jsstring;
  rows : list (list jsstring);
  mappedRows : list JSObject
}.
End Table.

Definition preprocess (forceLineFeedAfterCarriageReturn
    ignoreLinefeedBeforeEOF : bool) (csv : jsstring) : jsstring :=
  let csv :=
    if forceLineFeedAfterCarriageReturn
    then strictLinebreakGroups csv else looseLinebreakGroups csv in
  let csv :=
    csv ++ (if ignoreLinefeedBeforeEOF && endsWith csv [LF]
            then [] else [LF]) in
  filter (fun c => negb (Ascii.eqb c NUL)) csv.

(** The first valid quote, or the empty string when there is none. *)
Definition parse_quote (quote : JSValue) : jsstring :=
  hd [] (filter validQuotesAndSeparators
           (toCharArray (orDefault (JString [DQUOTE]) quote))).

Definition parse_separators (separators : JSValue) : list jsstring :=
  filter validQuotesAndSeparators
    (toCharArray (orDefault (JArray [JString (str ",")]) separators)).

Definition initialAggregator (o : ParseOptions.t) : Agg.t :=
  let quote := parse_quote (ParseOptions.quote o) in
  let separators := parse_separators (ParseOptions.separators o) in
  Agg.mk [[[]]] State.empty quote separators
    (ParseOptions.ignoreLinefeedBeforeEOF o)
    (ParseOptions.taintQuoteSeparatorLines o
     && existsb (str_eqb quote) separators)
    Taint.none.

(** The raw cells: the [array] of the aggregator after the reduction. *)
Definition tokenize (csv : jsstring) (o : ParseOptions.t)
  : Result (list (list jsstring)) :=
  let csv :=
    preprocess (ParseOptions.forceLineFeedAfterCarriageReturn o)
      (ParseOptions.ignoreLinefeedBeforeEOF o) csv in
  aggregator <- reduce csv (initialAggregator o) ;;
  Ok (Agg.array aggregator).

(** A table without a first row would leave [header] undefined; the model
    reports it as a fault. *)
Definition parse (csv : jsstring) (o : ParseOptions.t) : Result Table.t :=
  array <- tokenize csv o ;;
  match map (parseSubArrays (parse_quote (ParseOptions.quote o))
               (ParseOptions.ignoreSpacesAfterQuotedString o)) array with
  | header :: rows =>
      Ok (Table.mk header rows (map (toHashMap header) rows))
  | [] => Err TypeError
  end.

(** ** stringify *)

(** Row arrays are shared with the caller: a row is a reference into a
    store of arrays.  The outer arrays ([object], [rows], [mappedRows]) are
    only read, and [allRows] is built afresh, so they are passed as lists of
    references.  Cells are strings. *)
Abbreviation ref := nat (only parsing).
Abbreviation heap := (list (list jsstring)) (only parsing).

Definition deref (h : heap) (r : ref) : Result (list jsstring) :=
  match nth_error h r with
  | Some row => Ok row
  | None => Err TypeError
  end.

Fixpoint store (h : heap) (r : ref) (row : list jsstring) : heap :=
  match h, r with
  | [], _ => []
  | _ :: rest, O => row :: rest
  | x :: rest, S r' => x :: store rest r' row
  end.

Definition alloc (h : heap) (row : list jsstring) : ref * heap :=
  (length h, h ++ [row]).

Fixpoint alloc_all (h : heap) (rows : list (list jsstring))
  : list ref * heap :=
  match rows with
  | [] => ([], h)
  | row :: rest =>
      let (r, h1) := alloc h row in
      let (rs, h2) := alloc_all h1 rest in
      (r :: rs, h2)
  end.

Definition getLength (h : heap) (r : ref) : Result Z :=
  row <- deref h r ;; Ok (Z.of_nat (length row)).

Fixpoint mapM {A B : Type} (f : A -> Result B) (l : list A)
  : Result (list B) :=
  match l with
  | [] => Ok []
  | x :: rest => y <- f x ;; ys <- mapM f rest ;; Ok (y :: ys)
  end.

(** [mapHeaderKeys.call(map, key)].  The test is the method call
    [this.hasOwnProperty(key)] on the mapped row itself: a row that has an
    own property of that name holds a string there, and calling it throws. *)
Definition mapHeaderKeys (map : JSObject) (key : jsstring)
  : Result jsstring :=
  match own_get map (str "hasOwnProperty") with
  | Some _ => Err TypeError
  | None =>
      match own_get map key with
      | Some value => Ok value
      | None => Ok []
      end
  end.

(** [toRows.call(header, map)]: an empty header never calls
    [mapHeaderKeys]. *)
Definition toRows (header : list jsstring) (map : JSObject)
  : Result (list jsstring) :=
  mapM (mapHeaderKeys map) header.

(** The replacement handed to [replaceAll] is the template
    [quote + quote]. *)
Definition quoteString (quote separator cell : jsstring) : jsstring :=
  let quotedContent := replaceAll cell quote (quote ++ quote) in
  if includes cell [LF] || includes cell quote || includes cell separator
  then quote ++ quotedContent ++ quote
  else cell.

(** [maxCellCount] is the [length] field of the array-like object. *)
Definition toCSVLine (quote separator : jsstring) (maxCellCount : Z)
    (line : list jsstring) : jsstring :=
  join separator
    (map (fun index => quoteString quote separator (nth index line []))
       (seq 0 (Z.to_nat maxCellCount))).

Module StringifyOptions.
Record t : Type := mk {
  quote : JSValue;
  separator : JSValue;
  lineEnd : JSValue;
  trimEmpty : bool;
  lineEndBeforeEOF : bool
}.

(** The call [stringify(object)] and [stringify(object, {})]. *)
Definition default : t := mk JUndefined JUndefined JUndefined true false.
End StringifyOptions.

Definition stringify_quote (quote : JSValue) : jsstring :=
  hd [DQUOTE] (filter validQuotesAndSeparators
                 (toCharArray (orDefault (JString [DQUOTE]) quote))).

Definition stringify_separator (separator : JSValue) : jsstring :=
  hd (str ",") (filter validQuotesAndSeparators
                  (toCharArray (orDefault (JString (str ",")) separator))).

Definition stringify_lineEnd (lineEnd : JSValue) : jsstring :=
  match lineEnd with
  | JString s =>
      if str_eqb s [CR; LF] || str_eqb s [CR] then s else [LF]
  | _ => [LF]
  end.

(** The two shapes of the first argument.  A property of the structured
    shape that is missing is [None]. *)
Inductive StringifyInput : Type :=
| RowMajor (object : list ref)
| Structured (header : option ref) (rows : option (list ref))
    (mappedRows : option (list JSObject)).

(** The destructuring at the start of [stringify]: the references of
    [[header, ...rows]].  The structured shape copies the header into a new
    array; its rows stay the caller's arrays unless they are rebuilt from
    [mappedRows]. *)
Definition allRowsOf (object : StringifyInput) (h : heap)
  : Result (list ref * heap) :=
  match object with
  | RowMajor [] => Err TypeError
  | RowMajor (header :: rows) => Ok (header :: rows, h)
  | Structured header rows mappedRows =>
      headerCells <-
        (match header with
         | Some r => deref h r
         | None => Ok []
         end) ;;
      let (header, h) := alloc h headerCells in
      let rows := match rows with Some l => l | None => [] end in
      let mappedRows := match mappedRows with Some l => l | None => [] end in
      if (length rows =? 0) && (0 <? length mappedRows) then
        rebuilt <- mapM (toRows headerCells) mappedRows ;;
        let (rows, h) := alloc_all h rebuilt in
        Ok (header :: rows, h)
      else Ok (header :: rows, h)
  end.

Definition mathMax (lengths : list Z) : Result Z :=
  match lengths with
  | [] => Err TypeError
  | x :: rest => Ok (fold_left Z.max rest x)
  end.

Definition isEmptyRow (row : list jsstring) : bool :=
  forallb (fun string => length string =? 0) row.

(** The first trimming loop, on the reversed [allRows]: pop while the last
    row has empty cells only. *)
Fixpoint popEmptyRows (h : heap) (reversed : list ref) : Result (list ref) :=
  match reversed with
  | [] => Ok []
  | r :: rest =>
      row <- deref h r ;;
      if isEmptyRow row then popEmptyRows h rest else Ok reversed
  end.

(** [!row[k] || row[k].length === 0] *)
Definition emptyAt (row : list jsstring) (k : Z) : bool :=
  if (k <? 0)%Z then true
  else
    match nth_error row (Z.to_nat k) with
    | Some cell => length cell =? 0
    | None => true
    end.

Fixpoint everyEmptyAt (h : heap) (allRows : list ref) (k : Z)
  : Result bool :=
  match allRows with
  | [] => Ok true
  | r :: rest =>
      row <- deref h r ;;
      if emptyAt row k then everyEmptyAt h rest k else Ok false
  end.

(** What [row.splice(start, 1)] leaves in [row]. *)
Definition splice1 (row : list jsstring) (start : Z) : list jsstring :=
  let len := Z.of_nat (length row) in
  let actualStart :=
    if (start <? 0)%Z then Z.max (len + start) 0 else Z.min start len in
  firstn (Z.to_nat actualStart) row ++ skipn (S (Z.to_nat actualStart)) row.

(** [allRows.forEach((row) => row.splice(k, 1))] *)
Fixpoint spliceAll (h : heap) (allRows : list ref) (k : Z) : Result heap :=
  match allRows with
  | [] => Ok h
  | r :: rest =>
      row <- deref h r ;;
      spliceAll (store h r (splice1 row k)) rest k
  end.

(** The second trimming loop.  [n] is [maxCellCount.length + 1]: the loop
    stops for good when the length has become -1.  The result is the final
    [maxCellCount.length] and the store. *)
Fixpoint trimColumns (n : nat) (allRows : list ref) (h : heap)
  : Result (Z * heap) :=
  match n with
  | O => Ok ((-1)%Z, h)
  | S m =>
      let maxCellCount := Z.of_nat m in
      every <- everyEmptyAt h allRows (maxCellCount - 1)%Z ;;
      if every then
        h' <- spliceAll h allRows (maxCellCount - 1)%Z ;;
        trimColumns m allRows h'
      else Ok (maxCellCount, h)
  end.

(** [stringify] returns the text and the store it leaves behind. *)
Definition stringify (object : StringifyInput) (o : StringifyOptions.t)
    (h : heap) : Result (jsstring * heap) :=
  let quote := stringify_quote (StringifyOptions.quote o) in
  let separator := stringify_separator (StringifyOptions.separator o) in
  let lineEnd := stringify_lineEnd (StringifyOptions.lineEnd o) in
  init <- allRowsOf object h ;;
  let (allRows, h) := init in
  lengths <- mapM (getLength h) allRows ;;
  maxCellCount <- mathMax lengths ;;
  trimmed <-
    (if StringifyOptions.trimEmpty o then
       reversed <- popEmptyRows h (rev allRows) ;;
       let allRows := rev reversed in
       counted <- trimColumns (Z.to_nat (maxCellCount + 1)) allRows h ;;
       Ok (allRows, counted)
     else Ok (allRows, (maxCellCount, h))) ;;
  let '(allRows, (maxCellCount, h)) := trimmed in
  lines <- mapM (deref h) allRows ;;
  Ok (join lineEnd (map (toCSVLine quote separator maxCellCount) lines)
        ++ (if StringifyOptions.lineEndBeforeEOF o then lineEnd else []),
      h).

(** A table of the caller laid out in a fresh store, one array per row, and
    the row-major array that refers to it. *)
Definition heap_of (T : list (list jsstring)) : heap := T.

Definition rowMajor_of (T : list (list jsstring)) : StringifyInput :=
  RowMajor (seq 0 (length T)).

(** ** Vocabulary of the statements *)

(** The aggregator's table is well formed: there is a last row, and every
    row has a last cell. *)
Definition well_formed (array : list (list jsstring)) : Prop :=
  array <> [] /\ Forall (fun row => row <> []) array.

(** One call of the reducer, told only whether it is at the last index. *)
Definition tok (isLast : bool) (aggregator : Agg.t) (character : ascii)
  : Result Agg.t :=
  tokenizeCells aggregator character (if isLast then 0 else 1) 1.

(** The reducer over characters none of which is the last one. *)
Fixpoint feed (aggregator : Agg.t) (chars : list ascii) : Result Agg.t :=
  match chars with
  | [] => Ok aggregator
  | character :: rest =>
      aggregator' <- tok false aggregator character ;;
      feed aggregator' rest
  end.


(** A cell with every occurrence of [q] doubled. *)
Definition doubled (q : ascii) (cell : jsstring) : jsstring :=
  flat_map (fun c => if Ascii.eqb c q then [q; q] else [c]) cell.

(** Characters that neither [stringify] nor [parse] treats specially under
    the default options. *)
Definition plain_char (c : ascii) : bool :=
  negb (Ascii.eqb c DQUOTE) && negb (Ascii.eqb c ","%char)
  && negb (Ascii.eqb c LF) && negb (Ascii.eqb c CR)
  && negb (Ascii.eqb c NUL).

Definition plain_cell (cell : jsstring) : bool := forallb plain_char cell.

(** The aggregator of a [parse] call with the default options. *)
Definition defaultAggregator (array : list (list jsstring))
    (parserState : State.t) : Agg.t :=
  Agg.mk array parserState [DQUOTE] [str ","] true false Taint.none.

(** The states of a cell that has seen no quote. *)
Definition unquoted_state (s : State.t) : bool :=
  match s with
  | State.empty | State.unsettled | State.unquoted => true
  | _ => false
  end.

(** The state of a cell without quotes goes with its content: a cell that
    has content is past [empty]. *)
Definition cell_state (cur : jsstring) (s : State.t) : Prop :=
  unquoted_state s = true /\ (cur <> [] -> s <> State.empty).

(** *** Scenario D *)

Definition scenarioD_input : jsstring :=
  str ",Foxes & Wolves, ,Tucans,,Birds" ++ [LF] ++ str "of Paradise,".

Definition scenarioD_options (ignoreSpacesAfterQuotedString : bool)
  : ParseOptions.t :=
  ParseOptions.mk (JString (str ",")) (JArray [JString (str ",")])
    true true ignoreSpacesAfterQuotedString true.

(** *** Scenario E *)

Definition scenarioE_table : list (list jsstring) :=
  [[str "A"; str "B"; []; []]; [str "x"; str "y"]].

(** *** A call without a quote *)

Definition noQuote_options : ParseOptions.t :=
  ParseOptions.mk (JString []) JUndefined true true true false.

(** *** Round trip *)

(** Rows of [n + 1] plain cells, the last of which is not empty. *)
Definition plain_rectangular (n : nat) (T : list (list jsstring)) : Prop :=
  Forall (fun row => length row = S n
                     /\ forallb plain_cell row = true
                     /\ last row [] <> []) T.

(** The text of a table whose cells need no quoting. *)
Definition csv_of (T : list (list jsstring)) : jsstring :=
  join [LF] (map (join (str ",")) T).

(** Tables of cells without quote, separator and line feed that do not
    survive the round trip. *)
Definition trailing_empty_cell : list (list jsstring) :=
  [[str "a"; str "b"]; [str "c"; []]].

Definition trailing_empty_row : list (list jsstring) :=
  [[str "a"]; [[]]].

Definition short_row : list (list jsstring) :=
  [[str "a"; str "b"; str "c"]; [str "d"]].

Definition carriage_return_cell : list (list jsstring) :=
  [[str "a"]; [str "b" ++ [CR] ++ str "c"]].

(** [parse(stringify(T))] for a row-major table [T] in a store of its
    own, under the default options. *)
Definition round_trip (T : list (list jsstring)) : Result Table.t :=
  text <- stringify (rowMajor_of T) StringifyOptions.default (heap_of T) ;;
  parse (fst text) ParseOptions.default.

Definition countries : list (list jsstring) :=
  [[str "Country"; str "Capital City"]; [str "Germany"; str "Berlin"]].

(** The characters the round-trip property of the specification allows
    in a cell: no quote, no separator, no line feed. *)
Definition safe_char (c : ascii) : bool :=
  negb (Ascii.eqb c DQUOTE) && negb (Ascii.eqb c ","%char)
  && negb (Ascii.eqb c LF).

Definition safe_table (T : list (list jsstring)) : bool :=
  forallb (forallb (forallb safe_char)) T.

(** *** Line ends of other systems *)

(** A text with every line feed written as carriage return and line
    feed, and with every line feed written as a carriage return. *)
Definition crlf (s : jsstring) : jsstring :=
  flat_map (fun c => if Ascii.eqb c LF then [CR; LF] else [c]) s.

Definition cr_only (s : jsstring) : jsstring :=
  map (fun c => if Ascii.eqb c LF then CR else c) s.

Definition no_CR (s : jsstring) : bool :=
  forallb (fun c => negb (Ascii.eqb c CR)) s.

(** *** The reduced class of a character *)

(** The reduced class read off the three membership tests. *)
Definition reducedClassOf (character : ascii) (quote : jsstring)
    (separators : list jsstring) : Cls.t :=
  if Ascii.eqb character LF then Cls.linefeed
  else
    match str_eqb [character] quote,
          existsb (str_eqb [character]) separators with
    | true, true => Cls.quoteSeparator
    | true, false => Cls.quote
    | false, true => Cls.separator
    | false, false =>
        if Ascii.eqb character SP then Cls.space else Cls.other
    end.

(** *** The store after stringify *)

(** [new] is [old] without some cells at its end, all of them empty. *)
Definition trimmed_of (old new : list jsstring) : Prop :=
  exists k, old = new ++ repeat [] k.

(** Every array of [h] is still in [h'], where it has lost at most empty
    cells at its end. *)
Definition heap_trimmed (h h' : heap) : Prop :=
  length h <= length h'
  /\ forall r row,
       nth_error h r = Some row ->
       exists row', nth_error h' r = Some row' /\ trimmed_of row row'.

Definition valid_ref (h : heap) (r : ref) : Prop := r < length h.

(** An argument of [stringify] whose arrays exist. *)
Definition valid_input (object : StringifyInput) (h : heap) : Prop :=
  match object with
  | RowMajor refs => Forall (valid_ref h) refs
  | Structured header rows _ =>
      match header with Some r => valid_ref h r | None => True end
      /\ match rows with
         | Some refs => Forall (valid_ref h) refs
         | None => True
         end
  end.

(** *** Round trip of cells with any content *)

(** Characters that preprocessing leaves alone. *)
Definition text_char (c : ascii) : bool :=
  negb (Ascii.eqb c CR) && negb (Ascii.eqb c NUL).

Definition text_cell (cell : jsstring) : bool := forallb text_char cell.

(** Rows of [n + 1] cells without carriage return and NUL, the last of
    which is not empty. *)
Definition text_rectangular (n : nat) (T : list (list jsstring)) : Prop :=
  Forall (fun row => length row = S n
                     /\ forallb text_cell row = true
                     /\ last row [] <> []) T.

(** The text of a table under the default options of [stringify] when
    nothing is trimmed. *)
Definition quoted_csv_of (T : list (list jsstring)) : jsstring :=
  join [LF]
    (map (fun row => join (str ",")
                       (map (quoteString [DQUOTE] (str ",")) row)) T).

(** The states in which a cell can be when its text has been read. *)
Definition end_state (s : State.t) : bool :=
  match s with
  | State.empty | State.unsettled | State.unquoted | State.waiting => true
  | _ => false
  end.

Definition quoted_table : list (list jsstring) :=
  [[str "a,b"; str "say " ++ [DQUOTE] ++ str "hi" ++ [DQUOTE]];
   [str "line 1" ++ [LF] ++ str "line 2"; str " x "]].

(** *** Parsing without a quote *)

(** A cell without its leading spaces. *)
Fixpoint dropSpaces (s : jsstring) : jsstring :=
  match s with
  | [] => []
  | c :: t => if Ascii.eqb c SP then dropSpaces t else s
  end.

Definition no_LF (cell : jsstring) : bool :=
  negb (existsb (Ascii.eqb LF) cell).

(** *** The characters of the cells *)

(** Every character of every cell of a table satisfies [P]. *)
Definition cells_all (P : ascii -> Prop) (array : list (list jsstring))
  : Prop :=
  Forall (Forall (Forall P)) array.

(** *** Lines that end with a separator *)

(** Rows of at least one cell, without carriage return and NUL. *)
Definition text_rows (T : list (list jsstring)) : Prop :=
  Forall (fun row => row <> [] /\ forallb text_cell row = true) T.

(** The text of a table with a comma after the last cell of every row. *)
Definition trailing_comma_csv (T : list (list jsstring)) : jsstring :=
  join [LF]
    (map (fun row =>
            join (str ",") (map (quoteString [DQUOTE] (str ",")) row)
            ++ str ",") T).

Definition greek_hebrew : list (list jsstring) :=
  [[str "Greek"; str "Hebrew"]; [str "Alpha"; []]; [str "Beta"; str "Bet"]].

(** *** Quoting with the dollar sign *)

(** What [replaceAll] with the template [quote + quote] makes of a cell:
    with the dollar sign as quote the template stands for one dollar sign,
    and the cell stays as it is. *)
Definition quotedContentOf (q : ascii) (cell : jsstring) : jsstring :=
  if Ascii.eqb q "$" then cell else doubled q cell.

Definition dollarQuote : StringifyOptions.t :=
  StringifyOptions.mk (JString (str "$")) JUndefined JUndefined true false.

Definition dollarQuote_parse : ParseOptions.t :=
  ParseOptions.mk (JString (str "$")) JUndefined true true true false.

(** The options of a call that trims nothing. *)
Definition untrimmed (quote separator : JSValue) : StringifyOptions.t :=
  StringifyOptions.mk quote separator JUndefined false false.

(** *** Mapped rows that can be asked for their properties *)

(** No mapped row has an own property named hasOwnProperty. *)
Definition plain_mappedRows (object : StringifyInput) : Prop :=
  match object with
  | RowMajor _ => True
  | Structured _ _ None => True
  | Structured _ _ (Some mappedRows) =>
      Forall (fun map => own_get map (str "hasOwnProperty") = None)
        mappedRows
  end.

(** * Properties *)

Unset Implicit Arguments.

(** ** Strings *)

Lemma str_eqb_eq (a b : jsstring) : str_eqb a b = true <-> a = b.
Proof.
  revert b; induction a as [|x a IH]; intros [|y b]; simpl;
    try (split; (discriminate || reflexivity)).
  rewrite andb_true_iff, Ascii.eqb_eq, IH.
  split; [intros [-> ->]; reflexivity | intros [= -> ->]; auto].
Qed.

Lemma str_eqb_refl (a : jsstring) : str_eqb a a = true.
Proof. apply str_eqb_eq; reflexivity. Qed.

Lemma str_eqb_neq (a b : jsstring) : a <> b -> str_eqb a b = false.
Proof.
  intros H; destruct (str_eqb a b) eqn:E; [|reflexivity].
  apply str_eqb_eq in E; contradiction.
Qed.

Lemma includes_char (c : ascii) (s : jsstring) :
  includes s [c] = existsb (Ascii.eqb c) s.
Proof.
  induction s as [|x s IH]; simpl; [reflexivity|].
  rewrite IH; destruct (Ascii.eqb c x); reflexivity.
Qed.

Lemma existsb_eqb_In (c : ascii) (s : jsstring) :
  existsb (Ascii.eqb c) s = true <-> In c s.
Proof.
  rewrite existsb_exists; split.
  - intros (x & Hin & E); apply Ascii.eqb_eq in E; subst; exact Hin.
  - intros Hin; exists c; split; [exact Hin | apply Ascii.eqb_refl].
Qed.

Lemma getSubstitution_pair (q : ascii) (matched before after : jsstring) :
  getSubstitution matched before after [q; q]
  = if Ascii.eqb q "$" then ["$"%char] else [q; q].
Proof.
  cbn [getSubstitution].
  destruct (Ascii.eqb q "$") eqn:E; reflexivity.
Qed.

Lemma replaceAll_from_char (q : ascii) (cell before : jsstring) :
  replaceAll_from 0 before cell [q] [q; q] = quotedContentOf q cell.
Proof.
  unfold quotedContentOf, doubled.
  revert before; induction cell as [|x cell IH]; intros before.
  - destruct (Ascii.eqb q "$"); reflexivity.
  - cbn [replaceAll_from startsWith length Nat.sub flat_map].
    rewrite getSubstitution_pair, andb_true_r, (Ascii.eqb_sym x q), IH.
    destruct (Ascii.eqb q x) eqn:E.
    + apply Ascii.eqb_eq in E; subst x.
      destruct (Ascii.eqb q "$") eqn:D; [|reflexivity].
      apply Ascii.eqb_eq in D; subst q; reflexivity.
    + destruct (Ascii.eqb q "$"); reflexivity.
Qed.

Lemma replaceAll_char (q : ascii) (cell : jsstring) :
  replaceAll cell [q] [q; q] = quotedContentOf q cell.
Proof. apply replaceAll_from_char. Qed.

Lemma replaceAll_char_doubled (q : ascii) (cell : jsstring) :
  q <> "$"%char -> replaceAll cell [q] [q; q] = doubled q cell.
Proof.
  intros H. rewrite replaceAll_char. unfold quotedContentOf.
  destruct (Ascii.eqb q "$") eqn:E; [|reflexivity].
  apply Ascii.eqb_eq in E; contradiction.
Qed.

Lemma DQUOTE_not_dollar : DQUOTE <> "$"%char.
Proof. discriminate. Qed.

(** ** The transition table *)

(** C1: for each of the six states of the table and each reduced class,
    [transition] returns the successor that the table of section 4.3 of
    the specification gives; from [empty] a line feed leads to [discarded]
    and every other class leads where it leads from [unsettled]. *)
Theorem transition_follows_spec_table (s : State.t) (c : Cls.t) :
  table_state s = true ->
  (exists s', spec_table s c = Some s' /\ transition s c = Ok s')
  /\ transition State.empty Cls.linefeed = Ok State.discarded
  /\ (c <> Cls.linefeed ->
      transition State.empty c = transition State.unsettled c).
Proof.
  intros Hs; repeat split.
  - destruct s; try discriminate Hs; destruct c; eexists; split; reflexivity.
  - destruct c; intros H; try reflexivity; contradiction H; reflexivity.
Qed.

Lemma transition_follows_spec_table_witness :
  table_state State.waiting = true
  /\ (exists s', spec_table State.waiting Cls.space = Some s'
                 /\ transition State.waiting Cls.space = Ok s')
  /\ transition State.empty Cls.linefeed = Ok State.discarded
  /\ (Cls.space <> Cls.linefeed ->
      transition State.empty Cls.space
      = transition State.unsettled Cls.space).
Proof.
  split; [reflexivity|].
  apply (transition_follows_spec_table State.waiting Cls.space).
  reflexivity.
Defined.

(** ** The scenarios of the documentation *)

Example scenarioA :
  parse (str "Country,Capital City" ++ [LF] ++ str "Germany,Berlin")
    ParseOptions.default
  = Ok (Table.mk [str "Country"; str "Capital City"]
          [[str "Germany"; str "Berlin"]]
          [[(str "Country", str "Germany");
            (str "Capital City", str "Berlin")]]).
Proof. vm_compute; reflexivity. Qed.

Example scenarioB :
  parse (str "'Rock''n''Roll';4145")
    (ParseOptions.mk (JString (str "'")) (JString (str ";"))
       true true true false)
  = Ok (Table.mk [str "Rock'n'Roll"; str "4145"] [] []).
Proof. vm_compute; reflexivity. Qed.

Example scenarioC :
  parse (str "Value 1a,Value 2a" ++ [LF] ++ str "Value 1b"
           ++ ["009"%char] ++ str "Value 2b")
    (ParseOptions.mk JUndefined (JString (str ",;" ++ ["009"%char]))
       true true true false)
  = Ok (Table.mk [str "Value 1a"; str "Value 2a"]
          [[str "Value 1b"; str "Value 2b"]]
          [[(str "Value 1a", str "Value 1b");
            (str "Value 2a", str "Value 2b")]]).
Proof. vm_compute; reflexivity. Qed.

(** The trailing comma of a row does not open a cell: the cell is
    discarded at the line feed. *)
Example trailing_comma_is_discarded :
  tokenize (str "Greek,Hebrew," ++ [LF] ++ str "Alpha,Alef," ++ [LF])
    ParseOptions.default
  = Ok [[str "Greek"; str "Hebrew"]; [str "Alpha"; str "Alef"]].
Proof. vm_compute; reflexivity. Qed.

(** The faults of the model are not idle: outside the reach of [parse]
    each of them occurs. *)
Example faults_occur :
  reduceClass [Cls.other; Cls.space] = Err UndefinedClass
  /\ transition State.finished Cls.other = Err UndefinedState
  /\ consume (defaultAggregator [] State.empty) [SP] = Err OutOfBounds
  /\ consume (defaultAggregator [[]] State.empty) [SP] = Err OutOfBounds
  /\ stringify (RowMajor []) StringifyOptions.default [] = Err TypeError.
Proof. repeat split; reflexivity. Qed.

(** ** Scenario D *)

(** C2 (as amended): with quote and separator both a comma and taint
    emulation enabled, the input of scenario D gives two rows and no cell
    holds a line feed.  The header is Foxes & Wolves with its trailing
    space, Tucans, Birds when [ignoreSpacesAfterQuotedString] is off; under
    its default (on) the first header cell has no trailing space. *)
Theorem scenarioD_rows :
  parse scenarioD_input (scenarioD_options false)
  = Ok (Table.mk
          [str "Foxes & Wolves "; str "Tucans"; str "Birds"]
          [[str "of Paradise"]]
          [[(str "Foxes & Wolves ", str "of Paradise")]])
  /\ parse scenarioD_input (scenarioD_options true)
     = Ok (Table.mk
             [str "Foxes & Wolves"; str "Tucans"; str "Birds"]
             [[str "of Paradise"]]
             [[(str "Foxes & Wolves", str "of Paradise")]]).
Proof. split; vm_compute; reflexivity. Qed.

(** Under the default options the header of scenario D is not the one the
    scenario prints. *)
Lemma scenarioD_default_header_differs :
  ~ (exists t,
        parse scenarioD_input (scenarioD_options true) = Ok t
        /\ Table.header t
           = [str "Foxes & Wolves "; str "Tucans"; str "Birds"]
        /\ Table.rows t = [[str "of Paradise"]]).
Proof.
  intros (t & H & Hh & _).
  vm_compute in H. injection H as <-.
  vm_compute in Hh. discriminate Hh.
Qed.

(** ** A call without a quote *)

(** C8 (the code at the failing input): without a quote the pattern of
    [surroundedQuotes] matches every cell, and the leading spaces of the
    cells are lost. *)
Theorem absent_quote_strips_leading_spaces :
  parse_quote (ParseOptions.quote noQuote_options) = []
  /\ tokenize (str " a, b") noQuote_options = Ok [[str " a"; str " b"]]
  /\ parseString [] true (str " a") = str "a"
  /\ parse (str " a, b") noQuote_options
     = Ok (Table.mk [str "a"; str "b"] [] []).
Proof. repeat split; vm_compute; reflexivity. Qed.

(** ** The caller's arrays after stringify *)

(** C9 (the code at the failing input): trimming the empty columns of
    scenario E splices the caller's header array. *)
Theorem stringify_splices_caller_rows :
  stringify (rowMajor_of scenarioE_table) StringifyOptions.default
    (heap_of scenarioE_table)
  = Ok (str "A,B" ++ [LF] ++ str "x,y",
        [[str "A"; str "B"]; [str "x"; str "y"]])
  /\ deref (heap_of scenarioE_table) 0 = Ok [str "A"; str "B"; []; []]
  /\ [[str "A"; str "B"]; [str "x"; str "y"]] <> heap_of scenarioE_table.
Proof. repeat split; try (vm_compute; reflexivity). discriminate. Qed.

(** The structured shape copies the header, so only the body rows are
    spliced. *)
Lemma stringify_structured_keeps_header :
  stringify (Structured (Some 0) (Some [1]) None) StringifyOptions.default
    [[str "A"; str "B"; []; []]; [str "x"; str "y"; []]]
  = Ok (str "A,B" ++ [LF] ++ str "x,y",
        [[str "A"; str "B"; []; []]; [str "x"; str "y"];
         [str "A"; str "B"]]).
Proof. vm_compute; reflexivity. Qed.

(** ** Quoting *)

Lemma validated_single (v : JSValue) (x : jsstring) :
  In x (filter validQuotesAndSeparators (toCharArray v)) ->
  exists c, x = [c] /\ c <> LF /\ c <> CR.
Proof.
  rewrite filter_In. intros [Hin Hv].
  assert (Hlen : length x <= 1).
  { destruct v as [|s|elements|]; simpl in Hin; try contradiction.
    - apply in_map_iff in Hin. destruct Hin as (c & <- & _). simpl; lia.
    - unfold stringsOf in Hin. apply in_flat_map in Hin.
      destruct Hin as (e & He & Hx). apply filter_In in He.
      destruct He as [_ He]. destruct e; simpl in Hx; try contradiction.
      destruct Hx as [<-|[]]. simpl in He. apply Nat.leb_le in He. exact He. }
  unfold validQuotesAndSeparators in Hv.
  destruct x as [|c [|d x]]; simpl in Hlen; try lia.
  - discriminate Hv.
  - exists c; split; [reflexivity|].
    simpl in Hv. rewrite !andb_true_r in Hv.
    split; intros ->; vm_compute in Hv; discriminate Hv.
Qed.

Lemma hd_validated_single (d : ascii) (v : JSValue) :
  exists c, hd [d] (filter validQuotesAndSeparators (toCharArray v)) = [c].
Proof.
  destruct (filter validQuotesAndSeparators (toCharArray v)) as [|x l] eqn:E.
  - exists d; reflexivity.
  - destruct (validated_single v x) as (c & -> & _).
    + rewrite E; left; reflexivity.
    + exists c; reflexivity.
Qed.

Lemma quotedContentOf_length (q : ascii) (cell : jsstring) :
  length cell <= length (quotedContentOf q cell).
Proof.
  unfold quotedContentOf, doubled. destruct (Ascii.eqb q "$"); [lia|].
  induction cell as [|x cell IH]; simpl; [lia|].
  destruct (Ascii.eqb x q); simpl; lia.
Qed.

Lemma quoteString_char (q s : ascii) (cell : jsstring) :
  quoteString [q] [s] cell
  = (if existsb (Ascii.eqb LF) cell || existsb (Ascii.eqb q) cell
        || existsb (Ascii.eqb s) cell
     then [q] ++ quotedContentOf q cell ++ [q]
     else cell).
Proof.
  unfold quoteString. rewrite !includes_char.
  change ([q] ++ [q]) with [q; q]. rewrite replaceAll_char.
  reflexivity.
Qed.

(** The text of a table of one cell, when nothing is trimmed, is what
    [toCSVLine] and [quoteString] make of the cell. *)
Lemma stringify_one_cell (qv sv : JSValue) (cell : jsstring) :
  stringify (RowMajor [0]) (untrimmed qv sv) [[cell]]
  = Ok (toCSVLine (stringify_quote qv) (stringify_separator sv) 1 [cell],
        [[cell]]).
Proof.
  unfold stringify, untrimmed.
  cbn [StringifyOptions.quote StringifyOptions.separator
       StringifyOptions.lineEnd StringifyOptions.trimEmpty
       StringifyOptions.lineEndBeforeEOF
       allRowsOf bind mapM getLength deref nth_error mathMax fold_left
       length map join].
  rewrite app_nil_r. reflexivity.
Qed.

(** C7 (the code at the failing input): with the dollar sign as quote,
    [stringify] writes the cell a$b wrapped in the quote but with the quote
    inside it left single, where the specification has it doubled; the cell
    a$$b is written as it stands between two quotes and [parse] reads it
    back as a$b.  For every configuration [stringify] works with one quote
    character and one separator character, the text of a one-cell table is
    what [toCSVLine] and [quoteString] make of the cell, and [quoteString]
    wraps the cell exactly when it contains a line feed, the quote or the
    separator and returns any other cell as it is; the quotes inside a
    wrapped cell are doubled for every quote but the dollar sign. *)
Theorem stringify_dollar_quote_not_doubled :
  stringify (RowMajor [0]) dollarQuote [[str "a$b"]]
  = Ok (str "$a$b$", [[str "a$b"]])
  /\ str "$a$b$" <> ["$"%char] ++ doubled "$" (str "a$b") ++ ["$"%char]
  /\ stringify (RowMajor [0]) dollarQuote [[str "a$$b"]]
     = Ok (str "$a$$b$", [[str "a$$b"]])
  /\ parse (str "$a$$b$") dollarQuote_parse
     = Ok (Table.mk [str "a$b"] [] [])
  /\ forall (qv sv : JSValue) (cell : jsstring),
       exists q s,
         stringify_quote qv = [q] /\ stringify_separator sv = [s]
         /\ stringify (RowMajor [0]) (untrimmed qv sv) [[cell]]
            = Ok (toCSVLine [q] [s] 1 [cell], [[cell]])
         /\ toCSVLine [q] [s] 1 [cell] = quoteString [q] [s] cell
         /\ quoteString [q] [s] cell
            = (if existsb (Ascii.eqb LF) cell || existsb (Ascii.eqb q) cell
                  || existsb (Ascii.eqb s) cell
               then [q] ++ (if Ascii.eqb q "$" then cell else doubled q cell)
                        ++ [q]
               else cell)
         /\ (quoteString [q] [s] cell
             = [q] ++ (if Ascii.eqb q "$" then cell else doubled q cell)
                   ++ [q]
             <-> In LF cell \/ In q cell \/ In s cell).
Proof.
  split; [vm_compute; reflexivity|].
  split; [discriminate|].
  split; [vm_compute; reflexivity|].
  split; [vm_compute; reflexivity|].
  intros qv sv cell.
  destruct (hd_validated_single DQUOTE (orDefault (JString [DQUOTE]) qv))
    as (q & Hq).
  destruct (hd_validated_single ","%char (orDefault (JString (str ",")) sv))
    as (s & Hs).
  change (stringify_quote qv = [q]) in Hq.
  change (stringify_separator sv = [s]) in Hs.
  exists q, s. split; [exact Hq|]. split; [exact Hs|].
  split; [rewrite stringify_one_cell, Hq, Hs; reflexivity|].
  split; [reflexivity|].
  fold (quotedContentOf q cell).
  pose proof (quoteString_char q s cell) as E.
  split; [exact E|].
  rewrite E.
  destruct (existsb (Ascii.eqb LF) cell || existsb (Ascii.eqb q) cell
            || existsb (Ascii.eqb s) cell) eqn:B.
  - split; [intros _|reflexivity].
    rewrite !orb_true_iff, !existsb_eqb_In in B. tauto.
  - split.
    + intros H. apply (f_equal (@length ascii)) in H.
      pose proof (quotedContentOf_length q cell) as L.
      simpl in H. rewrite length_app in H. simpl in H. lia.
    + intros H. rewrite <- !existsb_eqb_In, <- !orb_true_iff in H.
      rewrite orb_assoc in H. congruence.
Qed.

(** ** Mapped rows *)

Lemma own_get_own_set (o : JSObject) (k key v : jsstring) :
  own_get (own_set o k v) key
  = if str_eqb k key then Some v else own_get o key.
Proof.
  induction o as [|[k0 v0] o IH]; simpl.
  - reflexivity.
  - destruct (str_eqb k0 k) eqn:E0; simpl.
    + apply str_eqb_eq in E0; subst k0.
      destruct (str_eqb k key); reflexivity.
    + rewrite IH. destruct (str_eqb k0 key) eqn:E1; [|reflexivity].
      apply str_eqb_eq in E1; subst k0.
      destruct (str_eqb k key) eqn:E2; [|reflexivity].
      apply str_eqb_eq in E2; subst k.
      rewrite str_eqb_refl in E0; discriminate E0.
Qed.

Lemma own_get_prop_set (o : JSObject) (k key v : jsstring) :
  own_get (prop_set o k v) key
  = if str_eqb k key && negb (str_eqb k (str "__proto__"))
    then Some v else own_get o key.
Proof.
  unfold prop_set. destruct (str_eqb k (str "__proto__")); simpl.
  - rewrite andb_false_r; reflexivity.
  - rewrite andb_true_r; apply own_get_own_set.
Qed.

(** Cells whose key is not [key] leave the entry of [key] alone. *)
Lemma toHashMap_from_other (header : list jsstring) (key : jsstring)
    (row : list jsstring) :
  forall (hashMap : JSObject) (index : nat),
    (forall j, j < length row -> header_key header (index + j) <> key) ->
    own_get (toHashMap_from header hashMap index row) key
    = own_get hashMap key.
Proof.
  induction row as [|cell row IH]; intros hashMap index H; simpl.
  - reflexivity.
  - rewrite IH.
    + rewrite own_get_prop_set.
      rewrite str_eqb_neq; [reflexivity|].
      specialize (H 0). rewrite Nat.add_0_r in H. apply H. simpl; lia.
    + intros j Hj. replace (S index + j) with (index + S j) by lia.
      apply H. simpl; lia.
Qed.

(** The last cell stored under [key] is the one that is read back. *)
Lemma toHashMap_from_last (header : list jsstring) (key cell : jsstring)
    (row : list jsstring) :
  forall (hashMap : JSObject) (index j : nat),
    nth_error row j = Some cell ->
    header_key header (index + j) = key ->
    key <> str "__proto__" ->
    (forall j', j < j' -> j' < length row ->
                header_key header (index + j') <> key) ->
    own_get (toHashMap_from header hashMap index row) key = Some cell.
Proof.
  induction row as [|c row IH]; intros hashMap index j Hj Hk Hp Hlater.
  - destruct j; discriminate Hj.
  - destruct j as [|j]; simpl.
    + simpl in Hj. injection Hj as ->.
      rewrite toHashMap_from_other.
      * rewrite own_get_prop_set. rewrite Nat.add_0_r in Hk. rewrite Hk.
        rewrite str_eqb_refl, (str_eqb_neq _ _ Hp). reflexivity.
      * intros j' Hj'. replace (S index + j') with (index + S j') by lia.
        apply Hlater; simpl; lia.
    + apply (IH _ _ j).
      * exact Hj.
      * replace (S index + j) with (index + S j) by lia. exact Hk.
      * exact Hp.
      * intros j' H1 H2. replace (S index + j') with (index + S j') by lia.
        apply Hlater; simpl; lia.
Qed.

Lemma header_key_inside (header : list jsstring) (i : nat) (key : jsstring) :
  nth_error header i = Some key -> header_key header i = key.
Proof. unfold header_key; intros ->; reflexivity. Qed.

Lemma header_key_cases (header : list jsstring) (i : nat) :
  (i < length header /\ nth_error header i = Some (header_key header i))
  \/ (length header <= i /\ header_key header i = str "undefined").
Proof.
  unfold header_key. destruct (nth_error header i) as [k|] eqn:E.
  - left. split; [|reflexivity]. apply nth_error_Some. congruence.
  - right. split; [|reflexivity]. apply nth_error_None. exact E.
Qed.

Lemma parse_mappedRows (csv : jsstring) (o : ParseOptions.t) (t : Table.t) :
  parse csv o = Ok t ->
  Table.mappedRows t = map (toHashMap (Table.header t)) (Table.rows t).
Proof.
  unfold parse. destruct (tokenize csv o) as [array|f]; simpl; [|discriminate].
  destruct (map _ array) as [|header rows]; [discriminate|].
  intros [= <-]. reflexivity.
Qed.

(** C4 (as amended): the mapped rows of [parse] are the body rows mapped
    against the header.  A mapped row sends the header entry at a position
    inside both the header and the row to the row's cell at that position,
    the last of several positions with the same entry winning.  A name that
    is no header entry at any position inside the row has no entry in the
    mapping; this holds for a header entry beyond the row's length, which
    is not mapped to the empty string.  Cells beyond the header's length
    stay in the plain row.  The statement leaves out the name __proto__ and,
    for a row longer than the header, the name undefined. *)
Theorem mappedRows_follow_header (header row : list jsstring) :
  (forall csv o t, parse csv o = Ok t ->
      Table.mappedRows t = map (toHashMap (Table.header t)) (Table.rows t))
  /\ (forall i key cell,
        nth_error header i = Some key ->
        nth_error row i = Some cell ->
        (forall j, i < j -> j < length row -> nth_error header j <> Some key) ->
        key <> str "__proto__" ->
        key <> str "undefined" \/ length row <= length header ->
        own_get (toHashMap header row) key = Some cell)
  /\ (forall key,
        (forall j, j < length row -> nth_error header j <> Some key) ->
        key <> str "undefined" \/ length row <= length header ->
        own_get (toHashMap header row) key = None).
Proof.
  split; [exact parse_mappedRows|]. split.
  - intros i key cell Hh Hr Hlater Hp Hu.
    unfold toHashMap. apply (toHashMap_from_last header key cell row [] 0 i).
    + exact Hr.
    + apply header_key_inside; exact Hh.
    + exact Hp.
    + intros j' H1 H2 Hk. simpl in Hk.
      destruct (header_key_cases header j') as [[_ E]|[Hlen E]].
      * rewrite Hk in E. exact (Hlater j' H1 H2 E).
      * destruct Hu as [Hu|Hu]; [|lia]. congruence.
  - intros key Hnone Hu.
    unfold toHashMap. rewrite toHashMap_from_other; [reflexivity|].
    intros j Hj Hk. simpl in Hk.
    destruct (header_key_cases header j) as [[_ E]|[Hlen E]].
    + rewrite Hk in E. exact (Hnone j Hj E).
    + destruct Hu as [Hu|Hu]; [|lia]. congruence.
Qed.

Lemma mappedRows_follow_header_witness :
  own_get (toHashMap [str "a"; str "b"; str "c"] [str "x"; str "y"]) (str "b")
  = Some (str "y")
  /\ own_get (toHashMap [str "a"; str "b"; str "c"] [str "x"; str "y"])
       (str "c")
     = None.
Proof.
  destruct (mappedRows_follow_header
              [str "a"; str "b"; str "c"] [str "x"; str "y"])
    as (_ & Hin & Hout).
  split.
  - apply (Hin 1 (str "b") (str "y")).
    + reflexivity.
    + reflexivity.
    + intros j H1 H2. simpl in H2. lia.
    + discriminate.
    + left; discriminate.
  - apply Hout.
    + intros [|[|j]] Hj; simpl in Hj; try lia; discriminate.
    + left; discriminate.
Defined.

(** A header entry beyond the row's length is not mapped to the empty
    string: it is not mapped at all. *)
Lemma short_row_leaves_header_unmapped :
  parse (str "a,b" ++ [LF] ++ str "x") ParseOptions.default
  = Ok (Table.mk [str "a"; str "b"] [[str "x"]] [[(str "a", str "x")]])
  /\ own_get (toHashMap [str "a"; str "b"] [str "x"]) (str "b") <> Some [].
Proof. split; [vm_compute; reflexivity | vm_compute; discriminate]. Qed.

(** A cell beyond the header's length is stored under the name
    undefined. *)
Lemma long_row_maps_undefined :
  toHashMap [str "a"] [str "x"; str "y"]
  = [(str "a", str "x"); (str "undefined", str "y")].
Proof. vm_compute; reflexivity. Qed.

(** ** The aggregator's table *)

Lemma update_last_app {A : Type} (f : A -> Result A) (l : list A) (x : A) :
  update_last f (l ++ [x]) = (y <- f x ;; Ok (l ++ [y])).
Proof.
  induction l as [|a l IH].
  - reflexivity.
  - change ((a :: l) ++ [x]) with (a :: (l ++ [x])).
    destruct (l ++ [x]) as [|b m] eqn:E.
    + destruct l; discriminate E.
    + change (update_last f (a :: b :: m))
        with (rest' <- update_last f (b :: m) ;; Ok (a :: rest')).
      rewrite IH. destruct (f x); reflexivity.
Qed.

Lemma well_formed_snoc (rows : list (list jsstring)) (cells : list jsstring)
    (cur : jsstring) :
  Forall (fun row => row <> []) rows ->
  well_formed (rows ++ [cells ++ [cur]]).
Proof.
  intros H; split.
  - intros E; destruct rows; discriminate E.
  - apply Forall_app; split; [exact H|].
    constructor; [|constructor].
    intros E; destruct cells; discriminate E.
Qed.

Lemma well_formed_split (array : list (list jsstring)) :
  well_formed array ->
  exists rows cells cur,
    array = rows ++ [cells ++ [cur]] /\ Forall (fun row => row <> []) rows.
Proof.
  intros [Hne Hall].
  destruct (exists_last Hne) as (rows & lastLine & ->).
  apply Forall_app in Hall. destruct Hall as [Hrows Hlast].
  inversion Hlast as [|? ? Hl _]; subst.
  destruct (exists_last Hl) as (cells & cur & ->).
  exists rows, cells, cur. split; [reflexivity | exact Hrows].
Qed.

Lemma consume_well_formed (a : Agg.t) (character : jsstring) :
  well_formed (Agg.array a) ->
  exists array,
    consume a character = Ok (Agg.set_array a array) /\ well_formed array.
Proof.
  intros H. destruct (well_formed_split _ H) as (rows & cells & cur & E & Hr).
  exists (rows ++ [cells ++ [cur ++ character]]). split.
  - unfold consume. rewrite E, update_last_app, update_last_app. reflexivity.
  - apply well_formed_snoc; exact Hr.
Qed.

Lemma removelast_snoc {A : Type} (l : list A) (x : A) :
  removelast (l ++ [x]) = l.
Proof.
  rewrite removelast_app by discriminate. simpl. apply app_nil_r.
Qed.

Lemma discardCell_well_formed (a : Agg.t) :
  well_formed (Agg.array a) ->
  exists array,
    discardCell a
    = Ok (Agg.set_lineTaint
            (Agg.set_parserState (Agg.set_array a array) State.finished)
            Taint.none)
    /\ well_formed array
    /\ (forall rows cell, Agg.array a = rows ++ [[cell]] ->
                          array = Agg.array a).
Proof.
  intros H. destruct (well_formed_split _ H) as (rows & cells & cur & E & Hr).
  unfold discardCell. rewrite E, update_last_app. simpl.
  destruct cells as [|c cells].
  - exists (rows ++ [[cur]]). simpl. split; [reflexivity|]. split.
    + apply (well_formed_snoc rows [] cur Hr).
    + intros; reflexivity.
  - exists (rows ++ [c :: cells]).
    assert (L : (1 <? length ((c :: cells) ++ [cur])) = true).
    { apply Nat.ltb_lt. rewrite length_app. simpl. lia. }
    rewrite L, removelast_snoc. split; [reflexivity|]. split.
    + destruct (@exists_last _ (c :: cells)) as (cells' & cur' & E');
        [discriminate|].
      rewrite E'. apply well_formed_snoc; exact Hr.
    + intros rows' cell E'. apply app_inj_tail in E'.
      destruct E' as [_ E']. destruct cells; discriminate E'.
Qed.

Lemma endCell_well_formed (a : Agg.t) (characterClasses : list Cls.t) :
  well_formed (Agg.array a) ->
  exists a',
    endCell a characterClasses = Ok a'
    /\ well_formed (Agg.array a')
    /\ Agg.parserState a' = State.empty.
Proof.
  intros H. destruct (well_formed_split _ H) as (rows & cells & cur & E & Hr).
  unfold endCell.
  destruct (Cls.includes characterClasses Cls.separator).
  - rewrite E, update_last_app. simpl. eexists. split; [reflexivity|].
    split; [|reflexivity]. simpl.
    apply (well_formed_snoc rows (cells ++ [cur]) [] Hr).
  - destruct (Cls.includes characterClasses Cls.linefeed); simpl.
    + eexists. split; [reflexivity|]. split; [|reflexivity]. simpl.
      apply (well_formed_snoc (Agg.array a) [] []). apply H.
    + eexists. split; [reflexivity|]. split; [exact H | reflexivity].
Qed.

(** Every character gets at least one class, and its classes reduce to a
    reduced class. *)
Lemma classify_reduces (character : ascii) (quote : jsstring)
    (separators : list jsstring) :
  classifyCharacter character quote separators <> []
  /\ exists r,
       reduceClass (classifyCharacter character quote separators) = Ok r.
Proof.
  unfold classifyCharacter.
  destruct (Ascii.eqb character LF);
    [split; [discriminate | eexists; reflexivity]|].
  destruct (str_eqb [character] quote),
           (existsb (str_eqb [character]) separators),
           (Ascii.eqb character SP);
    (split; [discriminate | eexists; reflexivity]).
Qed.

Lemma transition_defined (s : State.t) (r : Cls.t) :
  table_state s = true -> exists s', transition s r = Ok s'.
Proof.
  intros H; destruct s; try discriminate H; destruct r;
    eexists; reflexivity.
Qed.

Lemma lineTaintActivation_array (a : Agg.t) (r : Cls.t) :
  Agg.array (lineTaintActivation a r) = Agg.array a.
Proof. destruct r; reflexivity. Qed.

Lemma taintAdjust_well_formed (a : Agg.t) (r : Cls.t) (s : State.t) :
  well_formed (Agg.array a) ->
  exists a' s',
    taintAdjust a r s = Ok (a', s') /\ well_formed (Agg.array a').
Proof.
  intros H. unfold taintAdjust.
  set (a1 := taintUpdate a r s).
  assert (H1 : well_formed (Agg.array a1)).
  { subst a1. unfold taintUpdate.
    repeat match goal with
           | |- context [if ?b then _ else _] => destruct b
           end;
      rewrite ?lineTaintActivation_array; exact H. }
  clearbody a1.
  destruct (_ && _ && _).
  - destruct (consume_well_formed a1 (Agg.quote a1) H1) as (array & E & Hw).
    rewrite E. simpl. eexists _, _. split; [reflexivity|]. exact Hw.
  - eexists _, _. split; [reflexivity|]. exact H1.
Qed.

Lemma tokenizeCells_well_formed (a : Agg.t) (character : ascii)
    (index len : nat) :
  well_formed (Agg.array a) ->
  table_state (Agg.parserState a) = true ->
  exists a',
    tokenizeCells a character index len = Ok a'
    /\ well_formed (Agg.array a')
    /\ ((index =? len - 1) = false ->
        table_state (Agg.parserState a') = true).
Proof.
  intros Hw Hs. unfold tokenizeCells. cbv zeta.
  destruct (classify_reduces character (Agg.quote a) (Agg.separators a))
    as (_ & r & ->). cbn [bind].
  destruct (transition_defined _ r Hs) as (s1 & ->). cbn [bind].
  assert (Hadj : exists a2 s2,
             (if Agg.taintQuoteSeparatorLines a
              then taintAdjust a r s1 else Ok (a, s1)) = Ok (a2, s2)
             /\ well_formed (Agg.array a2)).
  { destruct (Agg.taintQuoteSeparatorLines a).
    - apply taintAdjust_well_formed; exact Hw.
    - exists a, s1. split; [reflexivity | exact Hw]. }
  destruct Hadj as (a2 & s2 & -> & Hw2). simpl.
  assert (Hdis : exists a3,
             (if State.eqb s2 State.discarded
              then discardCell (Agg.set_parserState a2 s2)
              else Ok (Agg.set_parserState a2 s2)) = Ok a3
             /\ well_formed (Agg.array a3)
             /\ Agg.parserState a3 <> State.discarded
             /\ Agg.ignoreLinefeedBeforeEOF a3
                = Agg.ignoreLinefeedBeforeEOF a2).
  { destruct (State.eqb s2 State.discarded) eqn:Ed.
    - destruct (discardCell_well_formed (Agg.set_parserState a2 s2) Hw2)
        as (array & E & Hwa & _).
      rewrite E. eexists. split; [reflexivity|]. split; [exact Hwa|].
      split; [discriminate | reflexivity].
    - eexists. split; [reflexivity|]. split; [exact Hw2|].
      split; [|reflexivity].
      simpl. intros ->. discriminate Ed. }
  destruct Hdis as (a3 & -> & Hw3 & Hnd & _). simpl.
  destruct (index =? len - 1); simpl.
  - destruct (State.eqb (Agg.parserState a3) State.open).
    + assert (Hc : exists a4,
                 (if negb (Agg.ignoreLinefeedBeforeEOF a3)
                  then consume a3 [character] else Ok a3) = Ok a4
                 /\ well_formed (Agg.array a4)).
      { destruct (negb (Agg.ignoreLinefeedBeforeEOF a3)).
        - destruct (consume_well_formed a3 [character] Hw3)
            as (array & E & Hwa).
          rewrite E. eexists; split; [reflexivity | exact Hwa].
        - exists a3; split; [reflexivity | exact Hw3]. }
      destruct Hc as (a4 & -> & Hw4). simpl.
      destruct (consume_well_formed a4 (Agg.quote a4) Hw4)
        as (array & E & Hwa).
      rewrite E. eexists. split; [reflexivity|].
      split; [exact Hwa | discriminate].
    + exists a3. split; [reflexivity|]. split; [exact Hw3 | discriminate].
  - destruct (State.eqb (Agg.parserState a3) State.finished) eqn:Ef.
    + destruct (endCell_well_formed a3
                  (classifyCharacter character (Agg.quote a)
                     (Agg.separators a)) Hw3)
        as (a4 & E & Hw4 & Hs4).
      rewrite E. exists a4. split; [reflexivity|]. split; [exact Hw4|].
      intros _. rewrite Hs4. reflexivity.
    + destruct (consume_well_formed a3 [character] Hw3) as (array & E & Hwa).
      rewrite E. eexists. split; [reflexivity|]. split; [exact Hwa|].
      intros _. simpl.
      destruct (Agg.parserState a3); try reflexivity;
        [discriminate Ef | contradiction Hnd; reflexivity].
Qed.

Lemma reduce_from_app (a : Agg.t) (index len : nat)
    (before after : list ascii) :
  reduce_from a index len (before ++ after)
  = (a' <- reduce_from a index len before ;;
     reduce_from a' (index + length before) len after).
Proof.
  revert a index; induction before as [|c before IH]; intros a index; simpl.
  - rewrite Nat.add_0_r; reflexivity.
  - destruct (tokenizeCells a c index len) as [a1|f]; simpl; [|reflexivity].
    rewrite IH. replace (S index + length before)
      with (index + S (length before)) by lia. reflexivity.
Qed.

Lemma reduce_from_well_formed (chars : list ascii) :
  forall (a : Agg.t) (index len : nat),
    well_formed (Agg.array a) ->
    table_state (Agg.parserState a) = true ->
    index + length chars <= len ->
    exists a', reduce_from a index len chars = Ok a'
               /\ well_formed (Agg.array a').
Proof.
  induction chars as [|c chars IH]; intros a index len Hw Hs Hlen; simpl.
  - exists a; split; [reflexivity | exact Hw].
  - destruct (tokenizeCells_well_formed a c index len Hw Hs)
      as (a1 & -> & Hw1 & Hs1). simpl.
    destruct chars as [|d chars].
    + exists a1; split; [reflexivity | exact Hw1].
    + apply IH; [exact Hw1 | | simpl in *; lia].
      apply Hs1. apply Nat.eqb_neq. simpl in Hlen. lia.
Qed.

Lemma initialAggregator_well_formed (o : ParseOptions.t) :
  well_formed (Agg.array (initialAggregator o))
  /\ table_state (Agg.parserState (initialAggregator o)) = true.
Proof.
  split; [|reflexivity]. simpl. split; [discriminate|].
  constructor; [discriminate | constructor].
Qed.

(** C10: the table of the initial aggregator is well formed, and so is
    the table after any number of characters of any input: the reduction
    over the characters read so far succeeds, with a last row that has a
    last cell.  [discardCell] keeps the table well formed and leaves a row
    of one cell as it is. *)
Theorem aggregator_table_well_formed (o : ParseOptions.t)
    (before after : list ascii) :
  well_formed (Agg.array (initialAggregator o))
  /\ (exists a,
        reduce_from (initialAggregator o) 0 (length (before ++ after)) before
        = Ok a
        /\ well_formed (Agg.array a)
        /\ reduce (before ++ after) (initialAggregator o)
           = reduce_from a (length before) (length (before ++ after)) after)
  /\ (forall a, well_formed (Agg.array a) ->
        exists a', discardCell a = Ok a'
                   /\ well_formed (Agg.array a')
                   /\ (forall rows cell,
                          Agg.array a = rows ++ [[cell]] ->
                          Agg.array a' = Agg.array a)).
Proof.
  destruct (initialAggregator_well_formed o) as [Hw Hs].
  split; [exact Hw|]. split.
  - destruct (reduce_from_well_formed before (initialAggregator o) 0
                (length (before ++ after)) Hw Hs) as (a & E & Hwa).
    { rewrite length_app; simpl; lia. }
    exists a. split; [exact E|]. split; [exact Hwa|].
    unfold reduce. rewrite reduce_from_app, E. reflexivity.
  - intros a Ha.
    destruct (discardCell_well_formed a Ha) as (array & E & Hwa & Hsole).
    eexists. split; [exact E|]. split; [exact Hwa|]. exact Hsole.
Qed.

Lemma aggregator_table_well_formed_witness :
  well_formed (Agg.array (initialAggregator ParseOptions.default))
  /\ (exists a,
        reduce_from (initialAggregator ParseOptions.default) 0
          (length (str "a," ++ [LF])) (str "a,")
        = Ok a
        /\ well_formed (Agg.array a))
  /\ (exists a',
        discardCell (initialAggregator ParseOptions.default) = Ok a'
        /\ Agg.array a' = [[[]]]).
Proof.
  destruct (aggregator_table_well_formed ParseOptions.default
              (str "a,") [LF]) as (H0 & (a & E & Hw & _) & Hd).
  split; [exact H0|]. split.
  - exists a. split; [exact E | exact Hw].
  - destruct (Hd (initialAggregator ParseOptions.default) H0)
      as (a' & E' & _ & Hsole).
    exists a'. split; [exact E'|]. apply (Hsole [] []). reflexivity.
Defined.

(** ** parse returns *)

Lemma tokenize_well_formed (csv : jsstring) (o : ParseOptions.t) :
  exists array, tokenize csv o = Ok array /\ well_formed array.
Proof.
  unfold tokenize, reduce.
  destruct (initialAggregator_well_formed o) as [Hw Hs].
  destruct (reduce_from_well_formed
              (preprocess (ParseOptions.forceLineFeedAfterCarriageReturn o)
                 (ParseOptions.ignoreLinefeedBeforeEOF o) csv)
              (initialAggregator o) 0
              (length (preprocess
                         (ParseOptions.forceLineFeedAfterCarriageReturn o)
                         (ParseOptions.ignoreLinefeedBeforeEOF o) csv))
              Hw Hs) as (a & -> & Hwa).
  { simpl; lia. }
  exists (Agg.array a). split; [reflexivity | exact Hwa].
Qed.

Lemma parse_total (csv : jsstring) (o : ParseOptions.t) :
  exists t, parse csv o = Ok t.
Proof.
  unfold parse. destruct (tokenize_well_formed csv o) as (array & -> & Hw).
  simpl. destruct array as [|header rows].
  - destruct Hw as [Hne _]. contradiction Hne; reflexivity.
  - simpl. eexists; reflexivity.
Qed.

(** C6: for every input text and every configuration [parse] returns a
    table, with no fault on the way: every character has a non-empty set
    of classes, this set reduces to a reduced class, every one of the six
    table states has a successor under every reduced class, and the rows
    and cells that the tokenizer reaches for exist. *)
Theorem parse_returns_a_table (csv : jsstring) (o : ParseOptions.t) :
  (exists t, parse csv o = Ok t)
  /\ (exists array, tokenize csv o = Ok array /\ well_formed array)
  /\ (forall character quote separators,
        classifyCharacter character quote separators <> []
        /\ exists r,
             reduceClass (classifyCharacter character quote separators)
             = Ok r)
  /\ (forall s r, table_state s = true -> exists s', transition s r = Ok s').
Proof.
  split; [apply parse_total|].
  split; [apply tokenize_well_formed|].
  split; [apply classify_reduces | apply transition_defined].
Qed.

Lemma parse_returns_a_table_witness :
  (exists t, parse scenarioD_input (scenarioD_options true) = Ok t)
  /\ (exists s', transition State.open Cls.quote = Ok s').
Proof.
  destruct (parse_returns_a_table scenarioD_input (scenarioD_options true))
    as (Ht & _ & _ & Hs).
  split; [exact Ht|]. apply Hs. reflexivity.
Defined.

(** ** Validation of the quote and separator options *)










(** ** Round trip *)

(** *** stringify on a rectangular table of plain cells *)

Lemma nth_error_middle {A : Type} (pre : list A) (x : A) (post : list A) :
  nth_error (pre ++ x :: post) (length pre) = Some x.
Proof. induction pre as [|a pre IH]; simpl; [reflexivity | exact IH]. Qed.

Lemma mapM_deref_seq (pre T : heap) :
  mapM (deref (pre ++ T)) (seq (length pre) (length T)) = Ok T.
Proof.
  revert pre; induction T as [|row T IH]; intros pre; simpl.
  - reflexivity.
  - unfold deref at 1. rewrite nth_error_middle. simpl.
    replace (pre ++ row :: T) with ((pre ++ [row]) ++ T)
      by (rewrite <- app_assoc; reflexivity).
    replace (S (length pre)) with (length (pre ++ [row]))
      by (rewrite length_app; simpl; lia).
    rewrite IH. reflexivity.
Qed.

Lemma mapM_getLength_seq (pre T : heap) :
  mapM (getLength (pre ++ T)) (seq (length pre) (length T))
  = Ok (map (fun row => Z.of_nat (length row)) T).
Proof.
  revert pre; induction T as [|row T IH]; intros pre; simpl.
  - reflexivity.
  - unfold getLength at 1, deref. rewrite nth_error_middle. simpl.
    replace (pre ++ row :: T) with ((pre ++ [row]) ++ T)
      by (rewrite <- app_assoc; reflexivity).
    replace (S (length pre)) with (length (pre ++ [row]))
      by (rewrite length_app; simpl; lia).
    rewrite IH. reflexivity.
Qed.

Lemma fold_left_max_const (m : Z) (l : list Z) :
  Forall (fun x => x = m) l -> fold_left Z.max l m = m.
Proof.
  induction 1 as [|x l -> _ IH]; simpl; [reflexivity|].
  rewrite Z.max_id. exact IH.
Qed.

Lemma nth_error_last {A : Type} (row : list A) (n : nat) (d : A) :
  length row = S n -> nth_error row n = Some (last row d).
Proof.
  revert n; induction row as [|x row IH]; intros n H; [discriminate H|].
  destruct row as [|y row].
  - simpl in H. injection H as <-. reflexivity.
  - destruct n as [|n]; [discriminate H|].
    change (nth_error (y :: row) n = Some (last (y :: row) d)).
    apply IH. simpl in *; lia.
Qed.

Lemma isEmptyRow_last (row : list jsstring) (n : nat) :
  length row = S n -> last row [] <> [] -> isEmptyRow row = false.
Proof.
  intros Hl Hne. destruct (isEmptyRow row) eqn:E; [|reflexivity].
  unfold isEmptyRow in E. rewrite forallb_forall in E.
  pose proof (nth_error_last row n [] Hl) as Hn.
  apply nth_error_In in Hn. apply E in Hn. apply Nat.eqb_eq in Hn.
  destruct (last row []); [contradiction Hne; reflexivity | discriminate Hn].
Qed.

Lemma emptyAt_last (row : list jsstring) (n : nat) :
  length row = S n -> last row [] <> [] ->
  emptyAt row (Z.of_nat (S n) - 1) = false.
Proof.
  intros Hl Hne. unfold emptyAt.
  replace (Z.of_nat (S n) - 1)%Z with (Z.of_nat n) by lia.
  destruct (Z.of_nat n <? 0)%Z eqn:E; [apply Z.ltb_lt in E; lia|].
  rewrite Nat2Z.id, (nth_error_last row n [] Hl).
  destruct (last row []); [contradiction Hne; reflexivity | reflexivity].
Qed.

Lemma map_nth_seq {A : Type} (d : A) (pre row : list A) :
  map (fun index => nth index (pre ++ row) d) (seq (length pre) (length row))
  = row.
Proof.
  revert pre; induction row as [|x row IH]; intros pre; simpl.
  - reflexivity.
  - rewrite app_nth2 by lia. rewrite Nat.sub_diag. simpl. f_equal.
    replace (pre ++ x :: row) with ((pre ++ [x]) ++ row)
      by (rewrite <- app_assoc; reflexivity).
    replace (S (length pre)) with (length (pre ++ [x]))
      by (rewrite length_app; simpl; lia).
    apply IH.
Qed.

Lemma plain_char_spec (c : ascii) :
  plain_char c = true ->
  Ascii.eqb c DQUOTE = false /\ Ascii.eqb c ","%char = false
  /\ Ascii.eqb c LF = false /\ Ascii.eqb c CR = false
  /\ Ascii.eqb c NUL = false.
Proof.
  unfold plain_char. rewrite !andb_true_iff, !negb_true_iff. tauto.
Qed.

Lemma plain_cell_excludes (cell : jsstring) (x : ascii) :
  plain_cell cell = true -> plain_char x = false ->
  existsb (Ascii.eqb x) cell = false.
Proof.
  intros H Hx. induction cell as [|c cell IH]; simpl; [reflexivity|].
  simpl in H. apply andb_true_iff in H. destruct H as [Hc H].
  rewrite (IH H), orb_false_r.
  destruct (Ascii.eqb x c) eqn:E; [|reflexivity].
  apply Ascii.eqb_eq in E. congruence.
Qed.

Lemma quoteString_plain (cell : jsstring) :
  plain_cell cell = true -> quoteString [DQUOTE] (str ",") cell = cell.
Proof.
  intros H. unfold quoteString. change (str ",") with [","%char].
  rewrite !includes_char.
  rewrite !(plain_cell_excludes cell _ H) by reflexivity. reflexivity.
Qed.

Lemma toCSVLine_plain (row : list jsstring) (n : nat) :
  length row = S n -> forallb plain_cell row = true ->
  toCSVLine [DQUOTE] (str ",") (Z.of_nat (S n)) row = join (str ",") row.
Proof.
  intros Hl Hp. unfold toCSVLine. f_equal.
  rewrite Nat2Z.id, <- Hl.
  transitivity (map (fun index => nth index row []) (seq 0 (length row))).
  - apply map_ext_in. intros index Hin. apply quoteString_plain.
    rewrite forallb_forall in Hp.
    apply in_seq in Hin. apply Hp, nth_In. lia.
  - exact (map_nth_seq [] [] row).
Qed.

Lemma stringify_plain (n : nat) (T : list (list jsstring)) :
  T <> [] -> plain_rectangular n T ->
  stringify (rowMajor_of T) StringifyOptions.default (heap_of T)
  = Ok (csv_of T, T).
Proof.
  intros Hne HT. unfold plain_rectangular in HT.
  assert (E1 : allRowsOf (RowMajor (seq 0 (length T))) T
               = Ok (seq 0 (length T), T)).
  { destruct T; [contradiction Hne; reflexivity | reflexivity]. }
  pose proof (mapM_getLength_seq [] T) as E2. simpl in E2.
  assert (E3 : mathMax (map (fun row => Z.of_nat (length row)) T)
               = Ok (Z.of_nat (S n))).
  { destruct T as [|r T']; [contradiction Hne; reflexivity|].
    inversion HT as [|? ? (Hr & _) HT']; subst.
    unfold mathMax. cbn [map]. rewrite Hr. f_equal.
    apply fold_left_max_const.
    apply Forall_map. eapply Forall_impl; [|exact HT'].
    intros row (Hl & _). cbv beta. rewrite Hl. reflexivity. }
  assert (E4 : popEmptyRows T (rev (seq 0 (length T)))
               = Ok (rev (seq 0 (length T)))).
  { destruct (exists_last Hne) as (T' & lastLine & ->).
    apply Forall_app in HT. destruct HT as [_ HT].
    inversion HT as [|? ? (Hl & _ & Hlast) _]; subst.
    rewrite length_app. simpl length. rewrite Nat.add_1_r, seq_S.
    rewrite rev_app_distr. simpl.
    unfold deref. rewrite nth_error_middle. simpl.
    rewrite (isEmptyRow_last lastLine n Hl Hlast). reflexivity. }
  assert (E5 : trimColumns (S (S n)) (seq 0 (length T)) T
               = Ok (Z.of_nat (S n), T)).
  { destruct T as [|r T']; [contradiction Hne; reflexivity|].
    inversion HT as [|? ? (Hl & _ & Hlast) _]; subst.
    cbn [trimColumns length seq everyEmptyAt]. unfold deref. cbn [nth_error bind].
    rewrite (emptyAt_last r n Hl Hlast). reflexivity. }
  pose proof (mapM_deref_seq [] T) as E6. simpl in E6.
  assert (E7 : map (toCSVLine [DQUOTE] (str ",") (Z.of_nat (S n))) T
               = map (join (str ",")) T).
  { apply map_ext_in. intros row Hin.
    rewrite Forall_forall in HT. destruct (HT row Hin) as (Hl & Hp & _).
    apply toCSVLine_plain; assumption. }
  unfold stringify, rowMajor_of, heap_of.
  rewrite E1. cbn [bind]. rewrite E2. cbn [bind]. rewrite E3. cbn [bind].
  cbn [StringifyOptions.trimEmpty StringifyOptions.default].
  rewrite E4. cbn [bind]. rewrite rev_involutive.
  replace (Z.to_nat (Z.of_nat (S n) + 1)) with (S (S n)) by lia.
  rewrite E5. cbn [bind]. rewrite E6. cbn [bind].
  change (stringify_quote (StringifyOptions.quote StringifyOptions.default))
    with [DQUOTE].
  change (stringify_separator
            (StringifyOptions.separator StringifyOptions.default))
    with (str ",").
  change (stringify_lineEnd
            (StringifyOptions.lineEnd StringifyOptions.default))
    with [LF].
  rewrite E7. cbn [StringifyOptions.lineEndBeforeEOF StringifyOptions.default].
  rewrite app_nil_r. reflexivity.
Qed.

(** *** The tokenizer on plain text *)

Lemma tokenizeCells_index (a : Agg.t) (character : ascii)
    (index len index' len' : nat) :
  (index =? len - 1) = (index' =? len' - 1) ->
  tokenizeCells a character index len = tokenizeCells a character index' len'.
Proof. intros H. unfold tokenizeCells. rewrite H. reflexivity. Qed.

Lemma reduce_from_feed (chars : list ascii) :
  forall (a : Agg.t) (index len : nat) (final : ascii),
    index + length chars + 1 = len ->
    reduce_from a index len (chars ++ [final])
    = (a' <- feed a chars ;; tok true a' final).
Proof.
  induction chars as [|c chars IH]; intros a index len final Hlen;
    simpl in *.
  - unfold tok.
    rewrite (tokenizeCells_index a final index len 0 1).
    + destruct (tokenizeCells a final 0 1); reflexivity.
    + simpl. apply Nat.eqb_eq. lia.
  - unfold tok at 1.
    rewrite (tokenizeCells_index a c index len 1 1).
    + destruct (tokenizeCells a c 1 1) as [a1|f]; simpl; [|reflexivity].
      apply IH. lia.
    + simpl. apply Nat.eqb_neq. lia.
Qed.

Lemma feed_app (before after : list ascii) :
  forall a, feed a (before ++ after)
            = (a' <- feed a before ;; feed a' after).
Proof.
  induction before as [|c before IH]; intros a; simpl; [reflexivity|].
  destruct (tok false a c); simpl; [apply IH | reflexivity].
Qed.

Ltac agg_fields :=
  unfold consume, endCell, Agg.set_array, Agg.set_parserState,
    Agg.set_lineTaint;
  cbn [Agg.array Agg.parserState Agg.quote Agg.separators
       Agg.ignoreLinefeedBeforeEOF Agg.taintQuoteSeparatorLines
       Agg.lineTaint].

Lemma tok_plain (rows : list (list jsstring)) (cells : list jsstring)
    (cur : jsstring) (s : State.t) (c : ascii) :
  plain_char c = true -> unquoted_state s = true ->
  exists s',
    tok false (defaultAggregator (rows ++ [cells ++ [cur]]) s) c
    = Ok (defaultAggregator (rows ++ [cells ++ [cur ++ [c]]]) s')
    /\ unquoted_state s' = true /\ s' <> State.empty.
Proof.
  intros Hc Hs.
  destruct (plain_char_spec c Hc) as (Hq & Hsep & Hlf & _ & _).
  unfold tok, tokenizeCells, classifyCharacter, defaultAggregator.
  cbn [Agg.quote Agg.separators Agg.parserState Agg.taintQuoteSeparatorLines
       str_eqb existsb str list_ascii_of_string].
  rewrite Hlf, Hq, Hsep. cbn [andb orb app].
  destruct (Ascii.eqb c SP); destruct s; try discriminate Hs;
    cbn; agg_fields; rewrite !update_last_app; cbn [bind];
    eexists; (split; [reflexivity | split; [reflexivity | discriminate]]).
Qed.

Lemma feed_plain_cell (rows : list (list jsstring)) (cells : list jsstring)
    (w : jsstring) :
  forall (cur : jsstring) (s : State.t),
    plain_cell w = true -> cell_state cur s ->
    exists s',
      feed (defaultAggregator (rows ++ [cells ++ [cur]]) s) w
      = Ok (defaultAggregator (rows ++ [cells ++ [cur ++ w]]) s')
      /\ cell_state (cur ++ w) s'.
Proof.
  induction w as [|c w IH]; intros cur s Hw Hs.
  - exists s. rewrite app_nil_r. split; [reflexivity | exact Hs].
  - simpl in Hw. apply andb_true_iff in Hw. destruct Hw as [Hc Hw].
    destruct Hs as [Hs _].
    destruct (tok_plain rows cells cur s c Hc Hs) as (s1 & E & Hs1 & Hne).
    destruct (IH (cur ++ [c]) s1 Hw) as (s2 & E2 & Hs2).
    { split; [exact Hs1 | intros _; exact Hne]. }
    rewrite <- app_assoc in E2, Hs2. simpl in E2, Hs2.
    exists s2. split; [|exact Hs2].
    change (feed ?a (c :: w)) with (a' <- tok false a c ;; feed a' w).
    rewrite E. exact E2.
Qed.

Lemma tok_comma (rows : list (list jsstring)) (cells : list jsstring)
    (cur : jsstring) (s : State.t) :
  unquoted_state s = true ->
  tok false (defaultAggregator (rows ++ [cells ++ [cur]]) s) ","%char
  = Ok (defaultAggregator (rows ++ [(cells ++ [cur]) ++ [[]]]) State.empty).
Proof.
  intros Hs. destruct s; try discriminate Hs;
    unfold tok, tokenizeCells, defaultAggregator; cbn;
    agg_fields; cbn; rewrite update_last_app; reflexivity.
Qed.

Lemma tok_linefeed (array : list (list jsstring)) (s : State.t) :
  unquoted_state s = true -> s <> State.empty ->
  tok false (defaultAggregator array s) LF
  = Ok (defaultAggregator (array ++ [[[]]]) State.empty)
  /\ tok true (defaultAggregator array s) LF
     = Ok (defaultAggregator array State.finished).
Proof.
  intros Hs Hne. destruct s; try discriminate Hs;
    try (contradiction Hne; reflexivity); split; reflexivity.
Qed.

Lemma feed_row (rows : list (list jsstring)) (cs : list jsstring) :
  forall (c1 : jsstring) (cells : list jsstring),
    forallb plain_cell (c1 :: cs) = true ->
    exists s',
      feed (defaultAggregator (rows ++ [cells ++ [[]]]) State.empty)
        (join (str ",") (c1 :: cs))
      = Ok (defaultAggregator (rows ++ [cells ++ c1 :: cs]) s')
      /\ cell_state (last (c1 :: cs) []) s'.
Proof.
  induction cs as [|c2 cs IH]; intros c1 cells Hp;
    cbn [forallb] in Hp; apply andb_true_iff in Hp; destruct Hp as [H1 Hp].
  - destruct (feed_plain_cell rows cells c1 [] State.empty H1)
      as (s1 & E & Hs1).
    { split; [reflexivity | intros H; contradiction H; reflexivity]. }
    exists s1. split; [exact E | exact Hs1].
  - destruct (feed_plain_cell rows cells c1 [] State.empty H1)
      as (s1 & E & Hs1 & _).
    { split; [reflexivity | intros H; contradiction H; reflexivity]. }
    destruct (IH c2 (cells ++ [c1]) Hp) as (s2 & E2 & Hs2).
    exists s2. split; [|exact Hs2].
    change (join (str ",") (c1 :: c2 :: cs))
      with (c1 ++ ","%char :: join (str ",") (c2 :: cs)).
    rewrite feed_app, E. cbn [bind app].
    change (feed ?a (","%char :: ?w))
      with (a' <- tok false a ","%char ;; feed a' w).
    rewrite (tok_comma rows cells c1 s1 Hs1). cbn [bind].
    rewrite E2. rewrite <- app_assoc. reflexivity.
Qed.

Lemma feed_rows (n : nat) (rs : list (list jsstring)) :
  forall (r1 : list jsstring) (rows : list (list jsstring)),
    plain_rectangular n (r1 :: rs) ->
    exists s',
      feed (defaultAggregator (rows ++ [[[]]]) State.empty)
        (csv_of (r1 :: rs))
      = Ok (defaultAggregator (rows ++ r1 :: rs) s')
      /\ unquoted_state s' = true /\ s' <> State.empty.
Proof.
  induction rs as [|r2 rs IH]; intros r1 rows HT;
    inversion HT as [|? ? (Hl & Hp & Hlast) HT']; subst;
    (destruct r1 as [|c1 cs]; [discriminate Hl|]);
    destruct (feed_row rows cs c1 [] Hp) as (s1 & E & Hs1 & Hne1);
    cbn [app] in E.
  - exists s1. split; [exact E|]. split; [exact Hs1 | exact (Hne1 Hlast)].
  - destruct (IH r2 (rows ++ [c1 :: cs]) HT') as (s2 & E2 & Hs2).
    exists s2. split; [|exact Hs2].
    change (csv_of ((c1 :: cs) :: r2 :: rs))
      with (join (str ",") (c1 :: cs) ++ LF :: csv_of (r2 :: rs)).
    rewrite feed_app, E. cbn [bind].
    change (feed ?a (LF :: ?w)) with (a' <- tok false a LF ;; feed a' w).
    destruct (tok_linefeed (rows ++ [c1 :: cs]) s1 Hs1 (Hne1 Hlast))
      as [-> _].
    cbn [bind]. rewrite E2. rewrite <- app_assoc. reflexivity.
Qed.

(** *** Preprocessing and normalization of plain text *)

Lemma strictLinebreakGroups_id (s : jsstring) :
  forallb (fun c => negb (Ascii.eqb c CR)) s = true ->
  strictLinebreakGroups s = s.
Proof.
  induction s as [|c s IH]; intros H; [reflexivity|].
  cbn [forallb] in H. apply andb_true_iff in H. destruct H as [Hc H].
  cbn [strictLinebreakGroups]. apply negb_true_iff in Hc. rewrite Hc.
  rewrite (IH H). reflexivity.
Qed.

Lemma filter_all {A : Type} (p : A -> bool) (l : list A) :
  forallb p l = true -> filter p l = l.
Proof.
  induction l as [|x l IH]; intros H; [reflexivity|].
  cbn [forallb] in H. apply andb_true_iff in H. destruct H as [Hx H].
  cbn [filter]. rewrite Hx, (IH H). reflexivity.
Qed.

Lemma forallb_join (p : ascii -> bool) (sep : jsstring)
    (cells : list jsstring) :
  forallb p sep = true -> Forall (fun cell => forallb p cell = true) cells ->
  forallb p (join sep cells) = true.
Proof.
  intros Hsep H. induction H as [|cell cells Hc _ IH]; [reflexivity|].
  destruct cells as [|d cells]; [exact Hc|].
  change (join sep (cell :: d :: cells))
    with (cell ++ sep ++ join sep (d :: cells)).
  rewrite !forallb_app, Hc, Hsep, IH. reflexivity.
Qed.

Lemma join_snoc (sep : jsstring) (cells : list jsstring) (x : jsstring) :
  exists pre, join sep (cells ++ [x]) = pre ++ x.
Proof.
  induction cells as [|c cells (pre & IH)].
  - exists []. reflexivity.
  - exists (c ++ sep ++ pre).
    change ((c :: cells) ++ [x]) with (c :: (cells ++ [x])).
    destruct (cells ++ [x]) as [|d m] eqn:E.
    + destruct cells; discriminate E.
    + change (join sep (c :: d :: m)) with (c ++ sep ++ join sep (d :: m)).
      rewrite IH, <- !app_assoc. reflexivity.
Qed.

Lemma plain_char_text (c : ascii) :
  plain_char c = true ->
  negb (Ascii.eqb c CR) = true /\ negb (Ascii.eqb c NUL) = true.
Proof.
  intros H. destruct (plain_char_spec c H) as (_ & _ & _ & -> & ->).
  split; reflexivity.
Qed.

Lemma csv_of_text (n : nat) (T : list (list jsstring)) (p : ascii -> bool) :
  plain_rectangular n T ->
  (forall c, plain_char c = true -> p c = true) ->
  p ","%char = true -> p LF = true ->
  forallb p (csv_of T) = true.
Proof.
  intros HT Hp Hcomma Hlf. unfold csv_of.
  apply forallb_join; [cbn; rewrite Hlf; reflexivity|].
  apply Forall_map. eapply Forall_impl; [|exact HT].
  intros row (_ & Hrow & _). cbv beta.
  apply forallb_join; [cbn; rewrite Hcomma; reflexivity|].
  rewrite forallb_forall in Hrow. apply Forall_forall. intros cell Hin.
  specialize (Hrow cell Hin). unfold plain_cell in Hrow.
  rewrite forallb_forall in Hrow. apply forallb_forall.
  intros c Hc. apply Hp, Hrow, Hc.
Qed.

Lemma csv_of_ends_plain (n : nat) (T : list (list jsstring)) :
  T <> [] -> plain_rectangular n T ->
  exists body c, csv_of T = body ++ [c] /\ plain_char c = true.
Proof.
  intros Hne HT.
  destruct (exists_last Hne) as (T' & row & ->).
  apply Forall_app in HT. destruct HT as [_ HT].
  inversion HT as [|? ? (Hl & Hp & Hlast) _]; subst.
  assert (Hrow : row <> []) by (intros ->; discriminate Hl).
  destruct (exists_last Hrow) as (cells & cell & ->).
  rewrite last_last in Hlast.
  destruct (exists_last Hlast) as (w & c & ->).
  unfold csv_of. rewrite map_app. cbn [map].
  destruct (join_snoc [LF] (map (join (str ",")) T')
              (join (str ",") (cells ++ [w ++ [c]]))) as (pre1 & ->).
  destruct (join_snoc (str ",") cells (w ++ [c])) as (pre2 & ->).
  exists (pre1 ++ pre2 ++ w), c. split.
  - rewrite <- !app_assoc. reflexivity.
  - rewrite forallb_app in Hp. apply andb_true_iff in Hp.
    destruct Hp as [_ Hp]. cbn [forallb] in Hp. rewrite andb_true_r in Hp.
    unfold plain_cell in Hp. rewrite forallb_app in Hp.
    apply andb_true_iff in Hp. destruct Hp as [_ Hp].
    cbn [forallb] in Hp. rewrite andb_true_r in Hp. exact Hp.
Qed.

Lemma preprocess_plain (n : nat) (T : list (list jsstring)) :
  T <> [] -> plain_rectangular n T ->
  preprocess true true (csv_of T) = csv_of T ++ [LF].
Proof.
  intros Hne HT. unfold preprocess.
  rewrite strictLinebreakGroups_id.
  2:{ apply (csv_of_text n T _ HT); [|reflexivity|reflexivity].
      intros c Hc. apply plain_char_text, Hc. }
  destruct (csv_of_ends_plain n T Hne HT) as (body & c & E & Hc).
  assert (Hends : endsWith (csv_of T) [LF] = false).
  { rewrite E. unfold endsWith. rewrite rev_app_distr.
    cbn [rev app startsWith].
    destruct (plain_char_spec c Hc) as (_ & _ & Hlf & _).
    rewrite Ascii.eqb_sym, Hlf. reflexivity. }
  rewrite Hends. cbn [andb]. apply filter_all.
  rewrite forallb_app.
  change (forallb (fun c0 => negb (Ascii.eqb c0 NUL)) [LF]) with true.
  rewrite andb_true_r.
  apply (csv_of_text n T _ HT); [|reflexivity|reflexivity].
  intros c' Hc'. apply plain_char_text, Hc'.
Qed.

Lemma surroundedQuotes_absent (q : ascii) (s : jsstring) :
  existsb (Ascii.eqb q) s = false -> surroundedQuotes [q] s = None.
Proof.
  induction s as [|c s IH]; intros H; [reflexivity|].
  cbn [existsb] in H. apply orb_false_iff in H. destruct H as [Hc H].
  cbn [surroundedQuotes startsWith]. rewrite (IH H), Hc.
  destruct (Ascii.eqb c SP); reflexivity.
Qed.

Lemma parseString_plain (cell : jsstring) :
  plain_cell cell = true -> parseString [DQUOTE] true cell = cell.
Proof.
  intros H. unfold parseString.
  change (str_eqb [DQUOTE] [SP]) with false. cbn [negb].
  rewrite (surroundedQuotes_absent DQUOTE cell).
  - reflexivity.
  - apply plain_cell_excludes; [exact H | reflexivity].
Qed.

Lemma parseSubArrays_plain (n : nat) (T : list (list jsstring)) :
  plain_rectangular n T ->
  map (parseSubArrays [DQUOTE] true) T = T.
Proof.
  intros HT. rewrite <- (map_id T) at 2. apply map_ext_in.
  intros row Hin. unfold plain_rectangular in HT.
  rewrite Forall_forall in HT. destruct (HT row Hin) as (_ & Hp & _).
  unfold parseSubArrays. rewrite <- (map_id row) at 2. apply map_ext_in.
  intros cell Hc. apply parseString_plain.
  rewrite forallb_forall in Hp. apply Hp, Hc.
Qed.

Lemma tokenize_plain (n : nat) (T : list (list jsstring)) :
  T <> [] -> plain_rectangular n T ->
  tokenize (csv_of T) ParseOptions.default = Ok T.
Proof.
  intros Hne HT. unfold tokenize.
  cbn [ParseOptions.forceLineFeedAfterCarriageReturn
       ParseOptions.ignoreLinefeedBeforeEOF ParseOptions.default].
  rewrite (preprocess_plain n T Hne HT).
  unfold reduce. rewrite reduce_from_feed by (rewrite length_app; simpl; lia).
  change (initialAggregator ParseOptions.default)
    with (defaultAggregator ([] ++ [[[]]]) State.empty).
  destruct T as [|r1 rs]; [contradiction Hne; reflexivity|].
  destruct (feed_rows n rs r1 [] HT) as (s & -> & Hs & Hnes).
  cbn [bind app].
  destruct (tok_linefeed (r1 :: rs) s Hs Hnes) as [_ ->].
  reflexivity.
Qed.

(** *** The round trip *)

(** C3 (as amended): for a non-empty table whose rows all have the same
    number of cells, at least one, whose cells contain no quote, no
    separator, no line feed, no carriage return and no NUL character, and
    in which the last cell of every row is not empty, [stringify] under the
    default options leaves the table as it is and [parse] of its text gives
    the first row back as the header and the remaining rows as the rows. *)
Theorem round_trip_plain_rectangular (n : nat) (T : list (list jsstring)) :
  T <> [] -> plain_rectangular n T ->
  stringify (rowMajor_of T) StringifyOptions.default (heap_of T)
  = Ok (csv_of T, heap_of T)
  /\ exists t,
       round_trip T = Ok t
       /\ Table.header t :: Table.rows t = T
       /\ Table.mappedRows t
          = map (toHashMap (Table.header t)) (Table.rows t).
Proof.
  intros Hne HT.
  pose proof (stringify_plain n T Hne HT) as Es.
  split; [exact Es|].
  unfold round_trip. rewrite Es. cbn [bind fst].
  unfold parse. rewrite (tokenize_plain n T Hne HT). cbn [bind].
  change (parse_quote (ParseOptions.quote ParseOptions.default))
    with [DQUOTE].
  cbn [ParseOptions.ignoreSpacesAfterQuotedString ParseOptions.default].
  rewrite (parseSubArrays_plain n T HT).
  destruct T as [|header rows]; [contradiction Hne; reflexivity|].
  eexists. split; [reflexivity|]. split; reflexivity.
Qed.

Lemma round_trip_plain_rectangular_witness :
  countries <> [] /\ plain_rectangular 1 countries
  /\ exists t,
       round_trip countries = Ok t
       /\ Table.header t :: Table.rows t = countries
       /\ Table.mappedRows t
          = map (toHashMap (Table.header t)) (Table.rows t).
Proof.
  assert (Hne : countries <> []) by discriminate.
  assert (HT : plain_rectangular 1 countries).
  { repeat constructor; discriminate. }
  split; [exact Hne|]. split; [exact HT|].
  apply (round_trip_plain_rectangular 1 countries Hne HT).
Defined.

(** Tables of cells without quote, separator and line feed whose rows do
    not come back: a trailing empty cell, a trailing empty row, a row that
    is shorter than the header by two cells, and a carriage return inside
    a cell. *)
Lemma round_trip_loses_rows :
  (safe_table trailing_empty_cell = true
   /\ exists t, round_trip trailing_empty_cell = Ok t
                /\ Table.rows t = [[str "c"]]
                /\ Table.rows t <> tl trailing_empty_cell)
  /\ (safe_table trailing_empty_row = true
      /\ exists t, round_trip trailing_empty_row = Ok t
                   /\ Table.rows t = []
                   /\ Table.rows t <> tl trailing_empty_row)
  /\ (safe_table short_row = true
      /\ exists t, round_trip short_row = Ok t
                   /\ Table.rows t = [[str "d"; []]]
                   /\ Table.rows t <> tl short_row)
  /\ (safe_table carriage_return_cell = true
      /\ exists t, round_trip carriage_return_cell = Ok t
                   /\ Table.rows t = [[str "b"]; [str "c"]]
                   /\ Table.rows t <> tl carriage_return_cell).
Proof.
  repeat split; try reflexivity;
    (eexists; split; [vm_compute; reflexivity|];
     split; [reflexivity | discriminate]).
Qed.

(** * Further properties *)

(** ** Preprocessing *)

Lemma list_ind2 {A : Type} (P : list A -> Prop) :
  P [] -> (forall x, P [x]) ->
  (forall x y l, P l -> P (y :: l) -> P (x :: y :: l)) ->
  forall l, P l.
Proof.
  intros H0 H1 H2.
  assert (H : forall l, P l /\ forall x, P (x :: l)).
  { induction l as [|y l [IHl IHyl]].
    - split; [exact H0 | exact H1].
    - split; [apply IHyl|]. intros x. apply H2; [exact IHl | apply IHyl]. }
  intros l. apply H.
Qed.

Lemma strictLinebreakGroups_no_CR (s : jsstring) :
  no_CR (strictLinebreakGroups s) = true.
Proof.
  induction s as [|x|x y l IHl IHyl] using list_ind2.
  - reflexivity.
  - cbn [strictLinebreakGroups]. destruct (Ascii.eqb x CR) eqn:E.
    + reflexivity.
    + unfold no_CR. cbn [forallb]. rewrite E. reflexivity.
  - cbn [strictLinebreakGroups]. destruct (Ascii.eqb x CR) eqn:E.
    + destruct (Ascii.eqb y LF); unfold no_CR; cbn [forallb];
        change (negb (Ascii.eqb LF CR)) with true; cbn [andb];
        [exact IHl | exact IHyl].
    + unfold no_CR. cbn [forallb]. rewrite E. exact IHyl.
Qed.

Lemma looseLinebreakGroups_no_CR (s : jsstring) :
  no_CR (looseLinebreakGroups s) = true.
Proof.
  induction s as [|x|x y l IHl IHyl] using list_ind2.
  - reflexivity.
  - cbn [looseLinebreakGroups]. destruct (Ascii.eqb x CR) eqn:E.
    + reflexivity.
    + unfold no_CR. cbn [forallb]. rewrite E. reflexivity.
  - cbn [looseLinebreakGroups].
    destruct ((Ascii.eqb x CR && Ascii.eqb y LF)
              || (Ascii.eqb x LF && Ascii.eqb y CR)).
    + unfold no_CR. cbn [forallb].
      change (negb (Ascii.eqb LF CR)) with true. exact IHl.
    + unfold no_CR. cbn [forallb]. destruct (Ascii.eqb x CR) eqn:E.
      * change (negb (Ascii.eqb LF CR)) with true. exact IHyl.
      * rewrite E. exact IHyl.
Qed.

Lemma endsWith_char (s : jsstring) (c : ascii) :
  endsWith s [c] = true -> exists body, s = body ++ [c].
Proof.
  unfold endsWith. intros H.
  destruct (rev s) as [|d r] eqn:E; [discriminate H|].
  cbn [rev app startsWith] in H. apply andb_true_iff in H.
  destruct H as [H _]. apply Ascii.eqb_eq in H. subst d.
  exists (rev r). rewrite <- (rev_involutive s), E. reflexivity.
Qed.

Lemma endsWith_snoc (s : jsstring) (c d : ascii) :
  endsWith (s ++ [d]) [c] = Ascii.eqb c d.
Proof.
  unfold endsWith. rewrite rev_app_distr. cbn [rev app startsWith].
  apply andb_true_r.
Qed.

Lemma preprocess_shape (force ignore : bool) (csv : jsstring) :
  forallb (fun c => negb (Ascii.eqb c CR) && negb (Ascii.eqb c NUL))
    (preprocess force ignore csv) = true
  /\ exists body, preprocess force ignore csv = body ++ [LF].
Proof.
  unfold preprocess.
  set (csv1 := if force then strictLinebreakGroups csv
               else looseLinebreakGroups csv).
  assert (H1 : no_CR csv1 = true).
  { subst csv1. destruct force;
      [apply strictLinebreakGroups_no_CR | apply looseLinebreakGroups_no_CR]. }
  set (tail := if ignore && endsWith csv1 [LF] then [] else [LF]).
  assert (H2 : exists body, csv1 ++ tail = body ++ [LF]).
  { subst tail. destruct (ignore && endsWith csv1 [LF]) eqn:E.
    - apply andb_true_iff in E. destruct E as [_ E].
      rewrite app_nil_r. apply endsWith_char, E.
    - exists csv1. reflexivity. }
  assert (H3 : no_CR (csv1 ++ tail) = true).
  { unfold no_CR in *. rewrite forallb_app, H1. subst tail.
    destruct (ignore && endsWith csv1 [LF]); reflexivity. }
  clearbody csv1 tail. split.
  - apply forallb_forall. intros c Hc. apply filter_In in Hc.
    destruct Hc as [Hin Hnul]. unfold no_CR in H3.
    rewrite forallb_forall in H3. rewrite (H3 c Hin), Hnul. reflexivity.
  - destruct H2 as (body & ->).
    exists (filter (fun c => negb (Ascii.eqb c NUL)) body).
    rewrite filter_app. reflexivity.
Qed.


Lemma strictLinebreakGroups_plain (s : jsstring) :
  no_CR s = true -> strictLinebreakGroups s = s.
Proof. apply strictLinebreakGroups_id. Qed.

Lemma looseLinebreakGroups_plain (s : jsstring) :
  no_CR s = true -> looseLinebreakGroups s = s.
Proof.
  induction s as [|c s IH]; intros H; [reflexivity|].
  unfold no_CR in H. cbn [forallb] in H. apply andb_true_iff in H.
  destruct H as [Hc H]. apply negb_true_iff in Hc.
  cbn [looseLinebreakGroups]. rewrite Hc.
  destruct s as [|d s]; [reflexivity|].
  assert (Hd : Ascii.eqb d CR = false).
  { cbn [forallb] in H. apply andb_true_iff in H. destruct H as [Hd _].
    apply negb_true_iff, Hd. }
  rewrite Hd, andb_false_r. cbn [andb orb]. rewrite (IH H). reflexivity.
Qed.

Lemma cr_only_head (s : jsstring) :
  match cr_only s with
  | [] => True
  | d :: _ => Ascii.eqb d LF = false
  end.
Proof.
  destruct s as [|c s]; [exact I|]. cbn [cr_only map].
  destruct (Ascii.eqb c LF) eqn:E; [reflexivity | exact E].
Qed.

Lemma strictLinebreakGroups_crlf (s : jsstring) :
  no_CR s = true -> strictLinebreakGroups (crlf s) = s.
Proof.
  induction s as [|c s IH]; intros H; [reflexivity|].
  unfold no_CR in H. cbn [forallb] in H. apply andb_true_iff in H.
  destruct H as [Hc H]. apply negb_true_iff in Hc.
  cbn [crlf flat_map]. destruct (Ascii.eqb c LF) eqn:E.
  - apply Ascii.eqb_eq in E. subst c.
    change (strictLinebreakGroups ([CR; LF] ++ flat_map _ s))
      with (LF :: strictLinebreakGroups (crlf s)).
    rewrite (IH H). reflexivity.
  - cbn [app strictLinebreakGroups]. rewrite Hc.
    change (flat_map _ s) with (crlf s). rewrite (IH H). reflexivity.
Qed.

Lemma strictLinebreakGroups_cr_only (s : jsstring) :
  no_CR s = true -> strictLinebreakGroups (cr_only s) = s.
Proof.
  induction s as [|c s IH]; intros H; [reflexivity|].
  unfold no_CR in H. cbn [forallb] in H. apply andb_true_iff in H.
  destruct H as [Hc H]. apply negb_true_iff in Hc.
  cbn [cr_only map]. change (map _ s) with (cr_only s).
  destruct (Ascii.eqb c LF) eqn:E.
  - apply Ascii.eqb_eq in E. subst c.
    cbn [strictLinebreakGroups]. change (Ascii.eqb CR CR) with true.
    cbv iota. pose proof (cr_only_head s) as Hd.
    destruct (cr_only s) as [|d t] eqn:Es.
    + destruct s; [reflexivity | discriminate Es].
    + rewrite Hd, (IH H). reflexivity.
  - cbn [strictLinebreakGroups]. rewrite Hc, (IH H). reflexivity.
Qed.

Lemma looseLinebreakGroups_crlf (s : jsstring) :
  no_CR s = true -> looseLinebreakGroups (crlf s) = s.
Proof.
  induction s as [|c s IH]; intros H; [reflexivity|].
  unfold no_CR in H. cbn [forallb] in H. apply andb_true_iff in H.
  destruct H as [Hc H]. apply negb_true_iff in Hc.
  cbn [crlf flat_map]. change (flat_map _ s) with (crlf s).
  destruct (Ascii.eqb c LF) eqn:E.
  - apply Ascii.eqb_eq in E. subst c.
    change (looseLinebreakGroups ([CR; LF] ++ crlf s))
      with (LF :: looseLinebreakGroups (crlf s)).
    rewrite (IH H). reflexivity.
  - cbn [app looseLinebreakGroups]. rewrite Hc, E. cbn [andb orb].
    specialize (IH H). destruct (crlf s) as [|d t] eqn:Es.
    + rewrite <- IH. reflexivity.
    + rewrite IH. reflexivity.
Qed.

Lemma looseLinebreakGroups_cr_only (s : jsstring) :
  no_CR s = true -> looseLinebreakGroups (cr_only s) = s.
Proof.
  induction s as [|c s IH]; intros H; [reflexivity|].
  unfold no_CR in H. cbn [forallb] in H. apply andb_true_iff in H.
  destruct H as [Hc H]. apply negb_true_iff in Hc.
  cbn [cr_only map]. change (map _ s) with (cr_only s).
  specialize (IH H). pose proof (cr_only_head s) as Hd.
  destruct (Ascii.eqb c LF) eqn:E.
  - apply Ascii.eqb_eq in E. subst c.
    cbn [looseLinebreakGroups]. change (Ascii.eqb CR CR) with true.
    change (Ascii.eqb CR LF) with false. cbn [andb orb].
    destruct (cr_only s) as [|d t] eqn:Es.
    + rewrite <- IH. reflexivity.
    + rewrite Hd. cbn [orb]. rewrite IH. reflexivity.
  - cbn [looseLinebreakGroups]. rewrite Hc, E. cbn [andb orb].
    destruct (cr_only s) as [|d t] eqn:Es.
    + rewrite <- IH. reflexivity.
    + rewrite IH. reflexivity.
Qed.

Lemma preprocess_line_ends (force ignore : bool) (s : jsstring) :
  no_CR s = true ->
  preprocess force ignore (crlf s) = preprocess force ignore s
  /\ preprocess force ignore (cr_only s) = preprocess force ignore s.
Proof.
  intros H. unfold preprocess. destruct force.
  - rewrite (strictLinebreakGroups_crlf s H),
      (strictLinebreakGroups_cr_only s H), (strictLinebreakGroups_plain s H).
    split; reflexivity.
  - rewrite (looseLinebreakGroups_crlf s H),
      (looseLinebreakGroups_cr_only s H), (looseLinebreakGroups_plain s H).
    split; reflexivity.
Qed.

(** X2: a text written with the line ends of another system parses like
    the text with line feeds: writing every line feed of a text without
    carriage returns as carriage return and line feed, or as a carriage
    return alone, changes nothing in the result of [parse], under every
    configuration. *)
Theorem parse_line_ends (s : jsstring) (o : ParseOptions.t) :
  no_CR s = true ->
  parse (crlf s) o = parse s o /\ parse (cr_only s) o = parse s o.
Proof.
  intros H. unfold parse, tokenize.
  destruct (preprocess_line_ends
              (ParseOptions.forceLineFeedAfterCarriageReturn o)
              (ParseOptions.ignoreLinefeedBeforeEOF o) s H) as [-> ->].
  split; reflexivity.
Qed.

Lemma parse_line_ends_witness :
  no_CR (str "a,b" ++ [LF] ++ str "c,d") = true
  /\ parse (crlf (str "a,b" ++ [LF] ++ str "c,d")) ParseOptions.default
     = parse (str "a,b" ++ [LF] ++ str "c,d") ParseOptions.default
  /\ parse (cr_only (str "a,b" ++ [LF] ++ str "c,d")) ParseOptions.default
     = parse (str "a,b" ++ [LF] ++ str "c,d") ParseOptions.default.
Proof.
  split; [reflexivity|].
  apply (parse_line_ends (str "a,b" ++ [LF] ++ str "c,d")
           ParseOptions.default).
  reflexivity.
Defined.

Lemma preprocess_trailing_linefeed (force : bool) (s : jsstring) :
  no_CR s = true -> endsWith s [LF] = false ->
  preprocess force true (s ++ [LF]) = preprocess force true s.
Proof.
  intros H Hend.
  assert (H' : no_CR (s ++ [LF]) = true).
  { unfold no_CR in *. rewrite forallb_app, H. reflexivity. }
  unfold preprocess.
  assert (E : forall t, no_CR t = true ->
              (if force then strictLinebreakGroups t
               else looseLinebreakGroups t) = t).
  { intros t Ht. destruct force;
      [apply strictLinebreakGroups_plain | apply looseLinebreakGroups_plain];
      exact Ht. }
  rewrite (E _ H), (E _ H'), Hend, endsWith_snoc.
  change (Ascii.eqb LF LF) with true. cbn [andb]. rewrite app_nil_r.
  reflexivity.
Qed.

(** X3: when the line feed before the end of the text is ignored (the
    default), one line feed at the end of a text makes no difference: a
    text without carriage returns that does not end with a line feed
    parses the same with a line feed added. *)
Theorem parse_trailing_linefeed (s : jsstring) (o : ParseOptions.t) :
  no_CR s = true -> endsWith s [LF] = false ->
  ParseOptions.ignoreLinefeedBeforeEOF o = true ->
  parse (s ++ [LF]) o = parse s o.
Proof.
  intros H Hend Hi. unfold parse, tokenize. rewrite Hi.
  rewrite (preprocess_trailing_linefeed _ s H Hend). reflexivity.
Qed.

Lemma parse_trailing_linefeed_witness :
  no_CR (str "a,b") = true /\ endsWith (str "a,b") [LF] = false
  /\ ParseOptions.ignoreLinefeedBeforeEOF ParseOptions.default = true
  /\ parse (str "a,b" ++ [LF]) ParseOptions.default
     = parse (str "a,b") ParseOptions.default.
Proof.
  split; [reflexivity|]. split; [reflexivity|]. split; [reflexivity|].
  apply (parse_trailing_linefeed (str "a,b") ParseOptions.default);
    reflexivity.
Defined.

(** ** Classification *)

Lemma reduceClass_classify (character : ascii) (quote : jsstring)
    (separators : list jsstring) :
  reduceClass (classifyCharacter character quote separators)
  = Ok (reducedClassOf character quote separators).
Proof.
  unfold classifyCharacter, reducedClassOf.
  destruct (Ascii.eqb character LF); [reflexivity|].
  destruct (str_eqb [character] quote),
           (existsb (str_eqb [character]) separators),
           (Ascii.eqb character SP); reflexivity.
Qed.

(** X4: the class a character is reduced to depends on three tests only.
    A line feed is always [linefeed]; otherwise a character that is the
    quote and a separator is [quoteSeparator], the quote alone is [quote], a
    separator alone is [separator], whether or not it is a space; a space
    that is neither is [space], and every other character is [other]. *)
Theorem reduceClass_of_classification (character : ascii) (quote : jsstring)
    (separators : list jsstring) :
  reduceClass (classifyCharacter character quote separators)
  = Ok (reducedClassOf character quote separators)
  /\ (reducedClassOf character quote separators = Cls.space ->
      character = SP /\ str_eqb [character] quote = false
      /\ existsb (str_eqb [character]) separators = false).
Proof.
  unfold classifyCharacter, reducedClassOf.
  destruct (Ascii.eqb character LF); [split; [reflexivity | discriminate]|].
  destruct (str_eqb [character] quote),
           (existsb (str_eqb [character]) separators);
    try (split; [destruct (Ascii.eqb character SP); reflexivity
                | discriminate]).
  destruct (Ascii.eqb character SP) eqn:E;
    (split; [reflexivity|]); [|discriminate].
  intros _. apply Ascii.eqb_eq in E. auto.
Qed.

(** ** Quoting and normalization *)

Lemma match_tail_closing (q : ascii) (content : jsstring) :
  match_tail [q] (content ++ [q]) = Some (content, []).
Proof.
  induction content as [|c content IH].
  - cbn. rewrite Ascii.eqb_refl. reflexivity.
  - change ((c :: content) ++ [q]) with (c :: (content ++ [q])).
    cbn [match_tail]. rewrite IH. reflexivity.
Qed.

Lemma replaceEach_from_pair (q : ascii) (rest : jsstring) :
  replaceEach_from 0 (q :: q :: rest) [q; q] [q]
  = q :: replaceEach_from 0 rest [q; q] [q].
Proof.
  cbn [replaceEach_from startsWith length Nat.sub app].
  rewrite Ascii.eqb_refl. reflexivity.
Qed.

Lemma replaceEach_from_single (q c : ascii) (rest : jsstring) :
  Ascii.eqb c q = false ->
  replaceEach_from 0 (c :: rest) [q; q] [q]
  = c :: replaceEach_from 0 rest [q; q] [q].
Proof.
  intros E. cbn [replaceEach_from startsWith].
  rewrite (Ascii.eqb_sym q c), E. reflexivity.
Qed.

Lemma escapedQuotes_doubled (q : ascii) (cell : jsstring) :
  escapedQuotes (doubled q cell) [q] = cell.
Proof.
  unfold escapedQuotes, replaceEach, doubled. cbn [app].
  induction cell as [|c cell IH]; [reflexivity|].
  cbn [flat_map]. destruct (Ascii.eqb c q) eqn:E.
  - apply Ascii.eqb_eq in E. subst c. cbn [app].
    rewrite replaceEach_from_pair, IH. reflexivity.
  - cbn [app]. rewrite (replaceEach_from_single q c _ E), IH. reflexivity.
Qed.

(** A text between two quotes is read as the text with its doubled quotes
    made single. *)
Lemma parseString_between_quotes (q : ascii) (ignore : bool)
    (content : jsstring) :
  parseString [q] ignore ([q] ++ content ++ [q]) = escapedQuotes content [q].
Proof.
  unfold parseString. cbn [str_eqb].
  rewrite andb_true_r. destruct (Ascii.eqb q SP) eqn:E.
  - apply Ascii.eqb_eq in E. subst q. cbn [negb app spaceQuotes].
    change (Ascii.eqb SP SP) with true. cbv iota.
    rewrite rev_app_distr. cbn [rev app].
    change (Ascii.eqb SP SP) with true. cbv iota.
    rewrite rev_involutive. reflexivity.
  - cbn [negb app surroundedQuotes startsWith length skipn].
    rewrite E, Ascii.eqb_refl. cbn [andb].
    rewrite match_tail_closing.
    destruct ignore; rewrite app_nil_r; reflexivity.
Qed.

Lemma parseString_wrapped (q : ascii) (ignore : bool) (cell : jsstring) :
  parseString [q] ignore ([q] ++ doubled q cell ++ [q]) = cell.
Proof.
  rewrite parseString_between_quotes. apply escapedQuotes_doubled.
Qed.

Lemma spaceQuotes_absent (s : jsstring) :
  existsb (Ascii.eqb SP) s = false -> spaceQuotes s = None.
Proof.
  destruct s as [|c s]; [reflexivity|]. cbn [existsb spaceQuotes].
  intros H. apply orb_false_iff in H. destruct H as [H _].
  rewrite Ascii.eqb_sym, H. reflexivity.
Qed.

Lemma parseString_unquoted (q : ascii) (ignore : bool) (cell : jsstring) :
  existsb (Ascii.eqb q) cell = false -> parseString [q] ignore cell = cell.
Proof.
  intros H. unfold parseString. cbn [str_eqb]. rewrite andb_true_r.
  rewrite (surroundedQuotes_absent q cell H).
  destruct (Ascii.eqb q SP) eqn:E; cbn [negb]; [|reflexivity].
  apply Ascii.eqb_eq in E. subst q.
  rewrite (spaceQuotes_absent cell H). reflexivity.
Qed.

Lemma parseString_quoteString (q s : ascii) (ignore : bool)
    (cell : jsstring) :
  q <> "$"%char ->
  parseString [q] ignore (quoteString [q] [s] cell) = cell.
Proof.
  intros Hq. unfold quoteString. rewrite !includes_char.
  change ([q] ++ [q]) with [q; q].
  rewrite (replaceAll_char_doubled q cell Hq).
  destruct (existsb (Ascii.eqb LF) cell || existsb (Ascii.eqb q) cell
            || existsb (Ascii.eqb s) cell) eqn:B.
  - apply parseString_wrapped.
  - apply orb_false_iff in B. destruct B as [B _].
    apply orb_false_iff in B. destruct B as [_ B].
    apply parseString_unquoted, B.
Qed.

(** With the dollar sign as quote a doubled quote of the cell is written
    as it stands and read back as one. *)
Example dollar_quote_is_not_symmetric :
  quoteString (str "$") (str ",") (str "a$$b") = str "$a$$b$"
  /\ parseString (str "$") true (quoteString (str "$") (str ",") (str "a$$b"))
     = str "a$b".
Proof. split; vm_compute; reflexivity. Qed.

(** X5: normalization undoes quoting.  For every quote character other
    than the dollar sign, every separator character and every cell, the
    cell as [quoteString] writes it is read back by [parseString] as the
    cell itself, whether the spaces after a quoted value are ignored or
    not; so normalizing a table of quoted cells gives the table. *)
Theorem escape_symmetry (q s : ascii) (ignore : bool) (cell : jsstring) :
  q <> "$"%char ->
  parseString [q] ignore (quoteString [q] [s] cell) = cell
  /\ forall T : list (list jsstring),
       map (parseSubArrays [q] ignore) (map (map (quoteString [q] [s])) T)
       = T.
Proof.
  intros Hq. split; [apply parseString_quoteString, Hq|].
  intros T. rewrite map_map. rewrite <- (map_id T) at 2. apply map_ext.
  intros row. unfold parseSubArrays. rewrite map_map.
  rewrite <- (map_id row) at 2. apply map_ext.
  intros c. apply parseString_quoteString, Hq.
Qed.

Lemma escape_symmetry_witness :
  DQUOTE <> "$"%char
  /\ parseString [DQUOTE] true
       (quoteString [DQUOTE] [","%char]
          (str "say " ++ [DQUOTE] ++ str "hi" ++ [DQUOTE]))
     = str "say " ++ [DQUOTE] ++ str "hi" ++ [DQUOTE]
  /\ forall T : list (list jsstring),
       map (parseSubArrays [DQUOTE] true)
         (map (map (quoteString [DQUOTE] [","%char])) T)
       = T.
Proof.
  split; [discriminate|].
  apply (escape_symmetry DQUOTE ","%char true
           (str "say " ++ [DQUOTE] ++ str "hi" ++ [DQUOTE])).
  discriminate.
Defined.

(** ** Mapped rows and rows *)

Lemma header_key_distinct (header : list jsstring) (row : list jsstring)
    (i j : nat) (key : jsstring) :
  NoDup header ->
  ~ In (str "undefined") header \/ length row <= length header ->
  nth_error header i = Some key ->
  j <> i -> j < length row ->
  header_key header j <> key.
Proof.
  intros Hnd Hu Hi Hne Hj Hk.
  assert (Hin : In key header) by (eapply nth_error_In; exact Hi).
  destruct (header_key_cases header j) as [[Hlt E]|[Hge E]].
  - rewrite Hk in E. rewrite NoDup_nth_error in Hnd.
    apply Hne. apply Hnd; [exact Hlt | congruence].
  - destruct Hu as [Hu|Hu]; [|lia]. apply Hu. congruence.
Qed.

Lemma toHashMap_without_hasOwnProperty (header row : list jsstring) :
  ~ In (str "hasOwnProperty") header ->
  own_get (toHashMap header row) (str "hasOwnProperty") = None.
Proof.
  intros Hh. unfold toHashMap. rewrite toHashMap_from_other; [reflexivity|].
  intros j _ Hk. cbn [Nat.add] in Hk.
  destruct (header_key_cases header j) as [[_ E]|[_ E]].
  - apply Hh. rewrite <- Hk. eapply nth_error_In. exact E.
  - rewrite E in Hk. discriminate Hk.
Qed.

Lemma mapHeaderKeys_toHashMap (header row : list jsstring) (i : nat)
    (key : jsstring) :
  NoDup header -> ~ In (str "__proto__") header ->
  ~ In (str "hasOwnProperty") header ->
  ~ In (str "undefined") header \/ length row <= length header ->
  nth_error header i = Some key ->
  mapHeaderKeys (toHashMap header row) key = Ok (nth i row []).
Proof.
  intros Hnd Hp Hh Hu Hi. unfold mapHeaderKeys.
  rewrite (toHashMap_without_hasOwnProperty header row Hh).
  unfold toHashMap.
  assert (Hin : In key header) by (eapply nth_error_In; exact Hi).
  destruct (nth_error row i) as [cell|] eqn:Er.
  - rewrite (toHashMap_from_last header key cell row [] 0 i Er).
    + f_equal. symmetry. apply nth_error_nth. exact Er.
    + apply header_key_inside. exact Hi.
    + intros ->. contradiction.
    + intros j' H1 H2. apply (header_key_distinct header row i); auto; lia.
  - apply nth_error_None in Er.
    rewrite toHashMap_from_other.
    + rewrite nth_overflow by exact Er. reflexivity.
    + intros j Hj. apply (header_key_distinct header row i); auto; lia.
Qed.

Lemma mapM_map_Ok {A B C : Type} (f : B -> Result C) (key : A -> B)
    (g : A -> C) (l : list A) :
  (forall x, In x l -> f (key x) = Ok (g x)) ->
  mapM f (map key l) = Ok (map g l).
Proof.
  induction l as [|x l IH]; intros H; [reflexivity|].
  cbn [map mapM]. rewrite (H x (or_introl eq_refl)). cbn [bind].
  rewrite IH; [reflexivity|]. intros y Hy. apply H. right. exact Hy.
Qed.

(** X6: rebuilding a row from its mapped row.  For a header without
    repeated names and without the names __proto__ and hasOwnProperty, the
    row that [toRows] reads out of the mapping [toHashMap] made of a row is
    that row brought to the length of the header: padded with empty strings
    when it is shorter, cut when it is longer (a longer row needs a header
    without the name undefined). *)
Theorem toRows_toHashMap (header row : list jsstring) :
  NoDup header -> ~ In (str "__proto__") header ->
  ~ In (str "hasOwnProperty") header ->
  ~ In (str "undefined") header \/ length row <= length header ->
  toRows header (toHashMap header row)
  = Ok (map (fun index => nth index row []) (seq 0 (length header))).
Proof.
  intros Hnd Hp Hh Hu. unfold toRows.
  transitivity
    (mapM (mapHeaderKeys (toHashMap header row))
       (map (fun index => nth index header []) (seq 0 (length header)))).
  { f_equal. symmetry. exact (map_nth_seq [] [] header). }
  apply mapM_map_Ok. intros i Hi. apply in_seq in Hi.
  apply mapHeaderKeys_toHashMap; auto.
  apply nth_error_nth'. lia.
Qed.

Lemma toRows_toHashMap_witness :
  NoDup [str "a"; str "b"; str "c"]
  /\ toRows [str "a"; str "b"; str "c"]
       (toHashMap [str "a"; str "b"; str "c"] [str "x"; str "y"])
     = Ok [str "x"; str "y"; []].
Proof.
  assert (Hnd : NoDup [str "a"; str "b"; str "c"]).
  { repeat constructor; simpl; intuition discriminate. }
  split; [exact Hnd|].
  apply (toRows_toHashMap [str "a"; str "b"; str "c"] [str "x"; str "y"]).
  - exact Hnd.
  - simpl; intuition discriminate.
  - simpl; intuition discriminate.
  - right; simpl; lia.
Defined.

(** A header cell named hasOwnProperty makes the mapped row useless to
    [toRows]: the method call on it throws. *)
Example toRows_hasOwnProperty_column :
  toHashMap [str "id"; str "hasOwnProperty"] [str "1"; str "x"]
  = [(str "id", str "1"); (str "hasOwnProperty", str "x")]
  /\ toRows [str "id"; str "hasOwnProperty"]
       (toHashMap [str "id"; str "hasOwnProperty"] [str "1"; str "x"])
     = Err TypeError.
Proof. split; vm_compute; reflexivity. Qed.

(** ** The shape of the result *)

(** X7: the table [parse] returns has a header of at least one cell, body
    rows of at least one cell each, and one mapped row for every body row,
    for every text and every configuration. *)
Theorem parse_rows_have_cells (csv : jsstring) (o : ParseOptions.t) :
  exists t,
    parse csv o = Ok t
    /\ Table.header t <> []
    /\ Forall (fun row => row <> []) (Table.rows t)
    /\ length (Table.mappedRows t) = length (Table.rows t).
Proof.
  unfold parse. destruct (tokenize_well_formed csv o) as (array & -> & Hw).
  cbn [bind]. destruct Hw as [Hne Hall].
  destruct array as [|header rows]; [contradiction Hne; reflexivity|].
  cbn [map]. eexists. split; [reflexivity|]. cbn.
  inversion Hall as [|? ? Hh Hr]; subst. split; [|split].
  - unfold parseSubArrays. destruct header; [contradiction Hh; reflexivity|].
    discriminate.
  - apply Forall_map. eapply Forall_impl; [|exact Hr].
    intros row Hrow. unfold parseSubArrays.
    destruct row; [contradiction Hrow; reflexivity | discriminate].
  - rewrite !length_map. reflexivity.
Qed.

(** ** The empty text *)

Lemma parseString_empty (quote : jsstring) (ignore : bool) :
  parseString quote ignore [] = [].
Proof.
  unfold parseString. destruct quote as [|c q].
  - cbn. destruct ignore; reflexivity.
  - cbn [surroundedQuotes startsWith spaceQuotes].
    destruct (str_eqb (c :: q) [SP]); reflexivity.
Qed.

Lemma preprocess_nul (force ignore : bool) (k : nat) :
  preprocess force ignore (repeat NUL k) = [LF].
Proof.
  assert (Hcr : no_CR (repeat NUL k) = true).
  { unfold no_CR. apply forallb_forall. intros c Hc.
    apply repeat_spec in Hc. subst c. reflexivity. }
  assert (Hend : endsWith (repeat NUL k) [LF] = false).
  { destruct (endsWith (repeat NUL k) [LF]) eqn:E; [|reflexivity].
    apply endsWith_char in E. destruct E as (body & E).
    assert (Hin : In LF (repeat NUL k)).
    { rewrite E. apply in_or_app. right. left. reflexivity. }
    apply repeat_spec in Hin. discriminate Hin. }
  unfold preprocess.
  replace (if force then strictLinebreakGroups (repeat NUL k)
           else looseLinebreakGroups (repeat NUL k))
    with (repeat NUL k).
  2:{ destruct force;
        [rewrite strictLinebreakGroups_plain
        | rewrite looseLinebreakGroups_plain]; auto. }
  rewrite Hend, andb_false_r.
  clear. induction k as [|k IH]; [reflexivity | exact IH].
Qed.

Lemma tokenize_nul (o : ParseOptions.t) (k : nat) :
  tokenize (repeat NUL k) o = Ok [[[]]].
Proof.
  unfold tokenize. rewrite preprocess_nul.
  unfold reduce, initialAggregator. cbn [length reduce_from].
  unfold tokenizeCells, classifyCharacter. cbn [Agg.quote Agg.separators].
  change (Ascii.eqb LF LF) with true. cbv iota.
  destruct (ParseOptions.taintQuoteSeparatorLines o && _); reflexivity.
Qed.

(** X8: the empty text, and a text of NUL characters only, parses to a
    header of one empty cell, no rows and no mapped rows, under every
    configuration. *)
Theorem parse_empty_text (o : ParseOptions.t) (k : nat) :
  parse (repeat NUL k) o = Ok (Table.mk [[]] [] []).
Proof.
  unfold parse. rewrite tokenize_nul. cbn [bind map parseSubArrays].
  rewrite parseString_empty. reflexivity.
Qed.

(** ** The store after stringify *)

Lemma trimmed_of_refl (row : list jsstring) : trimmed_of row row.
Proof. exists 0. symmetry. apply app_nil_r. Qed.

Lemma trimmed_of_trans (a b c : list jsstring) :
  trimmed_of a b -> trimmed_of b c -> trimmed_of a c.
Proof.
  intros (k1 & ->) (k2 & ->). exists (k2 + k1).
  rewrite repeat_app, app_assoc. reflexivity.
Qed.

Lemma trimmed_of_length (old new : list jsstring) :
  trimmed_of old new -> length new <= length old.
Proof. intros (k & ->). rewrite length_app. lia. Qed.

Lemma heap_trimmed_refl (h : heap) : heap_trimmed h h.
Proof.
  split; [lia|]. intros r row H. exists row.
  split; [exact H | apply trimmed_of_refl].
Qed.

Lemma heap_trimmed_trans (h1 h2 h3 : heap) :
  heap_trimmed h1 h2 -> heap_trimmed h2 h3 -> heap_trimmed h1 h3.
Proof.
  intros [L1 H1] [L2 H2]. split; [lia|].
  intros r row Hr. destruct (H1 r row Hr) as (row' & Hr' & T1).
  destruct (H2 r row' Hr') as (row'' & Hr'' & T2).
  exists row''. split; [exact Hr'' | eapply trimmed_of_trans; eassumption].
Qed.

Lemma heap_trimmed_app (h fresh : heap) : heap_trimmed h (h ++ fresh).
Proof.
  split; [rewrite length_app; lia|]. intros r row H. exists row.
  split; [|apply trimmed_of_refl].
  rewrite nth_error_app1; [exact H|]. apply nth_error_Some. congruence.
Qed.

Lemma store_length (h : heap) (r : ref) (row : list jsstring) :
  length (store h r row) = length h.
Proof.
  revert r; induction h as [|x h IH]; intros r; [reflexivity|].
  destruct r; simpl; [reflexivity | rewrite IH; reflexivity].
Qed.

Lemma store_same (h : heap) (r : ref) (row : list jsstring) :
  r < length h -> nth_error (store h r row) r = Some row.
Proof.
  revert r; induction h as [|x h IH]; intros r H; simpl in H; [lia|].
  destruct r; simpl; [reflexivity | apply IH; lia].
Qed.

Lemma store_other (h : heap) (r r' : ref) (row : list jsstring) :
  r' <> r -> nth_error (store h r row) r' = nth_error h r'.
Proof.
  revert r r'; induction h as [|x h IH]; intros r r' H; [reflexivity|].
  destruct r, r'; simpl; try reflexivity; [contradiction H; reflexivity|].
  apply IH. congruence.
Qed.

(** Splicing the last column out of a row that is empty there. *)
Lemma splice1_last_column (row : list jsstring) (m : nat) :
  length row <= m -> emptyAt row (Z.of_nat m - 1) = true ->
  trimmed_of row (splice1 row (Z.of_nat m - 1))
  /\ length (splice1 row (Z.of_nat m - 1)) <= m - 1.
Proof.
  intros Hl He. unfold splice1.
  destruct m as [|m].
  - destruct row; [|simpl in Hl; lia]. split; [apply trimmed_of_refl|].
    simpl. lia.
  - replace (Z.of_nat (S m) - 1)%Z with (Z.of_nat m) in * by lia.
    destruct (Z.of_nat m <? 0)%Z eqn:E; [apply Z.ltb_lt in E; lia|].
    destruct (Nat.eq_dec (length row) (S m)) as [Hs|Hs].
    + replace (Z.to_nat (Z.min (Z.of_nat m) (Z.of_nat (length row))))
        with m by lia.
      rewrite (skipn_all2 row) by lia. rewrite app_nil_r.
      unfold emptyAt in He. rewrite E, Nat2Z.id in He.
      destruct (nth_error row m) as [cell|] eqn:En.
      * apply Nat.eqb_eq in He. destruct cell; [|discriminate He].
        split.
        -- exists 1. rewrite <- (firstn_skipn m row) at 1. f_equal.
           assert (Hk : length (skipn m row) = 1)
             by (rewrite length_skipn; lia).
           destruct (skipn m row) as [|c [|d t]] eqn:Es;
             try discriminate Hk.
           rewrite <- (firstn_skipn m row), nth_error_app2 in En
             by (rewrite length_firstn; lia).
           rewrite length_firstn, Es in En.
           replace (m - Nat.min m (length row)) with 0 in En by lia.
           simpl in En. injection En as ->. reflexivity.
        -- rewrite length_firstn. lia.
      * apply nth_error_None in En. lia.
    + replace (Z.to_nat (Z.min (Z.of_nat m) (Z.of_nat (length row))))
        with (length row) by lia.
      rewrite firstn_all, (skipn_all2 row) by lia. rewrite app_nil_r.
      split; [apply trimmed_of_refl | simpl; lia].
Qed.

Lemma emptyAt_short (row : list jsstring) (m : nat) :
  length row <= m - 1 -> emptyAt row (Z.of_nat m - 1) = true.
Proof.
  intros H. unfold emptyAt.
  destruct (Z.of_nat m - 1 <? 0)%Z eqn:E; [reflexivity|].
  apply Z.ltb_ge in E.
  destruct (nth_error row (Z.to_nat (Z.of_nat m - 1))) eqn:En;
    [|reflexivity].
  assert (Z.to_nat (Z.of_nat m - 1) < length row)
    by (apply nth_error_Some; congruence).
  lia.
Qed.

Lemma valid_ref_deref (h : heap) (r : ref) :
  valid_ref h r -> exists row, nth_error h r = Some row.
Proof.
  intros H. destruct (nth_error h r) as [row|] eqn:E.
  - exists row; reflexivity.
  - apply nth_error_None in E. unfold valid_ref in H. lia.
Qed.

Lemma everyEmptyAt_total (h : heap) (refs : list ref) (k : Z) :
  Forall (valid_ref h) refs -> exists b, everyEmptyAt h refs k = Ok b.
Proof.
  induction 1 as [|r refs Hr _ (b & IH)]; [exists true; reflexivity|].
  destruct (valid_ref_deref h r Hr) as (row & E).
  cbn [everyEmptyAt]. unfold deref. rewrite E. cbn [bind].
  destruct (emptyAt row k); [exists b; exact IH | exists false; reflexivity].
Qed.

Lemma everyEmptyAt_true (h : heap) (refs : list ref) (k : Z) :
  everyEmptyAt h refs k = Ok true ->
  forall r, In r refs ->
            exists row, nth_error h r = Some row /\ emptyAt row k = true.
Proof.
  induction refs as [|r0 refs IH]; intros H r Hin; [contradiction|].
  cbn [everyEmptyAt] in H. unfold deref in H.
  destruct (nth_error h r0) as [row0|] eqn:E0; [|discriminate H].
  cbn [bind] in H. destruct (emptyAt row0 k) eqn:Ee; [|discriminate H].
  destruct Hin as [<-|Hin].
  - exists row0. split; [exact E0 | exact Ee].
  - apply IH; assumption.
Qed.

(** One pass of the column trimming over rows that are all empty in the
    last column: every array loses at most an empty last cell, and the rows
    of the table are one cell shorter than the column count. *)
Lemma spliceAll_last_column (m : nat) (refs : list ref) :
  forall h,
    (forall r, In r refs ->
       exists row, nth_error h r = Some row /\ length row <= m
                   /\ emptyAt row (Z.of_nat m - 1) = true) ->
    exists h',
      spliceAll h refs (Z.of_nat m - 1) = Ok h'
      /\ length h' = length h
      /\ forall r row,
           nth_error h r = Some row ->
           exists row',
             nth_error h' r = Some row' /\ trimmed_of row row'
             /\ (In r refs -> length row' <= m - 1).
Proof.
  induction refs as [|r0 refs IH]; intros h Hpre.
  - exists h. split; [reflexivity|]. split; [reflexivity|].
    intros r row Hr. exists row.
    split; [exact Hr|]. split; [apply trimmed_of_refl | contradiction].
  - destruct (Hpre r0 (or_introl eq_refl)) as (row0 & E0 & L0 & Em0).
    destruct (splice1_last_column row0 m L0 Em0) as [T0 S0].
    assert (V0 : r0 < length h) by (apply nth_error_Some; congruence).
    set (h1 := store h r0 (splice1 row0 (Z.of_nat m - 1))).
    destruct (IH h1) as (h' & Eh' & Lh' & Hh').
    { intros r Hin. destruct (Nat.eq_dec r r0) as [->|Hne].
      - exists (splice1 row0 (Z.of_nat m - 1)). subst h1.
        rewrite store_same by exact V0. split; [reflexivity|].
        split; [lia|]. apply emptyAt_short. exact S0.
      - subst h1. rewrite store_other by exact Hne.
        apply Hpre. right. exact Hin. }
    exists h'. cbn [spliceAll]. unfold deref. rewrite E0. cbn [bind].
    fold h1. split; [exact Eh'|].
    split; [rewrite Lh'; subst h1; apply store_length|].
    intros r row Hr. destruct (Nat.eq_dec r r0) as [->|Hne].
    + assert (row = row0) by congruence. subst row.
      destruct (Hh' r0 (splice1 row0 (Z.of_nat m - 1)))
        as (row' & Er' & T' & _).
      { subst h1. apply store_same. exact V0. }
      exists row'. split; [exact Er'|].
      split; [eapply trimmed_of_trans; eassumption|].
      intros _. apply trimmed_of_length in T'. lia.
    + destruct (Hh' r row) as (row' & Er' & T' & B').
      { subst h1. rewrite store_other by exact Hne. exact Hr. }
      exists row'. split; [exact Er'|]. split; [exact T'|].
      intros [Heq|Hin]; [congruence | apply B', Hin].
Qed.

Lemma trimColumns_frame (n : nat) (refs : list ref) :
  forall h,
    (forall r, In r refs ->
       exists row, nth_error h r = Some row /\ length row <= n - 1) ->
    exists count h',
      trimColumns n refs h = Ok (count, h')
      /\ length h' = length h
      /\ forall r row,
           nth_error h r = Some row ->
           exists row', nth_error h' r = Some row' /\ trimmed_of row row'.
Proof.
  induction n as [|m IH]; intros h Hpre.
  - exists (-1)%Z, h. split; [reflexivity|]. split; [reflexivity|].
    intros r row Hr. exists row. split; [exact Hr | apply trimmed_of_refl].
  - cbn [trimColumns].
    assert (Hv : Forall (valid_ref h) refs).
    { apply Forall_forall. intros r Hin.
      destruct (Hpre r Hin) as (row & E & _).
      unfold valid_ref. apply nth_error_Some. congruence. }
    destruct (everyEmptyAt_total h refs (Z.of_nat m - 1) Hv) as (b & Eb).
    rewrite Eb. cbn [bind]. destruct b.
    + destruct (spliceAll_last_column m refs h) as (h1 & E1 & L1 & H1).
      { intros r Hin.
        destruct (everyEmptyAt_true h refs _ Eb r Hin) as (row & E & Em).
        destruct (Hpre r Hin) as (row' & E' & L').
        assert (row' = row) by congruence. subst row'.
        exists row. split; [exact E|]. split; [lia | exact Em]. }
      rewrite E1. cbn [bind].
      destruct (IH h1) as (count & h' & E' & L' & H').
      { intros r Hin. destruct (Hpre r Hin) as (row & E & _).
        destruct (H1 r row E) as (row1 & Er1 & _ & B1).
        exists row1. split; [exact Er1 | apply B1, Hin]. }
      exists count, h'. split; [exact E'|]. split; [lia|].
      intros r row Hr. destruct (H1 r row Hr) as (row1 & Er1 & T1 & _).
      destruct (H' r row1 Er1) as (row' & Er' & T').
      exists row'. split; [exact Er' | eapply trimmed_of_trans; eassumption].
    + exists (Z.of_nat m), h. split; [reflexivity|]. split; [reflexivity|].
      intros r row Hr. exists row.
      split; [exact Hr | apply trimmed_of_refl].
Qed.

Lemma popEmptyRows_total (h : heap) (reversed : list ref) :
  Forall (valid_ref h) reversed ->
  exists kept, popEmptyRows h reversed = Ok kept
               /\ Forall (valid_ref h) kept
               /\ forall r, In r kept -> In r reversed.
Proof.
  induction 1 as [|r refs Hr Hrefs (kept & IH & Hk & Hin)].
  - exists []. split; [reflexivity|]. split; [constructor | contradiction].
  - destruct (valid_ref_deref h r Hr) as (row & E).
    cbn [popEmptyRows]. unfold deref. rewrite E. cbn [bind].
    destruct (isEmptyRow row).
    + exists kept. split; [exact IH|]. split; [exact Hk|].
      intros r' H'. right. apply Hin, H'.
    + exists (r :: refs). split; [reflexivity|].
      split; [constructor; assumption | auto].
Qed.

Lemma mapM_deref_total (h : heap) (refs : list ref) :
  Forall (valid_ref h) refs -> exists lines, mapM (deref h) refs = Ok lines.
Proof.
  induction 1 as [|r refs Hr _ (lines & IH)]; [exists []; reflexivity|].
  destruct (valid_ref_deref h r Hr) as (row & E).
  cbn [mapM]. unfold deref at 1. rewrite E. cbn [bind]. rewrite IH.
  eexists; reflexivity.
Qed.

Lemma fold_left_max_ge (l : list Z) :
  forall x, (x <= fold_left Z.max l x)%Z
            /\ Forall (fun y => (y <= fold_left Z.max l x)%Z) l.
Proof.
  induction l as [|y l IH]; intros x; cbn [fold_left].
  - split; [lia | constructor].
  - destruct (IH (Z.max x y)) as [H1 H2]. split; [lia|].
    constructor; [lia | exact H2].
Qed.

Lemma mapM_getLength_bound (h : heap) (refs : list ref) :
  refs <> [] -> Forall (valid_ref h) refs ->
  exists lengths maxCellCount,
    mapM (getLength h) refs = Ok lengths
    /\ mathMax lengths = Ok maxCellCount
    /\ (0 <= maxCellCount)%Z
    /\ forall r, In r refs ->
         exists row, nth_error h r = Some row
                     /\ (Z.of_nat (length row) <= maxCellCount)%Z.
Proof.
  intros Hne Hv.
  assert (H : exists lengths,
             mapM (getLength h) refs = Ok lengths
             /\ Forall2 (fun r len =>
                  exists row, nth_error h r = Some row
                              /\ len = Z.of_nat (length row)) refs lengths).
  { clear Hne. induction Hv as [|r refs Hr _ (lengths & IH & F)].
    - exists []. split; [reflexivity | constructor].
    - destruct (valid_ref_deref h r Hr) as (row & E).
      exists (Z.of_nat (length row) :: lengths). split.
      + cbn [mapM]. unfold getLength at 1, deref. rewrite E. cbn [bind].
        rewrite IH. reflexivity.
      + constructor; [exists row; auto | exact F]. }
  destruct H as (lengths & E & F).
  destruct lengths as [|x rest].
  { inversion F; subst. contradiction Hne; reflexivity. }
  exists (x :: rest), (fold_left Z.max rest x).
  split; [exact E|]. split; [reflexivity|].
  destruct (fold_left_max_ge rest x) as [Hx Hrest].
  assert (Hall : Forall (fun y => (y <= fold_left Z.max rest x)%Z)
                   (x :: rest)) by (constructor; assumption).
  split.
  - inversion F as [|r0 ? ? ? (row0 & _ & ->) _]; subst. lia.
  - intros r Hin. clear Hx Hrest E Hne Hv.
    revert Hall Hin. generalize (fold_left Z.max rest x) as mx.
    induction F as [|r0 len refs' lens (row0 & E0 & ->) _ IH];
      intros mx Hall Hin; [contradiction|].
    inversion Hall; subst. destruct Hin as [<-|Hin].
    + exists row0. split; [exact E0 | assumption].
    + apply IH; assumption.
Qed.

Lemma alloc_all_fresh (rows : list (list jsstring)) :
  forall h,
    alloc_all h rows = (seq (length h) (length rows), h ++ rows).
Proof.
  induction rows as [|row rows IH]; intros h; cbn [alloc_all].
  - rewrite app_nil_r. reflexivity.
  - unfold alloc. rewrite IH. rewrite length_app. cbn [length seq].
    rewrite Nat.add_1_r, <- app_assoc. reflexivity.
Qed.

Lemma valid_ref_app (h fresh : heap) (r : ref) :
  valid_ref h r -> valid_ref (h ++ fresh) r.
Proof. unfold valid_ref. rewrite length_app. lia. Qed.

Lemma allRowsOf_valid (object : StringifyInput) (h : heap)
    (allRows : list ref) (h1 : heap) :
  valid_input object h ->
  allRowsOf object h = Ok (allRows, h1) ->
  exists fresh,
    h1 = h ++ fresh
    /\ allRows <> []
    /\ Forall (valid_ref (h ++ fresh)) allRows
    /\ (forall refs, object = RowMajor refs -> fresh = []).
Proof.
  intros Hv E. destruct object as [refs|header rows mappedRows].
  - destruct refs as [|r refs]; [discriminate E|].
    cbn [allRowsOf] in E. injection E as <- <-.
    exists []. rewrite app_nil_r.
    split; [reflexivity|]. split; [discriminate|].
    split; [exact Hv | reflexivity].
  - destruct Hv as [Hh Hr]. cbn [allRowsOf] in E.
    assert (Eh : exists headerCells,
               match header with
               | Some r => deref h r
               | None => Ok []
               end = Ok headerCells).
    { destruct header as [r|]; [|exists []; reflexivity].
      destruct (valid_ref_deref h r Hh) as (row & Er).
      exists row. unfold deref. rewrite Er. reflexivity. }
    destruct Eh as (headerCells & Eh). rewrite Eh in E.
    cbn [bind] in E. unfold alloc in E.
    set (rows' := match rows with Some l => l | None => [] end) in E.
    set (mapped := match mappedRows with Some l => l | None => [] end) in E.
    assert (Hrows : Forall (valid_ref (h ++ [headerCells])) rows').
    { subst rows'. destruct rows as [l|]; [|constructor].
      eapply Forall_impl; [|exact Hr]. intros r. apply valid_ref_app. }
    assert (Hhead : valid_ref (h ++ [headerCells]) (length h)).
    { unfold valid_ref. rewrite length_app. simpl. lia. }
    destruct ((length rows' =? 0) && (0 <? length mapped)).
    + destruct (mapM (toRows headerCells) mapped) as [rebuilt|fault];
        [|discriminate E].
      cbn [bind] in E. rewrite alloc_all_fresh in E. injection E as <- <-.
      exists ([headerCells] ++ rebuilt).
      rewrite app_assoc. split; [reflexivity|]. split; [discriminate|].
      split; [|discriminate]. constructor.
      * apply valid_ref_app, Hhead.
      * apply Forall_forall. intros r Hin. apply in_seq in Hin.
        unfold valid_ref. rewrite length_app. lia.
    + injection E as <- <-. exists [headerCells].
      split; [reflexivity|]. split; [discriminate|].
      split; [constructor; assumption | discriminate].
Qed.

Lemma toRows_plain (header : list jsstring) (mappedRow : JSObject) :
  own_get mappedRow (str "hasOwnProperty") = None ->
  exists row, toRows header mappedRow = Ok row.
Proof.
  intros H. unfold toRows.
  induction header as [|key header (row & IH)]; [exists []; reflexivity|].
  cbn [mapM]. unfold mapHeaderKeys at 1. rewrite H, IH.
  destruct (own_get mappedRow key); cbn [bind]; eexists; reflexivity.
Qed.

Lemma toRows_hasOwnProperty (header : list jsstring) (mappedRow : JSObject) :
  header <> [] ->
  own_get mappedRow (str "hasOwnProperty") <> None ->
  toRows header mappedRow = Err TypeError.
Proof.
  intros Hne H. destruct header as [|key header]; [contradiction|].
  unfold toRows. cbn [mapM]. unfold mapHeaderKeys at 1.
  destruct (own_get mappedRow (str "hasOwnProperty")); [reflexivity|].
  contradiction.
Qed.

Lemma mapM_toRows_plain (header : list jsstring)
    (mappedRows : list JSObject) :
  Forall (fun mappedRow => own_get mappedRow (str "hasOwnProperty") = None)
    mappedRows ->
  exists rebuilt, mapM (toRows header) mappedRows = Ok rebuilt.
Proof.
  induction 1 as [|mappedRow mapped Hm _ (rebuilt & IH)];
    [exists []; reflexivity|].
  destruct (toRows_plain header mappedRow Hm) as (row & Er).
  cbn [mapM]. rewrite Er, IH. cbn [bind]. eexists; reflexivity.
Qed.

Lemma allRowsOf_total (object : StringifyInput) (h : heap) :
  valid_input object h -> plain_mappedRows object ->
  object <> RowMajor [] ->
  exists init, allRowsOf object h = Ok init.
Proof.
  intros Hv Hp Hne. destruct object as [refs|header rows mappedRows].
  - destruct refs as [|r refs]; [contradiction Hne; reflexivity|].
    eexists; reflexivity.
  - destruct Hv as [Hh _]. cbn [allRowsOf].
    assert (Eh : exists headerCells,
               match header with
               | Some r => deref h r
               | None => Ok []
               end = Ok headerCells).
    { destruct header as [r|]; [|exists []; reflexivity].
      destruct (valid_ref_deref h r Hh) as (row & Er).
      exists row. unfold deref. rewrite Er. reflexivity. }
    destruct Eh as (headerCells & ->). cbn [bind]. unfold alloc.
    destruct ((length match rows with Some l => l | None => [] end =? 0)
              && (0 <? length match mappedRows with
                               | Some l => l
                               | None => []
                               end));
      [|eexists; reflexivity].
    assert (Em : exists rebuilt,
               mapM (toRows headerCells)
                 match mappedRows with Some l => l | None => [] end
               = Ok rebuilt).
    { destruct mappedRows as [mapped|]; [|exists []; reflexivity].
      apply mapM_toRows_plain. exact Hp. }
    destruct Em as (rebuilt & ->). cbn [bind].
    destruct (alloc_all (h ++ [headerCells]) rebuilt).
    eexists; reflexivity.
Qed.

Lemma stringify_run (object : StringifyInput) (o : StringifyOptions.t)
    (h : heap) (allRows : list ref) (h1 : heap) :
  valid_input object h ->
  allRowsOf object h = Ok (allRows, h1) ->
  exists text h',
    stringify object o h = Ok (text, h')
    /\ heap_trimmed h h'
    /\ (StringifyOptions.trimEmpty o = false ->
        exists fresh, h' = h ++ fresh
                      /\ forall refs, object = RowMajor refs -> fresh = []).
Proof.
  intros Hv E0.
  destruct (allRowsOf_valid object h allRows h1 Hv E0)
    as (fresh & -> & Hrows & Hvalid & Hfresh).
  destruct (mapM_getLength_bound (h ++ fresh) allRows Hrows Hvalid)
    as (lengths & mx & E1 & E2 & Hmx & Hbound).
  unfold stringify. rewrite E0. cbn [bind]. rewrite E1. cbn [bind].
  rewrite E2. cbn [bind].
  destruct (StringifyOptions.trimEmpty o).
  - destruct (popEmptyRows_total (h ++ fresh) (rev allRows))
      as (kept & E3 & Hkept & Hin).
    { apply Forall_rev. exact Hvalid. }
    rewrite E3. cbn [bind].
    destruct (trimColumns_frame (Z.to_nat (mx + 1)) (rev kept) (h ++ fresh))
      as (count & h2 & E4 & L4 & H4).
    { intros r Hr. apply in_rev in Hr. apply Hin in Hr. apply in_rev in Hr.
      destruct (Hbound r Hr) as (row & E & L).
      exists row. split; [exact E | lia]. }
    rewrite E4. cbn [bind].
    destruct (mapM_deref_total h2 (rev kept)) as (lines & E5).
    { apply Forall_rev. eapply Forall_impl; [|exact Hkept].
      intros r. unfold valid_ref. rewrite L4. auto. }
    rewrite E5. cbn [bind]. eexists _, h2. split; [reflexivity|].
    split; [|discriminate].
    apply (heap_trimmed_trans h (h ++ fresh) h2).
    + apply heap_trimmed_app.
    + split; [lia | exact H4].
  - destruct (mapM_deref_total (h ++ fresh) allRows Hvalid) as (lines & E5).
    cbn [bind]. rewrite E5. cbn [bind].
    eexists _, (h ++ fresh). split; [reflexivity|].
    split; [apply heap_trimmed_app|].
    intros _. exists fresh. split; [reflexivity | exact Hfresh].
Qed.

(** A call that returns has built its table. *)
Lemma stringify_allRowsOf (object : StringifyInput) (o : StringifyOptions.t)
    (h : heap) (result : jsstring * heap) :
  stringify object o h = Ok result ->
  exists allRows h1, allRowsOf object h = Ok (allRows, h1).
Proof.
  unfold stringify. destruct (allRowsOf object h) as [[allRows h1]|fault].
  - intros _. exists allRows, h1. reflexivity.
  - discriminate.
Qed.

(** X9: what [stringify] does to the caller's arrays.  For an argument
    whose arrays exist, every array of the store is still there after the
    call and has lost at most empty cells at its end: no cell with content
    is removed or changed, and no cell is added. *)
Theorem stringify_only_trims_empty_cells (object : StringifyInput)
    (o : StringifyOptions.t) (h : heap) (text : jsstring) (h' : heap) :
  valid_input object h ->
  stringify object o h = Ok (text, h') ->
  heap_trimmed h h'.
Proof.
  intros Hv E.
  destruct (stringify_allRowsOf object o h _ E) as (allRows & h0 & E0).
  destruct (stringify_run object o h allRows h0 Hv E0)
    as (text1 & h1 & E1 & Ht & _).
  rewrite E in E1. injection E1 as <- <-. exact Ht.
Qed.

Lemma stringify_only_trims_empty_cells_witness :
  valid_input (rowMajor_of scenarioE_table) (heap_of scenarioE_table)
  /\ heap_trimmed (heap_of scenarioE_table)
       [[str "A"; str "B"]; [str "x"; str "y"]].
Proof.
  assert (Hv : valid_input (rowMajor_of scenarioE_table)
                 (heap_of scenarioE_table)).
  { repeat constructor. }
  split; [exact Hv|].
  apply (stringify_only_trims_empty_cells (rowMajor_of scenarioE_table)
           StringifyOptions.default (heap_of scenarioE_table)
           (str "A,B" ++ [LF] ++ str "x,y")).
  - exact Hv.
  - vm_compute. reflexivity.
Defined.

(** X10: with [trimEmpty] switched off [stringify] changes no array of
    the caller: the store after the call is the store before it followed by
    the arrays the call created, and for a row-major argument it is the
    same store. *)
Theorem stringify_without_trimming_keeps_store (object : StringifyInput)
    (o : StringifyOptions.t) (h : heap) (text : jsstring) (h' : heap) :
  valid_input object h ->
  StringifyOptions.trimEmpty o = false ->
  stringify object o h = Ok (text, h') ->
  (exists fresh, h' = h ++ fresh)
  /\ (forall refs, object = RowMajor refs -> h' = h).
Proof.
  intros Hv Ht E.
  destruct (stringify_allRowsOf object o h _ E) as (allRows & h0 & E0).
  destruct (stringify_run object o h allRows h0 Hv E0)
    as (text1 & h1 & E1 & _ & Hf).
  rewrite E in E1. injection E1 as <- <-.
  destruct (Hf Ht) as (fresh & -> & Hfresh). split.
  - exists fresh. reflexivity.
  - intros refs Hr. rewrite (Hfresh refs Hr). apply app_nil_r.
Qed.

Lemma stringify_without_trimming_keeps_store_witness :
  valid_input (Structured (Some 0) (Some [1]) None)
    [[str "A"; []]; [str "x"; []]]
  /\ (exists fresh,
         [[str "A"; []]; [str "x"; []]; [str "A"; []]]
         = [[str "A"; []]; [str "x"; []]] ++ fresh).
Proof.
  assert (Hv : valid_input (Structured (Some 0) (Some [1]) None)
                 [[str "A"; []]; [str "x"; []]]).
  { split; [|repeat constructor]; unfold valid_ref; simpl; lia. }
  split; [exact Hv|].
  apply (stringify_without_trimming_keeps_store
           (Structured (Some 0) (Some [1]) None)
           (StringifyOptions.mk JUndefined JUndefined JUndefined false false)
           [[str "A"; []]; [str "x"; []]]
           (str "A," ++ [LF] ++ str "x,")
           [[str "A"; []]; [str "x"; []]; [str "A"; []]] Hv eq_refl).
  vm_compute. reflexivity.
Defined.

(** X11: [stringify] returns a text for every configuration and every
    argument whose arrays exist and whose mapped rows have no own property
    named hasOwnProperty, with one exception: the empty row-major array,
    which has no header row to take the length of. *)
Theorem stringify_faults_only_on_empty_array (object : StringifyInput)
    (o : StringifyOptions.t) (h : heap) :
  valid_input object h ->
  plain_mappedRows object ->
  ((exists result, stringify object o h = Ok result)
   <-> object <> RowMajor []).
Proof.
  intros Hv Hp. split.
  - intros (result & E) ->. discriminate E.
  - intros Hne.
    destruct (allRowsOf_total object h Hv Hp Hne) as ((allRows & h0) & E0).
    destruct (stringify_run object o h allRows h0 Hv E0)
      as (text & h' & E & _).
    exists (text, h'). exact E.
Qed.

Lemma stringify_faults_only_on_empty_array_witness :
  valid_input
    (Structured (Some 0) None (Some [[(str "A", str "x")]; []]))
    [[str "A"; str "B"]]
  /\ plain_mappedRows
       (Structured (Some 0) None (Some [[(str "A", str "x")]; []]))
  /\ ((exists result,
          stringify
            (Structured (Some 0) None (Some [[(str "A", str "x")]; []]))
            StringifyOptions.default [[str "A"; str "B"]] = Ok result)
      <-> Structured (Some 0) None (Some [[(str "A", str "x")]; []])
          <> RowMajor []).
Proof.
  assert (Hv : valid_input
                 (Structured (Some 0) None
                    (Some [[(str "A", str "x")]; []]))
                 [[str "A"; str "B"]]).
  { split; [unfold valid_ref; simpl; lia | exact I]. }
  assert (Hp : plain_mappedRows
                 (Structured (Some 0) None
                    (Some [[(str "A", str "x")]; []]))).
  { repeat constructor. }
  split; [exact Hv|]. split; [exact Hp|].
  apply (stringify_faults_only_on_empty_array
           (Structured (Some 0) None (Some [[(str "A", str "x")]; []]))
           StringifyOptions.default [[str "A"; str "B"]] Hv Hp).
Defined.

(** The mapped rows are asked for their properties only when they are
    used: a mapped row with an own property named hasOwnProperty makes the
    call throw when there are no rows and the header has a cell, and is
    never looked at when rows are given. *)
Example stringify_mappedRow_hasOwnProperty :
  stringify
    (Structured (Some 0) None (Some [[(str "hasOwnProperty", str "x")]]))
    StringifyOptions.default [[str "A"]]
  = Err TypeError
  /\ stringify
       (Structured (Some 0) (Some [1])
          (Some [[(str "hasOwnProperty", str "x")]]))
       StringifyOptions.default [[str "A"]; [str "x"]]
     = Ok (str "A" ++ [LF] ++ str "x", [[str "A"]; [str "x"]; [str "A"]])
  /\ stringify
       (Structured None None (Some [[(str "hasOwnProperty", str "x")]]))
       StringifyOptions.default []
     = Ok ([], [[]; []]).
Proof. repeat split; vm_compute; reflexivity. Qed.

Lemma mapM_toRows_hasOwnProperty (header : list jsstring)
    (mappedRows : list JSObject) :
  header <> [] ->
  Exists (fun mappedRow => own_get mappedRow (str "hasOwnProperty") <> None)
    mappedRows ->
  mapM (toRows header) mappedRows = Err TypeError.
Proof.
  intros Hne. induction 1 as [mappedRow mapped Hm|mappedRow mapped _ IH].
  - cbn [mapM]. rewrite (toRows_hasOwnProperty header mappedRow Hne Hm).
    reflexivity.
  - cbn [mapM].
    destruct (own_get mappedRow (str "hasOwnProperty")) as [value|] eqn:Eo.
    + rewrite (toRows_hasOwnProperty header mappedRow Hne);
        [reflexivity | congruence].
    + destruct (toRows_plain header mappedRow Eo) as (row & ->).
      cbn [bind]. rewrite IH. reflexivity.
Qed.

(** X19: a mapped row that cannot be asked for its properties.  When the
    argument has a header of at least one cell and no rows, so that the
    rows are rebuilt from the mapped rows, and one of the mapped rows has an
    own property named hasOwnProperty, [stringify] throws for every
    configuration: the method call on that mapped row calls a string. *)
Theorem stringify_throws_on_hasOwnProperty (header : ref)
    (rows : option (list ref)) (mappedRows : list JSObject)
    (o : StringifyOptions.t) (h : heap) (cell : jsstring)
    (cells : list jsstring) :
  nth_error h header = Some (cell :: cells) ->
  rows = None \/ rows = Some [] ->
  Exists (fun mappedRow => own_get mappedRow (str "hasOwnProperty") <> None)
    mappedRows ->
  stringify (Structured (Some header) rows (Some mappedRows)) o h
  = Err TypeError.
Proof.
  intros Eh Hrows Hm.
  assert (Hlen : (0 <? length mappedRows) = true).
  { destruct Hm; reflexivity. }
  assert (Hr : (length match rows with Some l => l | None => [] end =? 0)
               = true).
  { destruct Hrows as [-> | ->]; reflexivity. }
  unfold stringify. cbn [allRowsOf]. unfold deref. rewrite Eh.
  cbn [bind]. unfold alloc. rewrite Hr, Hlen. cbn [andb].
  rewrite (mapM_toRows_hasOwnProperty (cell :: cells) mappedRows);
    [reflexivity | discriminate | exact Hm].
Qed.

Lemma stringify_throws_on_hasOwnProperty_witness :
  nth_error [[str "id"; str "hasOwnProperty"]] 0
  = Some [str "id"; str "hasOwnProperty"]
  /\ stringify
       (Structured (Some 0) None
          (Some [toHashMap [str "id"; str "hasOwnProperty"]
                   [str "1"; str "x"]]))
       StringifyOptions.default [[str "id"; str "hasOwnProperty"]]
     = Err TypeError.
Proof.
  split; [reflexivity|].
  apply (stringify_throws_on_hasOwnProperty 0 None
           [toHashMap [str "id"; str "hasOwnProperty"] [str "1"; str "x"]]
           StringifyOptions.default [[str "id"; str "hasOwnProperty"]]
           (str "id") [str "hasOwnProperty"]).
  - reflexivity.
  - left. reflexivity.
  - constructor. vm_compute. discriminate.
Defined.

(** ** Round trip of cells with any content *)

Lemma toCSVLine_full (quote separator : jsstring) (row : list jsstring)
    (n : nat) :
  length row = S n ->
  toCSVLine quote separator (Z.of_nat (S n)) row
  = join separator (map (quoteString quote separator) row).
Proof.
  intros Hl. unfold toCSVLine. f_equal.
  rewrite Nat2Z.id, <- Hl.
  rewrite <- (map_map (fun index => nth index row [])
                (quoteString quote separator)).
  f_equal. exact (map_nth_seq [] [] row).
Qed.

Lemma stringify_rectangular (n : nat) (T : list (list jsstring)) :
  T <> [] -> text_rectangular n T ->
  stringify (rowMajor_of T) StringifyOptions.default (heap_of T)
  = Ok (quoted_csv_of T, T).
Proof.
  intros Hne HT. unfold text_rectangular in HT.
  assert (E1 : allRowsOf (RowMajor (seq 0 (length T))) T
               = Ok (seq 0 (length T), T)).
  { destruct T; [contradiction Hne; reflexivity | reflexivity]. }
  pose proof (mapM_getLength_seq [] T) as E2. simpl in E2.
  assert (E3 : mathMax (map (fun row => Z.of_nat (length row)) T)
               = Ok (Z.of_nat (S n))).
  { destruct T as [|r T']; [contradiction Hne; reflexivity|].
    inversion HT as [|? ? (Hr & _) HT']; subst.
    unfold mathMax. cbn [map]. rewrite Hr. f_equal.
    apply fold_left_max_const.
    apply Forall_map. eapply Forall_impl; [|exact HT'].
    intros row (Hl & _). cbv beta. rewrite Hl. reflexivity. }
  assert (E4 : popEmptyRows T (rev (seq 0 (length T)))
               = Ok (rev (seq 0 (length T)))).
  { destruct (exists_last Hne) as (T' & lastLine & ->).
    apply Forall_app in HT. destruct HT as [_ HT].
    inversion HT as [|? ? (Hl & _ & Hlast) _]; subst.
    rewrite length_app. simpl length. rewrite Nat.add_1_r, seq_S.
    rewrite rev_app_distr. simpl.
    unfold deref. rewrite nth_error_middle. simpl.
    rewrite (isEmptyRow_last lastLine n Hl Hlast). reflexivity. }
  assert (E5 : trimColumns (S (S n)) (seq 0 (length T)) T
               = Ok (Z.of_nat (S n), T)).
  { destruct T as [|r T']; [contradiction Hne; reflexivity|].
    inversion HT as [|? ? (Hl & _ & Hlast) _]; subst.
    cbn [trimColumns length seq everyEmptyAt]. unfold deref.
    cbn [nth_error bind].
    rewrite (emptyAt_last r n Hl Hlast). reflexivity. }
  pose proof (mapM_deref_seq [] T) as E6. simpl in E6.
  assert (E7 : map (toCSVLine [DQUOTE] (str ",") (Z.of_nat (S n))) T
               = map (fun row =>
                        join (str ",")
                          (map (quoteString [DQUOTE] (str ",")) row)) T).
  { apply map_ext_in. intros row Hin.
    rewrite Forall_forall in HT. destruct (HT row Hin) as (Hl & _).
    apply toCSVLine_full; assumption. }
  unfold stringify, rowMajor_of, heap_of.
  rewrite E1. cbn [bind]. rewrite E2. cbn [bind]. rewrite E3. cbn [bind].
  cbn [StringifyOptions.trimEmpty StringifyOptions.default].
  rewrite E4. cbn [bind]. rewrite rev_involutive.
  replace (Z.to_nat (Z.of_nat (S n) + 1)) with (S (S n)) by lia.
  rewrite E5. cbn [bind]. rewrite E6. cbn [bind].
  change (stringify_quote (StringifyOptions.quote StringifyOptions.default))
    with [DQUOTE].
  change (stringify_separator
            (StringifyOptions.separator StringifyOptions.default))
    with (str ",").
  change (stringify_lineEnd
            (StringifyOptions.lineEnd StringifyOptions.default))
    with [LF].
  rewrite E7. cbn [StringifyOptions.lineEndBeforeEOF StringifyOptions.default].
  rewrite app_nil_r. reflexivity.
Qed.

(** *** The tokenizer on quoted and unquoted cells *)

Lemma tok_open (rows : list (list jsstring)) (cells : list jsstring)
    (cur : jsstring) (c : ascii) :
  Ascii.eqb c DQUOTE = false ->
  tok false (defaultAggregator (rows ++ [cells ++ [cur]]) State.open) c
  = Ok (defaultAggregator (rows ++ [cells ++ [cur ++ [c]]]) State.open).
Proof.
  intros Hq.
  unfold tok, tokenizeCells, classifyCharacter, defaultAggregator.
  cbn [Agg.quote Agg.separators Agg.parserState Agg.taintQuoteSeparatorLines
       str_eqb existsb str list_ascii_of_string].
  rewrite Hq. cbn [andb orb app].
  destruct (Ascii.eqb c LF); destruct (Ascii.eqb c ","%char);
    destruct (Ascii.eqb c SP);
    cbn; agg_fields; rewrite !update_last_app; reflexivity.
Qed.

Lemma tok_quote (rows : list (list jsstring)) (cells : list jsstring)
    (cur : jsstring) (s : State.t) :
  s = State.empty \/ s = State.open \/ s = State.waiting ->
  tok false (defaultAggregator (rows ++ [cells ++ [cur]]) s) DQUOTE
  = Ok (defaultAggregator (rows ++ [cells ++ [cur ++ [DQUOTE]]])
          (match s with State.open => State.waiting | _ => State.open end)).
Proof.
  intros [->|[->| ->]];
    unfold tok, tokenizeCells, defaultAggregator; cbn;
    agg_fields; rewrite !update_last_app; reflexivity.
Qed.

Lemma feed_cons (a : Agg.t) (c : ascii) (w : list ascii) :
  feed a (c :: w) = (a' <- tok false a c ;; feed a' w).
Proof. reflexivity. Qed.

Lemma feed_open_doubled (rows : list (list jsstring))
    (cells : list jsstring) (cell : jsstring) :
  forall cur,
    feed (defaultAggregator (rows ++ [cells ++ [cur]]) State.open)
      (doubled DQUOTE cell)
    = Ok (defaultAggregator
            (rows ++ [cells ++ [cur ++ doubled DQUOTE cell]]) State.open).
Proof.
  induction cell as [|c cell IH]; intros cur.
  - cbn [doubled flat_map feed]. rewrite app_nil_r. reflexivity.
  - unfold doubled. cbn [flat_map]. fold (doubled DQUOTE cell).
    destruct (Ascii.eqb c DQUOTE) eqn:E.
    + cbn [app]. rewrite feed_cons.
      rewrite (tok_quote rows cells cur State.open) by auto.
      cbv match. cbn [bind]. rewrite feed_cons.
      rewrite (tok_quote rows cells (cur ++ [DQUOTE]) State.waiting) by auto.
      cbv match. cbn [bind]. rewrite IH, <- !app_assoc. reflexivity.
    + cbn [app]. rewrite feed_cons, (tok_open rows cells cur c E).
      cbn [bind]. rewrite IH, <- app_assoc. reflexivity.
Qed.

Lemma feed_wrapped (rows : list (list jsstring)) (cells : list jsstring)
    (cell : jsstring) :
  feed (defaultAggregator (rows ++ [cells ++ [[]]]) State.empty)
    ([DQUOTE] ++ doubled DQUOTE cell ++ [DQUOTE])
  = Ok (defaultAggregator
          (rows ++ [cells ++ [[DQUOTE] ++ doubled DQUOTE cell ++ [DQUOTE]]])
          State.waiting).
Proof.
  cbn [app]. rewrite feed_cons.
  rewrite (tok_quote rows cells [] State.empty) by auto.
  cbv match. cbn [bind app].
  rewrite feed_app, feed_open_doubled. cbn [bind].
  rewrite feed_cons, (tok_quote rows cells _ State.open) by auto.
  cbv match. cbn [bind feed]. rewrite <- app_assoc. reflexivity.
Qed.

Lemma tok_safe (rows : list (list jsstring)) (cells : list jsstring)
    (cur : jsstring) (s : State.t) (c : ascii) :
  safe_char c = true -> unquoted_state s = true ->
  exists s',
    tok false (defaultAggregator (rows ++ [cells ++ [cur]]) s) c
    = Ok (defaultAggregator (rows ++ [cells ++ [cur ++ [c]]]) s')
    /\ unquoted_state s' = true /\ s' <> State.empty.
Proof.
  intros Hc Hs. unfold safe_char in Hc.
  rewrite !andb_true_iff, !negb_true_iff in Hc.
  destruct Hc as [[Hq Hsep] Hlf].
  unfold tok, tokenizeCells, classifyCharacter, defaultAggregator.
  cbn [Agg.quote Agg.separators Agg.parserState Agg.taintQuoteSeparatorLines
       str_eqb existsb str list_ascii_of_string].
  rewrite Hlf, Hq, Hsep. cbn [andb orb app].
  destruct (Ascii.eqb c SP); destruct s; try discriminate Hs;
    cbn; agg_fields; rewrite !update_last_app; cbn [bind];
    eexists; (split; [reflexivity | split; [reflexivity | discriminate]]).
Qed.

Lemma feed_safe_cell (rows : list (list jsstring)) (cells : list jsstring)
    (w : jsstring) :
  forall (cur : jsstring) (s : State.t),
    forallb safe_char w = true -> cell_state cur s ->
    exists s',
      feed (defaultAggregator (rows ++ [cells ++ [cur]]) s) w
      = Ok (defaultAggregator (rows ++ [cells ++ [cur ++ w]]) s')
      /\ cell_state (cur ++ w) s'.
Proof.
  induction w as [|c w IH]; intros cur s Hw Hs.
  - exists s. rewrite app_nil_r. split; [reflexivity | exact Hs].
  - cbn [forallb] in Hw. apply andb_true_iff in Hw. destruct Hw as [Hc Hw].
    destruct Hs as [Hs _].
    destruct (tok_safe rows cells cur s c Hc Hs) as (s1 & E & Hs1 & Hne).
    destruct (IH (cur ++ [c]) s1 Hw) as (s2 & E2 & Hs2).
    { split; [exact Hs1 | intros _; exact Hne]. }
    rewrite <- app_assoc in E2, Hs2. simpl in E2, Hs2.
    exists s2. split; [|exact Hs2].
    rewrite feed_cons, E. exact E2.
Qed.

Lemma unquoted_cell_safe (cell : jsstring) :
  existsb (Ascii.eqb LF) cell || existsb (Ascii.eqb DQUOTE) cell
  || existsb (Ascii.eqb ","%char) cell = false ->
  forallb safe_char cell = true.
Proof.
  induction cell as [|c cell IH]; [reflexivity|].
  cbn [existsb forallb]. intros H.
  rewrite !orb_false_iff in H. destruct H as [[[H1 H2] [H3 H4]] [H5 H6]].
  rewrite IH by (rewrite H2, H4, H6; reflexivity).
  unfold safe_char.
  rewrite (Ascii.eqb_sym c DQUOTE), (Ascii.eqb_sym c ","%char),
    (Ascii.eqb_sym c LF), H1, H3, H5. reflexivity.
Qed.

(** Reading the text of one cell, quoted or not. *)
Lemma feed_token (rows : list (list jsstring)) (cells : list jsstring)
    (cell : jsstring) :
  exists s',
    feed (defaultAggregator (rows ++ [cells ++ [[]]]) State.empty)
      (quoteString [DQUOTE] (str ",") cell)
    = Ok (defaultAggregator
            (rows ++ [cells ++ [quoteString [DQUOTE] (str ",") cell]]) s')
    /\ end_state s' = true
    /\ (cell <> [] -> s' <> State.empty).
Proof.
  unfold quoteString. change (str ",") with [","%char].
  rewrite !includes_char.
  change ([DQUOTE] ++ [DQUOTE]) with [DQUOTE; DQUOTE].
  rewrite (replaceAll_char_doubled DQUOTE cell DQUOTE_not_dollar).
  destruct (existsb (Ascii.eqb LF) cell || existsb (Ascii.eqb DQUOTE) cell
            || existsb (Ascii.eqb ","%char) cell) eqn:B.
  - exists State.waiting. split; [apply feed_wrapped|].
    split; [reflexivity | discriminate].
  - destruct (feed_safe_cell rows cells cell [] State.empty
                (unquoted_cell_safe cell B)) as (s' & E & Hs & Hne).
    { split; [reflexivity | intros H; contradiction H; reflexivity]. }
    exists s'. split; [exact E|]. split; [|exact Hne].
    destruct s'; try discriminate Hs; reflexivity.
Qed.

Lemma tok_comma_end (rows : list (list jsstring)) (cells : list jsstring)
    (cur : jsstring) (s : State.t) :
  end_state s = true ->
  tok false (defaultAggregator (rows ++ [cells ++ [cur]]) s) ","%char
  = Ok (defaultAggregator (rows ++ [(cells ++ [cur]) ++ [[]]]) State.empty).
Proof.
  intros Hs. destruct s; try discriminate Hs;
    unfold tok, tokenizeCells, defaultAggregator; cbn;
    agg_fields; cbn; rewrite update_last_app; reflexivity.
Qed.

Lemma tok_linefeed_end (array : list (list jsstring)) (s : State.t) :
  end_state s = true -> s <> State.empty ->
  tok false (defaultAggregator array s) LF
  = Ok (defaultAggregator (array ++ [[[]]]) State.empty)
  /\ tok true (defaultAggregator array s) LF
     = Ok (defaultAggregator array State.finished).
Proof.
  intros Hs Hne. destruct s; try discriminate Hs;
    try (contradiction Hne; reflexivity); split; reflexivity.
Qed.

Lemma feed_token_row (rows : list (list jsstring)) (cs : list jsstring) :
  forall (c1 : jsstring) (cells : list jsstring),
    exists s',
      feed (defaultAggregator (rows ++ [cells ++ [[]]]) State.empty)
        (join (str ",") (map (quoteString [DQUOTE] (str ",")) (c1 :: cs)))
      = Ok (defaultAggregator
              (rows ++ [cells
                        ++ map (quoteString [DQUOTE] (str ",")) (c1 :: cs)])
              s')
      /\ end_state s' = true
      /\ (last (c1 :: cs) [] <> [] -> s' <> State.empty).
Proof.
  induction cs as [|c2 cs IH]; intros c1 cells.
  - apply feed_token.
  - destruct (feed_token rows cells c1) as (s1 & E & Hs1 & _).
    destruct (IH c2 (cells ++ [quoteString [DQUOTE] (str ",") c1]))
      as (s2 & E2 & Hs2).
    exists s2. split; [|exact Hs2].
    change (join (str ",")
              (map (quoteString [DQUOTE] (str ",")) (c1 :: c2 :: cs)))
      with (quoteString [DQUOTE] (str ",") c1
            ++ ","%char
               :: join (str ",")
                    (map (quoteString [DQUOTE] (str ",")) (c2 :: cs))).
    rewrite feed_app, E. cbn [bind]. rewrite feed_cons.
    rewrite (tok_comma_end rows cells _ s1 Hs1). cbn [bind].
    rewrite E2. cbn [map]. rewrite <- app_assoc. reflexivity.
Qed.

Lemma feed_token_rows (n : nat) (rs : list (list jsstring)) :
  forall (r1 : list jsstring) (rows : list (list jsstring)),
    text_rectangular n (r1 :: rs) ->
    exists s',
      feed (defaultAggregator (rows ++ [[[]]]) State.empty)
        (quoted_csv_of (r1 :: rs))
      = Ok (defaultAggregator
              (rows ++ map (map (quoteString [DQUOTE] (str ","))) (r1 :: rs))
              s')
      /\ end_state s' = true /\ s' <> State.empty.
Proof.
  induction rs as [|r2 rs IH]; intros r1 rows HT;
    inversion HT as [|? ? (Hl & _ & Hlast) HT']; subst;
    (destruct r1 as [|c1 cs]; [discriminate Hl|]);
    destruct (feed_token_row rows cs c1 []) as (s1 & E & Hs1 & Hne1);
    cbn [app] in E.
  - exists s1. split; [exact E|]. split; [exact Hs1 | exact (Hne1 Hlast)].
  - destruct (IH r2
                (rows ++ [map (quoteString [DQUOTE] (str ",")) (c1 :: cs)])
                HT') as (s2 & E2 & Hs2).
    exists s2. split; [|exact Hs2].
    change (quoted_csv_of ((c1 :: cs) :: r2 :: rs))
      with (join (str ",")
              (map (quoteString [DQUOTE] (str ",")) (c1 :: cs))
            ++ LF :: quoted_csv_of (r2 :: rs)).
    rewrite feed_app, E. cbn [bind]. rewrite feed_cons.
    destruct (tok_linefeed_end
                (rows ++ [map (quoteString [DQUOTE] (str ",")) (c1 :: cs)])
                s1 Hs1 (Hne1 Hlast)) as [-> _].
    cbn [bind]. rewrite E2.
    change (map (map (quoteString [DQUOTE] (str ",")))
              ((c1 :: cs) :: r2 :: rs))
      with ([map (quoteString [DQUOTE] (str ",")) (c1 :: cs)]
            ++ map (map (quoteString [DQUOTE] (str ","))) (r2 :: rs)).
    rewrite app_assoc. reflexivity.
Qed.

(** *** Preprocessing of the written text *)

Lemma forallb_doubled (p : ascii -> bool) (q : ascii) (cell : jsstring) :
  p q = true -> forallb p cell = true -> forallb p (doubled q cell) = true.
Proof.
  intros Hq. induction cell as [|c cell IH]; intros H; [reflexivity|].
  cbn [forallb] in H. apply andb_true_iff in H. destruct H as [Hc H].
  unfold doubled. cbn [flat_map]. fold (doubled q cell).
  rewrite forallb_app, (IH H), andb_true_r.
  destruct (Ascii.eqb c q); cbn [forallb]; rewrite ?Hq, ?Hc; reflexivity.
Qed.

Lemma quoteString_text (cell : jsstring) :
  text_cell cell = true ->
  forallb text_char (quoteString [DQUOTE] (str ",") cell) = true.
Proof.
  intros H. unfold quoteString.
  change ([DQUOTE] ++ [DQUOTE]) with [DQUOTE; DQUOTE].
  rewrite (replaceAll_char_doubled DQUOTE cell DQUOTE_not_dollar).
  destruct (includes cell [LF] || includes cell [DQUOTE]
            || includes cell (str ",")); [|exact H].
  cbn [app forallb]. rewrite forallb_app.
  rewrite (forallb_doubled text_char DQUOTE cell eq_refl H). reflexivity.
Qed.

Lemma quoteString_end (cell : jsstring) :
  cell <> [] ->
  exists body c,
    quoteString [DQUOTE] (str ",") cell = body ++ [c]
    /\ Ascii.eqb c LF = false.
Proof.
  intros Hne. unfold quoteString. rewrite (includes_char LF).
  destruct (existsb (Ascii.eqb LF) cell) eqn:B; cbn [orb].
  - eexists _, DQUOTE. rewrite app_assoc. split; reflexivity.
  - destruct (includes cell [DQUOTE] || includes cell (str ",")).
    + eexists _, DQUOTE. rewrite app_assoc. split; reflexivity.
    + destruct (exists_last Hne) as (w & c & ->).
      exists w, c. split; [reflexivity|].
      rewrite existsb_app in B. apply orb_false_iff in B.
      destruct B as [_ B]. cbn [existsb] in B. rewrite orb_false_r in B.
      rewrite Ascii.eqb_sym. exact B.
Qed.

Lemma quoted_csv_of_text (n : nat) (T : list (list jsstring)) :
  text_rectangular n T -> forallb text_char (quoted_csv_of T) = true.
Proof.
  intros HT. unfold quoted_csv_of.
  apply forallb_join; [reflexivity|].
  apply Forall_map. eapply Forall_impl; [|exact HT].
  intros row (_ & Hrow & _). cbv beta.
  apply forallb_join; [reflexivity|].
  apply Forall_map. rewrite forallb_forall in Hrow.
  apply Forall_forall. intros cell Hin.
  apply quoteString_text, Hrow, Hin.
Qed.

Lemma quoted_csv_of_end (n : nat) (T : list (list jsstring)) :
  T <> [] -> text_rectangular n T ->
  exists body c, quoted_csv_of T = body ++ [c] /\ Ascii.eqb c LF = false.
Proof.
  intros Hne HT.
  destruct (exists_last Hne) as (T' & row & ->).
  apply Forall_app in HT. destruct HT as [_ HT].
  inversion HT as [|? ? (Hl & _ & Hlast) _]; subst.
  assert (Hrow : row <> []) by (intros ->; discriminate Hl).
  destruct (exists_last Hrow) as (cells & cell & ->).
  rewrite last_last in Hlast.
  destruct (quoteString_end cell Hlast) as (w & c & Ew & Hc).
  unfold quoted_csv_of. rewrite map_app. cbn [map]. rewrite map_app.
  cbn [map]. rewrite Ew.
  destruct (join_snoc [LF]
              (map (fun row0 =>
                      join (str ",")
                        (map (quoteString [DQUOTE] (str ",")) row0)) T')
              (join (str ",")
                 (map (quoteString [DQUOTE] (str ",")) cells ++ [w ++ [c]])))
    as (pre1 & ->).
  destruct (join_snoc (str ",")
              (map (quoteString [DQUOTE] (str ",")) cells) (w ++ [c]))
    as (pre2 & ->).
  exists (pre1 ++ pre2 ++ w), c. split; [|exact Hc].
  rewrite <- !app_assoc. reflexivity.
Qed.

Lemma preprocess_quoted (n : nat) (T : list (list jsstring)) :
  T <> [] -> text_rectangular n T ->
  preprocess true true (quoted_csv_of T) = quoted_csv_of T ++ [LF].
Proof.
  intros Hne HT. pose proof (quoted_csv_of_text n T HT) as Htext.
  unfold preprocess. rewrite strictLinebreakGroups_id.
  2:{ apply forallb_forall. intros c Hc.
      rewrite forallb_forall in Htext. specialize (Htext c Hc).
      unfold text_char in Htext. apply andb_true_iff in Htext. tauto. }
  destruct (quoted_csv_of_end n T Hne HT) as (body & c & E & Hc).
  assert (Hends : endsWith (quoted_csv_of T) [LF] = false).
  { rewrite E, endsWith_snoc, Ascii.eqb_sym. exact Hc. }
  rewrite Hends. cbn [andb]. apply filter_all.
  rewrite forallb_app.
  change (forallb (fun c0 => negb (Ascii.eqb c0 NUL)) [LF]) with true.
  rewrite andb_true_r. apply forallb_forall. intros c' Hc'.
  rewrite forallb_forall in Htext. specialize (Htext c' Hc').
  unfold text_char in Htext. apply andb_true_iff in Htext. tauto.
Qed.

Lemma tokenize_quoted (n : nat) (T : list (list jsstring)) :
  T <> [] -> text_rectangular n T ->
  tokenize (quoted_csv_of T) ParseOptions.default
  = Ok (map (map (quoteString [DQUOTE] (str ","))) T).
Proof.
  intros Hne HT. unfold tokenize.
  cbn [ParseOptions.forceLineFeedAfterCarriageReturn
       ParseOptions.ignoreLinefeedBeforeEOF ParseOptions.default].
  rewrite (preprocess_quoted n T Hne HT).
  unfold reduce. rewrite reduce_from_feed by (rewrite length_app; simpl; lia).
  change (initialAggregator ParseOptions.default)
    with (defaultAggregator ([] ++ [[[]]]) State.empty).
  destruct T as [|r1 rs]; [contradiction Hne; reflexivity|].
  destruct (feed_token_rows n rs r1 [] HT) as (s & -> & Hs & Hnes).
  cbn [bind app].
  destruct (tok_linefeed_end
              (map (map (quoteString [DQUOTE] (str ","))) (r1 :: rs))
              s Hs Hnes) as [_ ->].
  reflexivity.
Qed.

Lemma normalize_quoted (T : list (list jsstring)) :
  map (parseSubArrays [DQUOTE] true)
    (map (map (quoteString [DQUOTE] (str ","))) T)
  = T.
Proof.
  rewrite map_map. rewrite <- (map_id T) at 2. apply map_ext.
  intros row. unfold parseSubArrays. rewrite map_map.
  rewrite <- (map_id row) at 2. apply map_ext.
  intros cell. apply (parseString_quoteString DQUOTE ","%char).
  exact DQUOTE_not_dollar.
Qed.

(** X12: the round trip for cells with any content.  For a non-empty
    table whose rows all have the same number of cells, whose cells hold no
    carriage return and no NUL character but may hold quotes, commas, line
    feeds and spaces, and in which the last cell of every row is not empty,
    [stringify] under the default options leaves the table as it is, and
    [parse] under the default options reads its text back as that table:
    the first row as the header, the others as the rows. *)
Theorem round_trip_rectangular (n : nat) (T : list (list jsstring)) :
  T <> [] -> text_rectangular n T ->
  stringify (rowMajor_of T) StringifyOptions.default (heap_of T)
  = Ok (quoted_csv_of T, heap_of T)
  /\ exists t,
       round_trip T = Ok t /\ Table.header t :: Table.rows t = T.
Proof.
  intros Hne HT.
  pose proof (stringify_rectangular n T Hne HT) as Es.
  split; [exact Es|].
  unfold round_trip. rewrite Es. cbn [bind fst].
  unfold parse. rewrite (tokenize_quoted n T Hne HT). cbn [bind].
  change (parse_quote (ParseOptions.quote ParseOptions.default))
    with [DQUOTE].
  cbn [ParseOptions.ignoreSpacesAfterQuotedString ParseOptions.default].
  rewrite normalize_quoted.
  destruct T as [|header rows]; [contradiction Hne; reflexivity|].
  eexists. split; reflexivity.
Qed.

Lemma round_trip_rectangular_witness :
  quoted_table <> [] /\ text_rectangular 1 quoted_table
  /\ exists t,
       round_trip quoted_table = Ok t
       /\ Table.header t :: Table.rows t = quoted_table.
Proof.
  assert (Hne : quoted_table <> []) by discriminate.
  assert (HT : text_rectangular 1 quoted_table).
  { repeat constructor; discriminate. }
  split; [exact Hne|]. split; [exact HT|].
  apply (round_trip_rectangular 1 quoted_table Hne HT).
Defined.

(** ** Parsing without a quote *)

Lemma match_tail_unset (rest : jsstring) :
  match_tail [] rest = Some (rest, []).
Proof.
  induction rest as [|c rest IH]; [reflexivity|].
  cbn [match_tail]. rewrite IH. reflexivity.
Qed.

Lemma surroundedQuotes_unset (s : jsstring) :
  surroundedQuotes [] s = Some (dropSpaces s, []).
Proof.
  induction s as [|c s IH]; [reflexivity|].
  cbn [surroundedQuotes dropSpaces startsWith length skipn].
  destruct (Ascii.eqb c SP).
  - rewrite IH. reflexivity.
  - apply match_tail_unset.
Qed.

Lemma escapedQuotes_unset (s : jsstring) : escapedQuotes s [] = s.
Proof.
  unfold escapedQuotes, replaceEach. cbn [app].
  induction s as [|c s IH]; [reflexivity|].
  cbn [flat_map app]. rewrite IH. reflexivity.
Qed.

Lemma parseString_unset (ignore : bool) (s : jsstring) :
  parseString [] ignore s = dropSpaces s.
Proof.
  unfold parseString. cbn [str_eqb negb].
  rewrite surroundedQuotes_unset.
  destruct ignore; rewrite app_nil_r; apply escapedQuotes_unset.
Qed.

(** X13: what normalization does when no quote is in effect.  Every raw
    cell loses its leading spaces and nothing else: the table of [parse] is
    the table of raw cells with the leading spaces of every cell dropped. *)
Theorem parse_without_quote_drops_leading_spaces (csv : jsstring)
    (o : ParseOptions.t) :
  parse_quote (ParseOptions.quote o) = [] ->
  (forall ignore s, parseString [] ignore s = dropSpaces s)
  /\ exists raw t,
       tokenize csv o = Ok raw
       /\ parse csv o = Ok t
       /\ Table.header t :: Table.rows t = map (map dropSpaces) raw.
Proof.
  intros Hq. split; [exact parseString_unset|].
  destruct (tokenize_well_formed csv o) as (raw & E & Hw).
  unfold parse. rewrite E, Hq. cbn [bind].
  destruct raw as [|header rows].
  { destruct Hw as [Hne _]. contradiction Hne; reflexivity. }
  eexists _, _. split; [reflexivity|]. cbn [map]. split; [reflexivity|].
  cbn [Table.header Table.rows]. f_equal.
  - apply map_ext. intros cell. apply parseString_unset.
  - apply map_ext. intros row. apply map_ext. intros cell.
    apply parseString_unset.
Qed.

Lemma parse_without_quote_drops_leading_spaces_witness :
  parse_quote (ParseOptions.quote noQuote_options) = []
  /\ exists raw t,
       tokenize (str " a, b") noQuote_options = Ok raw
       /\ parse (str " a, b") noQuote_options = Ok t
       /\ Table.header t :: Table.rows t = map (map dropSpaces) raw.
Proof.
  split; [reflexivity|].
  apply (parse_without_quote_drops_leading_spaces (str " a, b")
           noQuote_options).
  reflexivity.
Defined.

(** ** The characters of the cells *)

Section Content.

Variable P : ascii -> Prop.

Lemma cells_all_snoc (rows : list (list jsstring)) (cells : list jsstring)
    (cur : jsstring) :
  cells_all P (rows ++ [cells ++ [cur]])
  <-> cells_all P rows /\ Forall (Forall P) cells /\ Forall P cur.
Proof.
  unfold cells_all. rewrite Forall_app. split.
  - intros [Hr Hl]. inversion Hl as [|? ? Hrow _]; subst.
    apply Forall_app in Hrow. destruct Hrow as [Hc Hcur].
    inversion Hcur; subst. auto.
  - intros (Hr & Hc & Hcur). split; [exact Hr|].
    constructor; [|constructor]. apply Forall_app. split; [exact Hc|].
    constructor; [exact Hcur | constructor].
Qed.

Lemma consume_content (a : Agg.t) (character : jsstring) :
  well_formed (Agg.array a) -> cells_all P (Agg.array a) ->
  Forall P character ->
  exists array,
    consume a character = Ok (Agg.set_array a array)
    /\ well_formed array /\ cells_all P array.
Proof.
  intros H Hc Hch.
  destruct (well_formed_split _ H) as (rows & cells & cur & E & Hr).
  rewrite E in Hc. apply cells_all_snoc in Hc.
  destruct Hc as (Hc1 & Hc2 & Hc3).
  exists (rows ++ [cells ++ [cur ++ character]]). split; [|split].
  - unfold consume. rewrite E, update_last_app, update_last_app. reflexivity.
  - apply well_formed_snoc; exact Hr.
  - apply cells_all_snoc. split; [exact Hc1|]. split; [exact Hc2|].
    apply Forall_app. split; assumption.
Qed.

Lemma discardCell_content (a : Agg.t) :
  well_formed (Agg.array a) -> cells_all P (Agg.array a) ->
  exists array,
    discardCell a
    = Ok (Agg.set_lineTaint
            (Agg.set_parserState (Agg.set_array a array) State.finished)
            Taint.none)
    /\ well_formed array /\ cells_all P array.
Proof.
  intros H Hc.
  destruct (well_formed_split _ H) as (rows & cells & cur & E & Hr).
  rewrite E in Hc. apply cells_all_snoc in Hc.
  destruct Hc as (Hc1 & Hc2 & Hc3).
  unfold discardCell. rewrite E, update_last_app. cbn [bind].
  destruct cells as [|c cells].
  - exists (rows ++ [[cur]]). cbn. split; [reflexivity|]. split.
    + apply (well_formed_snoc rows [] cur Hr).
    + apply (cells_all_snoc rows [] cur). auto.
  - exists (rows ++ [c :: cells]).
    assert (L : (1 <? length ((c :: cells) ++ [cur])) = true).
    { apply Nat.ltb_lt. rewrite length_app. simpl. lia. }
    rewrite L, removelast_snoc. split; [reflexivity|].
    destruct (@exists_last _ (c :: cells)) as (cells' & cur' & E');
      [discriminate|].
    rewrite E' in *. apply Forall_app in Hc2. destruct Hc2 as [Hc2 Hc4].
    inversion Hc4; subst. split.
    + apply well_formed_snoc; exact Hr.
    + apply cells_all_snoc. auto.
Qed.

Lemma endCell_content (a : Agg.t) (characterClasses : list Cls.t) :
  well_formed (Agg.array a) -> cells_all P (Agg.array a) ->
  exists a',
    endCell a characterClasses = Ok a'
    /\ well_formed (Agg.array a') /\ cells_all P (Agg.array a')
    /\ Agg.parserState a' = State.empty
    /\ Agg.quote a' = Agg.quote a.
Proof.
  intros H Hc.
  destruct (well_formed_split _ H) as (rows & cells & cur & E & Hr).
  unfold endCell.
  destruct (Cls.includes characterClasses Cls.separator).
  - rewrite E, update_last_app. cbn [bind]. eexists.
    split; [reflexivity|]. cbn.
    rewrite E in Hc. apply cells_all_snoc in Hc.
    destruct Hc as (Hc1 & Hc2 & Hc3). split; [|split; [|split]].
    + apply (well_formed_snoc rows (cells ++ [cur]) [] Hr).
    + apply (cells_all_snoc rows (cells ++ [cur]) []).
      split; [exact Hc1|]. split; [|constructor].
      apply Forall_app. split; [exact Hc2|]. constructor; [exact Hc3|].
      constructor.
    + reflexivity.
    + reflexivity.
  - destruct (Cls.includes characterClasses Cls.linefeed); cbn [bind].
    + eexists. split; [reflexivity|]. cbn. split; [|split; [|split]].
      * apply (well_formed_snoc (Agg.array a) [] []). apply H.
      * apply (cells_all_snoc (Agg.array a) [] []).
        split; [exact Hc|]. split; constructor.
      * reflexivity.
      * reflexivity.
    + eexists. split; [reflexivity|]. cbn. auto.
Qed.

Lemma lineTaintActivation_fields (a : Agg.t) (r : Cls.t) :
  Agg.array (lineTaintActivation a r) = Agg.array a
  /\ Agg.quote (lineTaintActivation a r) = Agg.quote a
  /\ Agg.parserState (lineTaintActivation a r) = Agg.parserState a
  /\ Agg.ignoreLinefeedBeforeEOF (lineTaintActivation a r)
     = Agg.ignoreLinefeedBeforeEOF a.
Proof. destruct r; repeat split; reflexivity. Qed.

Lemma taintUpdate_fields (a : Agg.t) (r : Cls.t) (s : State.t) :
  Agg.array (taintUpdate a r s) = Agg.array a
  /\ Agg.quote (taintUpdate a r s) = Agg.quote a.
Proof.
  unfold taintUpdate.
  repeat match goal with
         | |- context [if ?b then _ else _] => destruct b
         end;
    try (split; reflexivity);
    destruct (lineTaintActivation_fields a r) as (H1 & H2 & _);
    split; assumption.
Qed.

Lemma taintAdjust_content (a : Agg.t) (r : Cls.t) (s : State.t) :
  well_formed (Agg.array a) -> cells_all P (Agg.array a) ->
  Forall P (Agg.quote a) ->
  exists a' s',
    taintAdjust a r s = Ok (a', s')
    /\ well_formed (Agg.array a') /\ cells_all P (Agg.array a')
    /\ Agg.quote a' = Agg.quote a
    /\ (s' = s \/ s' = State.finished).
Proof.
  intros H Hc Hq. unfold taintAdjust.
  destruct (taintUpdate_fields a r s) as [Ea Eq].
  set (a1 := taintUpdate a r s) in *. clearbody a1.
  rewrite <- Ea in H, Hc. rewrite <- Eq in Hq.
  destruct (_ && _ && _).
  - destruct (consume_content a1 (Agg.quote a1) H Hc Hq)
      as (array & E & Hw & Hca).
    rewrite E. cbn [bind]. eexists _, _. split; [reflexivity|]. cbn.
    split; [exact Hw|]. split; [exact Hca|]. split; [exact Eq | auto].
  - eexists _, _. split; [reflexivity|].
    split; [exact H|]. split; [exact Hc|]. split; [exact Eq | auto].
Qed.

(** One step of the tokenizer adds to the cells at most the character it
    reads and the quote. *)
Lemma tokenizeCells_content (a : Agg.t) (character : ascii)
    (index len : nat) :
  well_formed (Agg.array a) ->
  table_state (Agg.parserState a) = true ->
  cells_all P (Agg.array a) ->
  Forall P (Agg.quote a) -> P character ->
  exists a',
    tokenizeCells a character index len = Ok a'
    /\ well_formed (Agg.array a') /\ cells_all P (Agg.array a')
    /\ Agg.quote a' = Agg.quote a
    /\ ((index =? len - 1) = false ->
        table_state (Agg.parserState a') = true).
Proof.
  intros Hw Hs Hc Hq Hch. unfold tokenizeCells. cbv zeta.
  destruct (classify_reduces character (Agg.quote a) (Agg.separators a))
    as (_ & r & ->). cbn [bind].
  destruct (transition_defined _ r Hs) as (s1 & ->). cbn [bind].
  assert (Hadj : exists a2 s2,
             (if Agg.taintQuoteSeparatorLines a
              then taintAdjust a r s1 else Ok (a, s1)) = Ok (a2, s2)
             /\ well_formed (Agg.array a2) /\ cells_all P (Agg.array a2)
             /\ Agg.quote a2 = Agg.quote a).
  { destruct (Agg.taintQuoteSeparatorLines a).
    - destruct (taintAdjust_content a r s1 Hw Hc Hq)
        as (a2 & s2 & E & H1 & H2 & H3 & _).
      exists a2, s2. auto.
    - exists a, s1. auto. }
  destruct Hadj as (a2 & s2 & -> & Hw2 & Hc2 & Hq2). cbn [bind fst snd].
  assert (Hdis : exists a3,
             (if State.eqb (Agg.parserState (Agg.set_parserState a2 s2))
                   State.discarded
              then discardCell (Agg.set_parserState a2 s2)
              else Ok (Agg.set_parserState a2 s2)) = Ok a3
             /\ well_formed (Agg.array a3) /\ cells_all P (Agg.array a3)
             /\ Agg.quote a3 = Agg.quote a
             /\ Agg.parserState a3 <> State.discarded).
  { cbn [Agg.parserState Agg.set_parserState].
    destruct (State.eqb s2 State.discarded) eqn:Ed.
    - destruct (discardCell_content (Agg.set_parserState a2 s2) Hw2 Hc2)
        as (array & E & Hwa & Hca).
      rewrite E. eexists. split; [reflexivity|]. cbn.
      split; [exact Hwa|]. split; [exact Hca|].
      split; [exact Hq2 | discriminate].
    - eexists. split; [reflexivity|]. cbn.
      split; [exact Hw2|]. split; [exact Hc2|]. split; [exact Hq2|].
      intros ->. discriminate Ed. }
  destruct Hdis as (a3 & -> & Hw3 & Hc3 & Hq3 & Hnd). cbn [bind].
  assert (Hone : Forall P [character]) by (constructor; [exact Hch|constructor]).
  destruct (index =? len - 1); cbn [negb].
  - destruct (State.eqb (Agg.parserState a3) State.open).
    + assert (Hcons : exists a4,
                 (if negb (Agg.ignoreLinefeedBeforeEOF a3)
                  then consume a3 [character] else Ok a3) = Ok a4
                 /\ well_formed (Agg.array a4) /\ cells_all P (Agg.array a4)
                 /\ Agg.quote a4 = Agg.quote a).
      { destruct (negb (Agg.ignoreLinefeedBeforeEOF a3)).
        - destruct (consume_content a3 [character] Hw3 Hc3 Hone)
            as (array & E & Hwa & Hca).
          rewrite E. eexists. split; [reflexivity|]. cbn. auto.
        - exists a3. auto. }
      destruct Hcons as (a4 & -> & Hw4 & Hc4 & Hq4). cbn [bind].
      rewrite <- Hq4 in Hq.
      destruct (consume_content a4 (Agg.quote a4) Hw4 Hc4 Hq)
        as (array & E & Hwa & Hca).
      rewrite E. eexists. split; [reflexivity|]. cbn.
      split; [exact Hwa|]. split; [exact Hca|].
      split; [exact Hq4 | discriminate].
    + exists a3. split; [reflexivity|]. split; [exact Hw3|].
      split; [exact Hc3|]. split; [exact Hq3 | discriminate].
  - destruct (State.eqb (Agg.parserState a3) State.finished) eqn:Ef.
    + destruct (endCell_content a3
                  (classifyCharacter character (Agg.quote a)
                     (Agg.separators a)) Hw3 Hc3)
        as (a4 & E & Hw4 & Hc4 & Hs4 & Hq4).
      rewrite E. exists a4. split; [reflexivity|]. split; [exact Hw4|].
      split; [exact Hc4|]. split; [congruence|].
      intros _. rewrite Hs4. reflexivity.
    + destruct (consume_content a3 [character] Hw3 Hc3 Hone)
        as (array & E & Hwa & Hca).
      rewrite E. eexists. split; [reflexivity|]. cbn.
      split; [exact Hwa|]. split; [exact Hca|]. split; [exact Hq3|].
      intros _.
      destruct (Agg.parserState a3); try reflexivity;
        [discriminate Ef | contradiction Hnd; reflexivity].
Qed.

Lemma reduce_from_content (chars : list ascii) :
  forall (a : Agg.t) (index len : nat),
    well_formed (Agg.array a) ->
    table_state (Agg.parserState a) = true ->
    cells_all P (Agg.array a) ->
    Forall P (Agg.quote a) -> Forall P chars ->
    index + length chars <= len ->
    exists a', reduce_from a index len chars = Ok a'
               /\ cells_all P (Agg.array a').
Proof.
  induction chars as [|c chars IH];
    intros a index len Hw Hs Hc Hq Hch Hlen; cbn [reduce_from].
  - exists a; split; [reflexivity | exact Hc].
  - inversion Hch as [|? ? Hc0 Hchars]; subst.
    destruct (tokenizeCells_content a c index len Hw Hs Hc Hq Hc0)
      as (a1 & -> & Hw1 & Hc1 & Hq1 & Hs1). cbn [bind].
    destruct chars as [|d chars].
    + exists a1; split; [reflexivity | exact Hc1].
    + apply IH; auto.
      * apply Hs1. apply Nat.eqb_neq. simpl in Hlen. lia.
      * rewrite Hq1. exact Hq.
      * simpl in *. lia.
Qed.

End Content.

Section NormalizedContent.

Variable P : ascii -> Prop.

Lemma skipn_Forall {A : Type} (Q : A -> Prop) (k : nat) (l : list A) :
  Forall Q l -> Forall Q (skipn k l).
Proof.
  intros H. rewrite <- (firstn_skipn k l) in H.
  apply Forall_app in H. apply H.
Qed.

Lemma match_tail_content (quote : jsstring) (rest : jsstring) :
  forall content spaces,
    match_tail quote rest = Some (content, spaces) ->
    Forall P rest -> Forall P content /\ Forall P spaces.
Proof.
  induction rest as [|c rest IH]; intros content spaces E H.
  - cbn [match_tail] in E.
    destruct (startsWith quote [] && all_spaces (skipn (length quote) []));
      [|discriminate E].
    injection E as <- <-. split; [constructor|].
    apply skipn_Forall. constructor.
  - cbn [match_tail] in E. inversion H as [|? ? Hc Hrest]; subst.
    destruct (match_tail quote rest) as [[content' spaces']|].
    + injection E as <- <-.
      destruct (IH content' spaces' eq_refl Hrest) as [H1 H2].
      split; [constructor; assumption | exact H2].
    + destruct (startsWith quote (c :: rest)
                && all_spaces (skipn (length quote) (c :: rest)));
        [|discriminate E].
      injection E as <- <-. split; [constructor|].
      apply skipn_Forall. exact H.
Qed.

Lemma surroundedQuotes_content (quote : jsstring) (s : jsstring) :
  forall content spaces,
    surroundedQuotes quote s = Some (content, spaces) ->
    Forall P s -> Forall P content /\ Forall P spaces.
Proof.
  induction s as [|c s IH]; intros content spaces E H.
  - cbn [surroundedQuotes] in E.
    destruct (startsWith quote []); [|discriminate E].
    apply (match_tail_content quote _ _ _ E). apply skipn_Forall. exact H.
  - cbn [surroundedQuotes] in E. inversion H as [|? ? Hc Hs]; subst.
    destruct (if Ascii.eqb c SP then surroundedQuotes quote s else None)
      as [[content' spaces']|] eqn:Em.
    + injection E as <- <-. destruct (Ascii.eqb c SP); [|discriminate Em].
      apply (IH _ _ Em Hs).
    + destruct (startsWith quote (c :: s)); [|discriminate E].
      apply (match_tail_content quote _ _ _ E). apply skipn_Forall. exact H.
Qed.

Lemma spaceQuotes_content (s content : jsstring) :
  spaceQuotes s = Some content -> Forall P s -> Forall P content.
Proof.
  destruct s as [|c t]; [discriminate|]. cbn [spaceQuotes].
  destruct (Ascii.eqb c SP); [|discriminate].
  destruct (rev t) as [|d m] eqn:E; [discriminate|].
  destruct (Ascii.eqb d SP); [|discriminate].
  intros [= <-] H. inversion H as [|? ? _ Ht]; subst.
  apply Forall_rev in Ht. rewrite E in Ht.
  inversion Ht; subst. apply Forall_rev. assumption.
Qed.

Lemma replaceEach_from_content (pat rep : jsstring) (s : jsstring) :
  forall skip,
    Forall P s -> Forall P rep -> Forall P (replaceEach_from skip s pat rep).
Proof.
  induction s as [|c s IH]; intros skip H Hrep; [constructor|].
  inversion H; subst. cbn [replaceEach_from]. destruct skip.
  - destruct (startsWith pat (c :: s)).
    + apply Forall_app. split; [exact Hrep | apply IH; assumption].
    + constructor; [assumption | apply IH; assumption].
  - apply IH; assumption.
Qed.

Lemma escapedQuotes_content (s quote : jsstring) :
  Forall P s -> Forall P quote -> Forall P (escapedQuotes s quote).
Proof.
  intros H Hq. unfold escapedQuotes, replaceEach.
  destruct (quote ++ quote) eqn:E.
  - apply app_eq_nil in E. destruct E as [-> _]. cbn [app].
    induction H; cbn [flat_map app]; [constructor|].
    constructor; assumption.
  - apply replaceEach_from_content; assumption.
Qed.

Lemma parseString_content (quote : jsstring) (ignore : bool)
    (s : jsstring) :
  Forall P s -> Forall P quote -> Forall P (parseString quote ignore s).
Proof.
  intros H Hq. unfold parseString.
  destruct (if negb (str_eqb quote [SP]) then surroundedQuotes quote s
            else None) as [[content spaces]|] eqn:E1.
  - destruct (negb (str_eqb quote [SP])); [|discriminate E1].
    destruct (surroundedQuotes_content quote s _ _ E1 H) as [Hc Hsp].
    apply escapedQuotes_content; [|exact Hq].
    apply Forall_app. split; [exact Hc|].
    destruct ignore; [constructor | exact Hsp].
  - destruct (if str_eqb quote [SP] then spaceQuotes s else None)
      as [content|] eqn:E2; [|exact H].
    destruct (str_eqb quote [SP]); [|discriminate E2].
    apply escapedQuotes_content; [|exact Hq].
    apply (spaceQuotes_content s content E2 H).
Qed.

Lemma parse_content (csv : jsstring) (o : ParseOptions.t) :
  Forall P (preprocess (ParseOptions.forceLineFeedAfterCarriageReturn o)
              (ParseOptions.ignoreLinefeedBeforeEOF o) csv) ->
  Forall P (parse_quote (ParseOptions.quote o)) ->
  exists t,
    parse csv o = Ok t
    /\ cells_all P (Table.header t :: Table.rows t).
Proof.
  intros Htext Hq.
  destruct (initialAggregator_well_formed o) as [Hw Hs].
  destruct (reduce_from_content P
              (preprocess (ParseOptions.forceLineFeedAfterCarriageReturn o)
                 (ParseOptions.ignoreLinefeedBeforeEOF o) csv)
              (initialAggregator o) 0
              (length (preprocess
                         (ParseOptions.forceLineFeedAfterCarriageReturn o)
                         (ParseOptions.ignoreLinefeedBeforeEOF o) csv))
              Hw Hs) as (a & E & Hc).
  { repeat constructor. }
  { exact Hq. }
  { exact Htext. }
  { simpl; lia. }
  unfold parse, tokenize, reduce. rewrite E. cbn [bind].
  destruct (Agg.array a) as [|header rows] eqn:Ea.
  - destruct (parse_total csv o) as (t & Et).
    unfold parse, tokenize, reduce in Et. rewrite E in Et. cbn [bind] in Et.
    rewrite Ea in Et. discriminate Et.
  - cbn [map]. eexists. split; [reflexivity|]. cbn [Table.header Table.rows].
    change (parseSubArrays (parse_quote (ParseOptions.quote o))
              (ParseOptions.ignoreSpacesAfterQuotedString o) header
            :: map (parseSubArrays (parse_quote (ParseOptions.quote o))
                      (ParseOptions.ignoreSpacesAfterQuotedString o)) rows)
      with (map (parseSubArrays (parse_quote (ParseOptions.quote o))
                   (ParseOptions.ignoreSpacesAfterQuotedString o))
              (header :: rows)).
    unfold cells_all in *. apply Forall_map.
    eapply Forall_impl; [|exact Hc]. intros row Hrow.
    unfold parseSubArrays. apply Forall_map.
    eapply Forall_impl; [|exact Hrow]. intros cell Hcell.
    apply parseString_content; assumption.
Qed.

End NormalizedContent.

Lemma strictLinebreakGroups_chars (s : jsstring) (c : ascii) :
  In c (strictLinebreakGroups s) -> In c s \/ c = LF.
Proof.
  induction s as [|x|x y l IHl IHyl] using list_ind2.
  - contradiction.
  - cbn [strictLinebreakGroups]. destruct (Ascii.eqb x CR).
    + intros [<-|[]]. right; reflexivity.
    + intros [<-|[]]. left; left; reflexivity.
  - cbn [strictLinebreakGroups]. destruct (Ascii.eqb x CR).
    + destruct (Ascii.eqb y LF); intros [<-|H]; try (right; reflexivity).
      * destruct (IHl H); [left; right; right; assumption | right; assumption].
      * destruct (IHyl H); [left; right; assumption | right; assumption].
    + intros [<-|H]; [left; left; reflexivity|].
      destruct (IHyl H); [left; right; assumption | right; assumption].
Qed.

Lemma looseLinebreakGroups_chars (s : jsstring) (c : ascii) :
  In c (looseLinebreakGroups s) -> In c s \/ c = LF.
Proof.
  induction s as [|x|x y l IHl IHyl] using list_ind2.
  - contradiction.
  - cbn [looseLinebreakGroups]. destruct (Ascii.eqb x CR).
    + intros [<-|[]]. right; reflexivity.
    + intros [<-|[]]. left; left; reflexivity.
  - cbn [looseLinebreakGroups].
    destruct ((Ascii.eqb x CR && Ascii.eqb y LF)
              || (Ascii.eqb x LF && Ascii.eqb y CR)).
    + intros [<-|H]; [right; reflexivity|].
      destruct (IHl H); [left; right; right; assumption | right; assumption].
    + intros [E|H].
      * destruct (Ascii.eqb x CR); [right; symmetry; exact E|].
        left; left; exact E.
      * destruct (IHyl H); [left; right; assumption | right; assumption].
Qed.

Lemma preprocess_chars (force ignore : bool) (csv : jsstring) (c : ascii) :
  In c (preprocess force ignore csv) -> In c csv \/ c = LF.
Proof.
  unfold preprocess. intros H. apply filter_In in H. destruct H as [H _].
  apply in_app_or in H. destruct H as [H|H].
  - destruct force;
      [apply strictLinebreakGroups_chars | apply looseLinebreakGroups_chars];
      exact H.
  - destruct (ignore && _); [contradiction|].
    destruct H as [<-|[]]. right; reflexivity.
Qed.

(** X14: where the characters of the result come from.  Every character
    of every cell [parse] returns is a character of the text, a line feed,
    or the quote character: the tokenizer and the normalizer invent
    nothing else. *)
Theorem parse_cells_come_from_text (csv : jsstring) (o : ParseOptions.t) :
  exists t,
    parse csv o = Ok t
    /\ cells_all (fun c => In c csv \/ c = LF
                           \/ In c (parse_quote (ParseOptions.quote o)))
         (Table.header t :: Table.rows t).
Proof.
  apply parse_content.
  - apply Forall_forall. intros c Hc.
    destruct (preprocess_chars _ _ _ _ Hc); auto.
  - apply Forall_forall. intros c Hc. auto.
Qed.

Lemma parse_quote_cases (v : JSValue) :
  parse_quote v = []
  \/ exists c, parse_quote v = [c] /\ c <> LF /\ c <> CR.
Proof.
  unfold parse_quote.
  destruct (filter validQuotesAndSeparators
              (toCharArray (orDefault (JString [DQUOTE]) v)))
    as [|x l] eqn:E.
  - left; reflexivity.
  - right. destruct (validated_single (orDefault (JString [DQUOTE]) v) x)
      as (c & -> & H1 & H2).
    + rewrite E. left; reflexivity.
    + exists c. auto.
Qed.

(** X15: no cell of the result holds a carriage return, and a cell holds
    a NUL character only when NUL is the quote character, for every text
    and every configuration. *)
Theorem parse_cells_without_carriage_return (csv : jsstring)
    (o : ParseOptions.t) :
  exists t,
    parse csv o = Ok t
    /\ cells_all (fun c => c <> CR
                           /\ (c = NUL ->
                               parse_quote (ParseOptions.quote o) = [NUL]))
         (Table.header t :: Table.rows t).
Proof.
  apply parse_content.
  - destruct (preprocess_shape
                (ParseOptions.forceLineFeedAfterCarriageReturn o)
                (ParseOptions.ignoreLinefeedBeforeEOF o) csv) as [H _].
    rewrite forallb_forall in H. apply Forall_forall. intros c Hc.
    specialize (H c Hc). apply andb_true_iff in H. destruct H as [H1 H2].
    apply negb_true_iff in H1, H2. split.
    + intros ->. discriminate H1.
    + intros ->. discriminate H2.
  - destruct (parse_quote_cases (ParseOptions.quote o))
      as [->|(c & -> & _ & Hcr)]; [constructor|].
    constructor; [|constructor]. split; [exact Hcr|].
    intros ->. reflexivity.
Qed.

(** ** Line feeds without a quote *)

Lemma consume_state (a a' : Agg.t) (character : jsstring) :
  consume a character = Ok a' -> Agg.parserState a' = Agg.parserState a.
Proof.
  unfold consume. destruct (update_last _ (Agg.array a)); [|discriminate].
  cbn [bind]. intros [= <-]. reflexivity.
Qed.

Lemma endCell_state (a a' : Agg.t) (characterClasses : list Cls.t) :
  endCell a characterClasses = Ok a' -> Agg.parserState a' = State.empty.
Proof.
  unfold endCell.
  destruct (Cls.includes characterClasses Cls.separator).
  - destruct (update_last _ (Agg.array a)); [|discriminate].
    cbn [bind]. intros [= <-]. reflexivity.
  - destruct (Cls.includes characterClasses Cls.linefeed);
      cbn [bind]; intros [= <-]; reflexivity.
Qed.

(** A line feed read outside an open quoted value ends the row and is
    not stored. *)
Lemma tokenizeCells_linefeed (P : ascii -> Prop) (a : Agg.t)
    (index len : nat) :
  well_formed (Agg.array a) ->
  table_state (Agg.parserState a) = true ->
  Agg.parserState a <> State.open ->
  cells_all P (Agg.array a) ->
  exists a',
    tokenizeCells a LF index len = Ok a'
    /\ well_formed (Agg.array a') /\ cells_all P (Agg.array a')
    /\ Agg.quote a' = Agg.quote a
    /\ ((index =? len - 1) = false -> Agg.parserState a' = State.empty).
Proof.
  intros Hw Hs Hopen Hc. unfold tokenizeCells, classifyCharacter.
  change (Ascii.eqb LF LF) with true. cbv iota zeta. cbn [reduceClass bind].
  assert (Ht : exists s1, transition (Agg.parserState a) Cls.linefeed = Ok s1
                          /\ (s1 = State.finished \/ s1 = State.discarded)).
  { destruct (Agg.parserState a); try discriminate Hs;
      try (contradiction Hopen; reflexivity);
      eexists; (split; [reflexivity | auto]). }
  destruct Ht as (s1 & -> & Hs1). cbn [bind].
  assert (Hadj : exists a2,
             (if Agg.taintQuoteSeparatorLines a
              then taintAdjust a Cls.linefeed s1 else Ok (a, s1))
             = Ok (a2, s1)
             /\ Agg.array a2 = Agg.array a /\ Agg.quote a2 = Agg.quote a).
  { destruct (Agg.taintQuoteSeparatorLines a).
    - unfold taintAdjust.
      destruct (taintUpdate_fields a Cls.linefeed s1) as [Ea Eq].
      exists (taintUpdate a Cls.linefeed s1).
      split; [|split; assumption].
      destruct Hs1 as [-> | ->]; reflexivity.
    - exists a. auto. }
  destruct Hadj as (a2 & -> & Ea2 & Eq2). cbn [bind fst snd].
  rewrite <- Ea2 in Hw, Hc.
  assert (Hdis : exists a3,
             (if State.eqb (Agg.parserState (Agg.set_parserState a2 s1))
                   State.discarded
              then discardCell (Agg.set_parserState a2 s1)
              else Ok (Agg.set_parserState a2 s1)) = Ok a3
             /\ well_formed (Agg.array a3) /\ cells_all P (Agg.array a3)
             /\ Agg.quote a3 = Agg.quote a
             /\ Agg.parserState a3 = State.finished).
  { cbn [Agg.parserState Agg.set_parserState].
    destruct Hs1 as [-> | ->]; cbn [State.eqb].
    - eexists. split; [reflexivity|]. cbn. auto.
    - destruct (discardCell_content P (Agg.set_parserState a2 State.discarded)
                  Hw Hc) as (array & E & Hwa & Hca).
      rewrite E. eexists. split; [reflexivity|]. cbn. auto. }
  destruct Hdis as (a3 & -> & Hw3 & Hc3 & Hq3 & Hs3). cbn [bind].
  rewrite Hs3. cbn [State.eqb].
  destruct (index =? len - 1); cbn [negb].
  - exists a3. split; [reflexivity|]. split; [exact Hw3|].
    split; [exact Hc3|]. split; [exact Hq3 | discriminate].
  - destruct (endCell_content P a3 [Cls.linefeed] Hw3 Hc3)
      as (a4 & E & Hw4 & Hc4 & Hs4 & Hq4).
    rewrite E. exists a4. split; [reflexivity|]. split; [exact Hw4|].
    split; [exact Hc4|]. split; [congruence | intros _; exact Hs4].
Qed.

(** Without a quote no character opens a quoted value. *)
Lemma tokenizeCells_unset_state (a a' : Agg.t) (character : ascii)
    (index len : nat) :
  Agg.quote a = [] ->
  unquoted_state (Agg.parserState a) = true ->
  Ascii.eqb character LF = false ->
  tokenizeCells a character index len = Ok a' ->
  (index =? len - 1) = false ->
  unquoted_state (Agg.parserState a') = true.
Proof.
  intros Hq Hs Hlf E Hnl. unfold tokenizeCells in E. cbv zeta in E.
  rewrite reduceClass_classify, Hq, Hnl in E. cbn [bind negb] in E.
  unfold reducedClassOf in E. rewrite Hlf in E.
  change (str_eqb [character] []) with false in E. cbv iota in E.
  assert (Ht : exists s1,
             transition (Agg.parserState a)
               (if existsb (str_eqb [character]) (Agg.separators a)
                then Cls.separator
                else if Ascii.eqb character SP then Cls.space
                     else Cls.other) = Ok s1
             /\ (s1 = State.finished \/ s1 = State.unsettled
                 \/ s1 = State.unquoted)).
  { destruct (Agg.parserState a); try discriminate Hs;
      destruct (existsb (str_eqb [character]) (Agg.separators a));
      try destruct (Ascii.eqb character SP);
      eexists; (split; [reflexivity | auto]). }
  destruct Ht as (s1 & Et & Hs1). rewrite Et in E. cbn [bind] in E.
  set (r := if existsb (str_eqb [character]) (Agg.separators a)
            then Cls.separator
            else if Ascii.eqb character SP then Cls.space else Cls.other)
    in *.
  assert (Hr : Cls.eqb r Cls.linefeed = false).
  { subst r. destruct (existsb _ _); [reflexivity|].
    destruct (Ascii.eqb character SP); reflexivity. }
  assert (Hadj : exists a2,
             (if Agg.taintQuoteSeparatorLines a
              then taintAdjust a r s1 else Ok (a, s1)) = Ok (a2, s1)).
  { destruct (Agg.taintQuoteSeparatorLines a); [|exists a; reflexivity].
    unfold taintAdjust. rewrite Hr. cbn [andb]. eexists; reflexivity. }
  destruct Hadj as (a2 & Ea). rewrite Ea in E. cbn [bind fst snd] in E.
  cbn [Agg.parserState Agg.set_parserState] in E.
  assert (Hnd : State.eqb s1 State.discarded = false).
  { destruct Hs1 as [->|[->| ->]]; reflexivity. }
  rewrite Hnd in E. cbn [bind Agg.parserState Agg.set_parserState] in E.
  destruct (State.eqb s1 State.finished) eqn:Ef.
  - rewrite (endCell_state _ _ _ E). reflexivity.
  - rewrite (consume_state _ _ _ E). cbn [Agg.parserState Agg.set_parserState].
    destruct Hs1 as [->|[->| ->]]; [discriminate Ef | reflexivity..].
Qed.

Lemma reduce_from_unset (chars : list ascii) :
  forall (a : Agg.t) (index len : nat),
    well_formed (Agg.array a) ->
    Agg.quote a = [] ->
    unquoted_state (Agg.parserState a) = true ->
    cells_all (fun c => c <> LF) (Agg.array a) ->
    index + length chars <= len ->
    exists a', reduce_from a index len chars = Ok a'
               /\ cells_all (fun c => c <> LF) (Agg.array a').
Proof.
  induction chars as [|c chars IH];
    intros a index len Hw Hq Hs Hc Hlen; cbn [reduce_from].
  - exists a; split; [reflexivity | exact Hc].
  - assert (Hts : table_state (Agg.parserState a) = true).
    { destruct (Agg.parserState a); try discriminate Hs; reflexivity. }
    assert (Hstep : exists a1,
               tokenizeCells a c index len = Ok a1
               /\ well_formed (Agg.array a1)
               /\ cells_all (fun c => c <> LF) (Agg.array a1)
               /\ Agg.quote a1 = []
               /\ ((index =? len - 1) = false ->
                   unquoted_state (Agg.parserState a1) = true)).
    { destruct (Ascii.eqb c LF) eqn:Elf.
      - apply Ascii.eqb_eq in Elf. subst c.
        destruct (tokenizeCells_linefeed (fun c => c <> LF) a index len
                    Hw Hts) as (a1 & E & Hw1 & Hc1 & Hq1 & Hs1).
        { intros Ho. rewrite Ho in Hs. discriminate Hs. }
        { exact Hc. }
        exists a1. split; [exact E|]. split; [exact Hw1|].
        split; [exact Hc1|]. split; [congruence|].
        intros Hnl. rewrite (Hs1 Hnl). reflexivity.
      - destruct (tokenizeCells_content (fun c => c <> LF) a c index len
                    Hw Hts Hc) as (a1 & E & Hw1 & Hc1 & Hq1 & _).
        { rewrite Hq. constructor. }
        { intros ->. discriminate Elf. }
        exists a1. split; [exact E|]. split; [exact Hw1|].
        split; [exact Hc1|]. split; [congruence|].
        intros Hnl.
        apply (tokenizeCells_unset_state a a1 c index len Hq Hs Elf E Hnl). }
    destruct Hstep as (a1 & -> & Hw1 & Hc1 & Hq1 & Hs1). cbn [bind].
    destruct chars as [|d chars].
    + exists a1; split; [reflexivity | exact Hc1].
    + apply IH; auto.
      * apply Hs1. apply Nat.eqb_neq. simpl in Hlen. lia.
      * simpl in *. lia.
Qed.

(** X16: when no quote is in effect no cell of the result holds a line
    feed: every line feed of the text ends a row. *)
Theorem parse_without_quote_has_no_line_feed (csv : jsstring)
    (o : ParseOptions.t) :
  parse_quote (ParseOptions.quote o) = [] ->
  exists t,
    parse csv o = Ok t
    /\ cells_all (fun c => c <> LF) (Table.header t :: Table.rows t).
Proof.
  intros Hq.
  destruct (initialAggregator_well_formed o) as [Hw Hs].
  destruct (reduce_from_unset
              (preprocess (ParseOptions.forceLineFeedAfterCarriageReturn o)
                 (ParseOptions.ignoreLinefeedBeforeEOF o) csv)
              (initialAggregator o) 0
              (length (preprocess
                         (ParseOptions.forceLineFeedAfterCarriageReturn o)
                         (ParseOptions.ignoreLinefeedBeforeEOF o) csv))
              Hw) as (a & E & Hc).
  { exact Hq. }
  { reflexivity. }
  { repeat constructor. }
  { simpl; lia. }
  destruct (parse_total csv o) as (t & Et). exists t. split; [exact Et|].
  unfold parse, tokenize, reduce in Et. rewrite E in Et. cbn [bind] in Et.
  destruct (map _ (Agg.array a)) as [|header rows] eqn:Em; [discriminate Et|].
  injection Et as <-. cbn [Table.header Table.rows]. rewrite <- Em.
  unfold cells_all in *. apply Forall_map.
  eapply Forall_impl; [|exact Hc]. intros row Hrow.
  unfold parseSubArrays. apply Forall_map.
  eapply Forall_impl; [|exact Hrow]. intros cell Hcell.
  apply parseString_content; [exact Hcell|]. rewrite Hq. constructor.
Qed.

Lemma parse_without_quote_has_no_line_feed_witness :
  parse_quote (ParseOptions.quote noQuote_options) = []
  /\ exists t,
       parse (str "a,b" ++ [LF] ++ str "c") noQuote_options = Ok t
       /\ cells_all (fun c => c <> LF) (Table.header t :: Table.rows t).
Proof.
  split; [reflexivity|].
  apply (parse_without_quote_has_no_line_feed
           (str "a,b" ++ [LF] ++ str "c") noQuote_options).
  reflexivity.
Defined.

(** ** Lines that end with a separator *)

Lemma tok_linefeed_discard (rows : list (list jsstring))
    (row : list jsstring) :
  row <> [] ->
  tok false (defaultAggregator (rows ++ [row ++ [[]]]) State.empty) LF
  = Ok (defaultAggregator ((rows ++ [row]) ++ [[[]]]) State.empty)
  /\ tok true (defaultAggregator (rows ++ [row ++ [[]]]) State.empty) LF
     = Ok (defaultAggregator (rows ++ [row]) State.finished).
Proof.
  intros Hne.
  assert (L : (1 <? length (row ++ [[]])) = true).
  { apply Nat.ltb_lt. rewrite length_app. destruct row; simpl in *; [|lia].
    contradiction Hne; reflexivity. }
  split; unfold tok, tokenizeCells, defaultAggregator; cbn;
    unfold discardCell; agg_fields; rewrite update_last_app; cbn [bind];
    rewrite L, removelast_snoc; reflexivity.
Qed.

Lemma feed_line_with_comma (rows : list (list jsstring))
    (c1 : jsstring) (cs : list jsstring) :
  feed (defaultAggregator (rows ++ [[[]]]) State.empty)
    (join (str ",") (map (quoteString [DQUOTE] (str ",")) (c1 :: cs))
     ++ str ",")
  = Ok (defaultAggregator
          (rows ++ [map (quoteString [DQUOTE] (str ",")) (c1 :: cs) ++ [[]]])
          State.empty).
Proof.
  destruct (feed_token_row rows cs c1 []) as (s1 & E & Hs1 & _).
  cbn [app] in E. rewrite feed_app, E. cbn [bind].
  change (feed ?a (str ","))
    with (a' <- tok false a ","%char ;; feed a' []).
  assert (Hne : map (quoteString [DQUOTE] (str ",")) (c1 :: cs) <> [])
    by discriminate.
  destruct (exists_last Hne) as (front & cur & Ef). rewrite Ef.
  rewrite (tok_comma_end rows front cur s1 Hs1). reflexivity.
Qed.

Lemma feed_lines_with_comma (rs : list (list jsstring)) :
  forall (r1 : list jsstring) (rows : list (list jsstring)),
    text_rows (r1 :: rs) ->
    exists front last_row,
      map (map (quoteString [DQUOTE] (str ","))) (r1 :: rs)
      = front ++ [last_row]
      /\ last_row <> []
      /\ feed (defaultAggregator (rows ++ [[[]]]) State.empty)
           (trailing_comma_csv (r1 :: rs))
         = Ok (defaultAggregator (rows ++ front ++ [last_row ++ [[]]])
                 State.empty).
Proof.
  induction rs as [|r2 rs IH]; intros r1 rows HT;
    inversion HT as [|? ? (Hne1 & _) HT']; subst;
    (destruct r1 as [|c1 cs]; [contradiction Hne1; reflexivity|]).
  - exists [], (map (quoteString [DQUOTE] (str ",")) (c1 :: cs)).
    split; [reflexivity|]. split; [discriminate|].
    cbn [app]. apply feed_line_with_comma.
  - destruct (IH r2
                (rows ++ [map (quoteString [DQUOTE] (str ",")) (c1 :: cs)])
                HT') as (front & last_row & Ea & Hl & E2).
    exists (map (quoteString [DQUOTE] (str ",")) (c1 :: cs) :: front),
           last_row.
    split; [|split; [exact Hl|]].
    + change (map (map (quoteString [DQUOTE] (str ",")))
                ((c1 :: cs) :: r2 :: rs))
        with (map (quoteString [DQUOTE] (str ",")) (c1 :: cs)
              :: map (map (quoteString [DQUOTE] (str ","))) (r2 :: rs)).
      rewrite Ea. reflexivity.
    + change (trailing_comma_csv ((c1 :: cs) :: r2 :: rs))
        with ((join (str ",")
                 (map (quoteString [DQUOTE] (str ",")) (c1 :: cs))
               ++ str ",")
              ++ LF :: trailing_comma_csv (r2 :: rs)).
      rewrite feed_app, feed_line_with_comma. cbn [bind].
      rewrite feed_cons.
      destruct (tok_linefeed_discard rows
                  (map (quoteString [DQUOTE] (str ",")) (c1 :: cs)))
        as [-> _]; [discriminate|].
      cbn [bind]. rewrite E2. rewrite <- app_assoc. reflexivity.
Qed.

Lemma trailing_comma_csv_text (T : list (list jsstring)) :
  text_rows T -> forallb text_char (trailing_comma_csv T) = true.
Proof.
  intros HT. unfold trailing_comma_csv.
  apply forallb_join; [reflexivity|].
  apply Forall_map. eapply Forall_impl; [|exact HT].
  intros row (_ & Hrow). cbv beta. rewrite forallb_app.
  change (forallb text_char (str ",")) with true. rewrite andb_true_r.
  apply forallb_join; [reflexivity|].
  apply Forall_map. rewrite forallb_forall in Hrow.
  apply Forall_forall. intros cell Hin.
  apply quoteString_text, Hrow, Hin.
Qed.

Lemma trailing_comma_csv_end (T : list (list jsstring)) :
  T <> [] ->
  exists body, trailing_comma_csv T = body ++ [","%char].
Proof.
  intros Hne. destruct (exists_last Hne) as (T' & row & ->).
  unfold trailing_comma_csv. rewrite map_app. cbn [map].
  destruct (join_snoc [LF]
              (map (fun row0 =>
                      join (str ",")
                        (map (quoteString [DQUOTE] (str ",")) row0)
                      ++ str ",") T')
              (join (str ",") (map (quoteString [DQUOTE] (str ",")) row)
               ++ str ",")) as (pre & ->).
  eexists. rewrite app_assoc. reflexivity.
Qed.

Lemma preprocess_trailing_comma (T : list (list jsstring)) :
  T <> [] -> text_rows T ->
  preprocess true true (trailing_comma_csv T)
  = trailing_comma_csv T ++ [LF].
Proof.
  intros Hne HT. pose proof (trailing_comma_csv_text T HT) as Htext.
  unfold preprocess. rewrite strictLinebreakGroups_id.
  2:{ apply forallb_forall. intros c Hc.
      rewrite forallb_forall in Htext. specialize (Htext c Hc).
      unfold text_char in Htext. apply andb_true_iff in Htext. tauto. }
  destruct (trailing_comma_csv_end T Hne) as (body & E).
  assert (Hends : endsWith (trailing_comma_csv T) [LF] = false).
  { rewrite E, endsWith_snoc. reflexivity. }
  rewrite Hends. cbn [andb]. apply filter_all.
  rewrite forallb_app.
  change (forallb (fun c0 => negb (Ascii.eqb c0 NUL)) [LF]) with true.
  rewrite andb_true_r. apply forallb_forall. intros c' Hc'.
  rewrite forallb_forall in Htext. specialize (Htext c' Hc').
  unfold text_char in Htext. apply andb_true_iff in Htext. tauto.
Qed.

(** X17: a separator at the end of a line opens no cell.  For a
    non-empty table of rows of at least one cell each, whose cells hold no
    carriage return and no NUL, the text that writes every row with a comma
    after its last cell is read back by [parse] under the default options
    as that table, also where the last cell of a row is empty. *)
Theorem parse_ignores_trailing_separator (T : list (list jsstring)) :
  T <> [] -> text_rows T ->
  exists t,
    parse (trailing_comma_csv T) ParseOptions.default = Ok t
    /\ Table.header t :: Table.rows t = T.
Proof.
  intros Hne HT. unfold parse, tokenize.
  cbn [ParseOptions.forceLineFeedAfterCarriageReturn
       ParseOptions.ignoreLinefeedBeforeEOF ParseOptions.default].
  rewrite (preprocess_trailing_comma T Hne HT).
  unfold reduce. rewrite reduce_from_feed by (rewrite length_app; simpl; lia).
  change (initialAggregator ParseOptions.default)
    with (defaultAggregator ([] ++ [[[]]]) State.empty).
  destruct T as [|r1 rs]; [contradiction Hne; reflexivity|].
  destruct (feed_lines_with_comma rs r1 [] HT)
    as (front & last_row & Ea & Hl & ->).
  cbn [bind app].
  destruct (tok_linefeed_discard front last_row Hl) as [_ ->].
  cbn [bind Agg.array defaultAggregator].
  change (parse_quote (ParseOptions.quote ParseOptions.default))
    with [DQUOTE].
  cbn [ParseOptions.ignoreSpacesAfterQuotedString ParseOptions.default].
  rewrite <- Ea, normalize_quoted.
  eexists. split; reflexivity.
Qed.

Lemma parse_ignores_trailing_separator_witness :
  greek_hebrew <> [] /\ text_rows greek_hebrew
  /\ exists t,
       parse (trailing_comma_csv greek_hebrew) ParseOptions.default = Ok t
       /\ Table.header t :: Table.rows t = greek_hebrew.
Proof.
  assert (Hne : greek_hebrew <> []) by discriminate.
  assert (HT : text_rows greek_hebrew).
  { repeat constructor; discriminate. }
  split; [exact Hne|]. split; [exact HT|].
  apply (parse_ignores_trailing_separator greek_hebrew Hne HT).
Defined.

(** ** The entries of a mapped row *)

Lemma toHashMap_from_entries (header : list jsstring) (key v : jsstring)
    (row : list jsstring) :
  forall (hashMap : JSObject) (index : nat),
    own_get (toHashMap_from header hashMap index row) key = Some v ->
    own_get hashMap key = Some v
    \/ exists j, nth_error row j = Some v
                 /\ header_key header (index + j) = key
                 /\ key <> str "__proto__".
Proof.
  induction row as [|cell row IH]; intros hashMap index H.
  - left. exact H.
  - cbn [toHashMap_from] in H. destruct (IH _ _ H) as [H1|(j & Hj & Hk & Hp)].
    + rewrite own_get_prop_set in H1.
      destruct (str_eqb (header_key header index) key) eqn:Ek;
        cbn [andb] in H1; [|left; exact H1].
      destruct (str_eqb (header_key header index) (str "__proto__")) eqn:Ep;
        cbn [negb] in H1; [left; exact H1|].
      right. exists 0. injection H1 as <-. apply str_eqb_eq in Ek.
      rewrite Nat.add_0_r. split; [reflexivity|]. split; [exact Ek|].
      intros ->. rewrite Ek, str_eqb_refl in Ep. discriminate Ep.
    + right. exists (S j). split; [exact Hj|]. split; [|exact Hp].
      replace (index + S j) with (S index + j) by lia. exact Hk.
Qed.

(** X18: every entry of a mapped row pairs a name with the cell of the
    row at a position where the header has that name; the only other name
    a mapped row can have is undefined, for a cell beyond the end of the
    header.  The name __proto__ never becomes an entry. *)
Theorem mapped_row_entries (header row : list jsstring)
    (key v : jsstring) :
  own_get (toHashMap header row) key = Some v ->
  key <> str "__proto__"
  /\ exists j,
       nth_error row j = Some v
       /\ (nth_error header j = Some key
           \/ (length header <= j /\ key = str "undefined")).
Proof.
  intros H. unfold toHashMap in H.
  destruct (toHashMap_from_entries header key v row [] 0 H)
    as [H0|(j & Hj & Hk & Hp)]; [discriminate H0|].
  split; [exact Hp|]. exists j. split; [exact Hj|].
  cbn [Nat.add] in Hk.
  destruct (header_key_cases header j) as [[_ E]|[Hl E]].
  - left. rewrite <- Hk. exact E.
  - right. split; [exact Hl | congruence].
Qed.

Lemma mapped_row_entries_witness :
  own_get (toHashMap [str "a"; str "b"] [str "x"; str "y"; str "z"])
    (str "b") = Some (str "y")
  /\ str "b" <> str "__proto__"
  /\ exists j,
       nth_error [str "x"; str "y"; str "z"] j = Some (str "y")
       /\ (nth_error [str "a"; str "b"] j = Some (str "b")
           \/ (length [str "a"; str "b"] <= j /\ str "b" = str "undefined")).
Proof.
  split; [reflexivity|].
  apply (mapped_row_entries [str "a"; str "b"] [str "x"; str "y"; str "z"]
           (str "b") (str "y")).
  reflexivity.
Defined.
